(** * Boot-print texture generators: a shallow embedding

    The development follows two scripts of the repository:

    - [experiments/generate_boot_print.py]: a four-pass raster synthesiser
      ([create_boot_print]) and the emitter of the right/left pair
      ([create_left_right_boot_prints]);
    - [experiments/create_rounded_boot_prints.py]: the ellipse-based variant
      whose [create_boot_print(is_left)] draws each foot on its own.

    Python [float] arithmetic is reached through the interface [PyFloat], so
    that every function of the scripts is written once.  Two instances are
    given: [ieee] (binary64 through the kernel's primitive floats, parametrised
    by the platform's [cos] and [sin]) runs the code, and [real] (the
    mathematical reals) is the one the numeric theorems are proved on.  The
    pixel buffer of PIL is a record of its size and a total map from
    coordinates to RGBA tuples; an access outside the size raises
    [IndexError]. *)

From Stdlib Require Import ZArith QArith Reals Lra Lia List Bool String.
From Stdlib Require Import Floats.PrimFloat Floats.FloatOps Floats.SpecFloat.
From Stdlib Require Import Numbers.Cyclic.Int63.Uint63.
Import ListNotations.

Set Implicit Arguments.

(** ** Exceptions and the error monad *)

Inductive exn : Type :=
| ZeroDivisionError
| ValueError
| OverflowError
| IndexError
| OSError.

Inductive result (A : Type) : Type :=
| Ok (a : A)
| Raise (e : exn).

Arguments Ok {A} a.
Arguments Raise {A} e.

Definition bind {A B : Type} (m : result A) (k : A -> result B) : result B :=
  match m with
  | Ok a => k a
  | Raise e => Raise e
  end.

Declare Scope exc_scope.
Delimit Scope exc_scope with exc.
Notation "x <- m ;; k" := (bind m (fun x => k))
  (at level 61, m at next level, right associativity) : exc_scope.
Open Scope exc_scope.

(** A Python [for] statement over a list, threading the loop's state. *)
Fixpoint for_each {A S : Type} (xs : list A) (body : A -> S -> result S) (s : S)
  : result S :=
  match xs with
  | [] => Ok s
  | x :: rest => s' <- body x s ;; for_each rest body s'
  end.

(** [range(start, stop, step)] for a positive step. *)
Definition range_step (start stop step : Z) : list Z :=
  map (fun i => start + step * Z.of_nat i)%Z
      (seq 0 (Z.to_nat ((stop - start + step - 1) / step))).

Definition range (start stop : Z) : list Z := range_step start stop 1.

(** ** Python floats *)

Class PyFloat : Type := {
  num : Type;
  of_int : Z -> num;              (* the conversion of an [int] operand *)
  lit : Q -> num;                 (* a decimal literal *)
  fadd : num -> num -> num;
  fsub : num -> num -> num;
  fmul : num -> num -> num;
  fdiv : num -> num -> num;       (* division by a non-zero divisor *)
  flt : num -> num -> bool;       (* [x < y] *)
  math_cos : num -> num;
  math_sin : num -> num;
  math_pi : num;
  to_int : num -> option Z;       (* [int(x)]; [None] on nan and infinities *)
  is_nan : num -> bool
}.

Declare Scope pyf_scope.
Delimit Scope pyf_scope with pyf.
Infix "+" := fadd : pyf_scope.
Infix "-" := fsub : pyf_scope.
Infix "*" := fmul : pyf_scope.
Infix "/" := fdiv : pyf_scope.
Infix "<?" := flt : pyf_scope.

Section Profile.
Context {FM : PyFloat}.

(** [int / int]: true division, [ZeroDivisionError] on a zero divisor. *)
Definition truediv (a b : Z) : result num :=
  if (b =? 0)%Z then Raise ZeroDivisionError
  else Ok (of_int a / of_int b)%pyf.

(** [int(x)]: truncation toward zero; [ValueError] on nan, [OverflowError]
    on an infinity. *)
Definition py_int (x : num) : result Z :=
  match to_int x with
  | Some z => Ok z
  | None => if is_nan x then Raise ValueError else Raise OverflowError
  end.

(** generate_boot_print.py, lines 39-50. *)
Definition get_width_factor (rel_y : num) : num :=
  if (rel_y <? lit 0.30)%pyf then
    (lit 0.90 + lit 0.10 * math_cos (rel_y / lit 0.30 * math_pi / of_int 2))%pyf
  else if (rel_y <? lit 0.50)%pyf then
    let progress := ((rel_y - lit 0.30) / lit 0.20)%pyf in
    (lit 0.90 - lit 0.25 * progress)%pyf
  else if (rel_y <? lit 0.60)%pyf then
    lit 0.65
  else
    let progress := ((rel_y - lit 0.60) / lit 0.40)%pyf in
    (lit 0.65 + lit 0.30 * progress)%pyf.
End Profile.

(** ** The two arithmetic instances *)

(** Truncation of a real toward zero. *)
Definition Rtrunc (x : R) : Z :=
  if Rle_dec 0 x then Int_part x else (- Int_part (- x))%Z.

(** The reals: exact arithmetic, no nan, no infinity. *)
#[global] Instance real : PyFloat := {|
  num := R;
  of_int := IZR;
  lit := Q2R;
  fadd := Rplus;
  fsub := Rminus;
  fmul := Rmult;
  fdiv := Rdiv;
  flt := fun x y => if Rlt_dec x y then true else false;
  math_cos := cos;
  math_sin := sin;
  math_pi := PI;
  to_int := fun x => Some (Rtrunc x);
  is_nan := fun _ => false
|}.

(** On the reals [int()] always has a value. *)
Lemma real_int (x : R) : exists z, @to_int real x = Some z.
Proof. exists (Rtrunc x). reflexivity. Qed.

(** binary64, the [float] of CPython, as the kernel's primitive floats.  The
    conversion of an [int] is exact below 2^53 in magnitude, which covers
    every integer the scripts convert. *)
Module IEEE.
Definition of_Z (z : Z) : float :=
  match z with
  | Z0 => PrimFloat.zero
  | Zpos _ => PrimFloat.of_uint63 (Uint63.of_Z z)
  | Zneg p => PrimFloat.opp (PrimFloat.of_uint63 (Uint63.of_Z (Zpos p)))
  end.

(** A decimal literal: the nearest binary64 value. *)
Definition of_Q (q : Q) : float :=
  PrimFloat.div (of_Z (Qnum q)) (of_Z (Zpos (Qden q))).

(** Truncation toward zero of a finite value. *)
Definition trunc (x : float) : option Z :=
  match Prim2SF x with
  | S754_zero _ => Some 0%Z
  | S754_finite s m e =>
      let mag := match e with
                 | Z0 => Zpos m
                 | Zpos k => Z.shiftl (Zpos m) (Zpos k)
                 | Zneg k => Z.shiftr (Zpos m) (Zpos k)
                 end in
      Some (if s then (- mag)%Z else mag)
  | S754_infinity _ => None
  | S754_nan => None
  end.

Definition pi : float := 0x1.921fb54442d18p+1%float.
End IEEE.

(** binary64 on a platform whose libm has [libm_cos] and [libm_sin]. *)
Definition ieee (libm_cos libm_sin : float -> float) : PyFloat := {|
  num := float;
  of_int := IEEE.of_Z;
  lit := IEEE.of_Q;
  fadd := PrimFloat.add;
  fsub := PrimFloat.sub;
  fmul := PrimFloat.mul;
  fdiv := PrimFloat.div;
  flt := PrimFloat.ltb;
  math_cos := libm_cos;
  math_sin := libm_sin;
  math_pi := IEEE.pi;
  to_int := IEEE.trunc;
  is_nan := PrimFloat.is_nan
|}.

(** ** The pixel buffer (PIL's [Image] in mode RGBA) *)

Definition Pixel : Type := (Z * Z * Z * Z)%type.

(** [current[3]]: the alpha channel. *)
Definition alpha (p : Pixel) : Z := snd p.

Record Image : Type := mkImage {
  im_width : Z;
  im_height : Z;
  im_px : Z -> Z -> Pixel
}.

Definition in_bounds (img : Image) (x y : Z) : bool :=
  ((0 <=? x) && (x <? im_width img) && (0 <=? y) && (y <? im_height img))%Z.

(** [img.getpixel((x, y))].  PIL also accepts negative indices (counted from
    the far edge); the model is stricter and raises on them too, so a run that
    returns has touched only coordinates of [0, width) x [0, height). *)
Definition getpixel (img : Image) (xy : Z * Z) : result Pixel :=
  let '(x, y) := xy in
  if in_bounds img x y then Ok (im_px img x y) else Raise IndexError.

(** [img.putpixel((x, y), value)]. *)
Definition putpixel (xy : Z * Z) (value : Pixel) (img : Image) : result Image :=
  let '(x, y) := xy in
  if in_bounds img x y then
    Ok (mkImage (im_width img) (im_height img)
          (fun x' y' => if ((x' =? x) && (y' =? y))%Z then value
                        else im_px img x' y'))
  else Raise IndexError.

(** The buffer [Image.new('RGBA', (width, height), fill)] returns. *)
Definition blank (width height : Z) (fill : Pixel) : Image :=
  mkImage width height (fun _ _ => fill).

(** An image without texels: zero width or zero height. *)
Definition is_empty (img : Image) : bool :=
  ((im_width img <=? 0) || (im_height img <=? 0))%Z.

(** [img.transpose(Image.FLIP_LEFT_RIGHT)]: a new buffer of the same size. *)
Definition flip_left_right (img : Image) : Image :=
  mkImage (im_width img) (im_height img)
    (fun x y => im_px img (im_width img - 1 - x) y).

(** ** generate_boot_print.py: the synthesis passes *)

Module BootPrint.
Section Passes.
Context {FM : PyFloat}.

(* Blood colors *)
Definition blood_main : Pixel := (180, 25, 25, 255)%Z.
Definition blood_edge : Pixel := (140, 15, 15, 255)%Z.
Definition transparent : Pixel := (0, 0, 0, 0)%Z.
Definition droplet : Pixel := (180, 25, 25, 150)%Z.

(* Boot sole parameters *)
Definition margin_x : Z := 3.
Definition margin_y : Z := 3.

Section Canvas.
Variables width height : Z.

Definition sole_left : Z := margin_x.
Definition sole_right : Z := width - margin_x.
Definition sole_top : Z := margin_y.
Definition sole_bottom : Z := height - margin_y.
Definition sole_height : Z := sole_bottom - sole_top.

(** The four statements every pass repeats for its row:
    [rel_y = (y - sole_top) / sole_height],
    [width_factor = get_width_factor(rel_y)],
    [half_width = (sole_right - sole_left) // 2],
    [actual_half = int(half_width * width_factor)]. *)
Definition actual_half (y : Z) : result Z :=
  rel_y <- truediv (y - sole_top) sole_height ;;
  let width_factor := get_width_factor rel_y in
  let half_width := ((sole_right - sole_left) / 2)%Z in
  py_int (of_int half_width * width_factor)%pyf.

Definition center_x : Z := (width / 2)%Z.

(** First pass: draw the solid boot sole (lines 52-66). *)
Definition pass1 (img : Image) : result Image :=
  for_each (range sole_top sole_bottom)
    (fun y img =>
       actual_half <- actual_half y ;;
       let x_left := Z.max 0 (center_x - actual_half) in
       let x_right := Z.min (width - 1) (center_x + actual_half) in
       for_each (range x_left (x_right + 1))
         (fun x img => putpixel (x, y) blood_main img) img)
    img.

Definition tread_spacing : Z := 4.
Definition tread_gap : Z := 2.

(** Second pass: horizontal tread gaps (lines 68-88). *)
Definition pass2 (img : Image) : result Image :=
  for_each (range_step (sole_top + 3) (sole_bottom - 3) tread_spacing)
    (fun tread_y img =>
       actual_half <- actual_half tread_y ;;
       let x_left := Z.max 0 (center_x - actual_half + 2) in
       let x_right := Z.min (width - 1) (center_x + actual_half - 2) in
       for_each (range 0 tread_gap)
         (fun gap img =>
            if (tread_y + gap <? sole_bottom - 2)%Z then
              for_each (range x_left (x_right + 1))
                (fun x img => putpixel (x, tread_y + gap)%Z transparent img)
                img
            else Ok img)
         img)
    img.

(** [if current[3] > 0: img.putpixel(xy, blood_edge)] after
    [current = img.getpixel(xy)]. *)
Definition darken (xy : Z * Z) (img : Image) : result Image :=
  current <- getpixel img xy ;;
  if (alpha current >? 0)%Z then putpixel xy blood_edge img else Ok img.

(** Third pass: darken edges (lines 90-111). *)
Definition pass3 (img : Image) : result Image :=
  for_each (range sole_top sole_bottom)
    (fun y img =>
       actual_half <- actual_half y ;;
       let x_left := Z.max 0 (center_x - actual_half) in
       let x_right := Z.min (width - 1) (center_x + actual_half) in
       for_each (range 0 2)
         (fun edge_offset img =>
            img <- (if (x_left + edge_offset <? width)%Z
                    then darken (x_left + edge_offset, y)%Z img
                    else Ok img) ;;
            if (x_right - edge_offset >=? 0)%Z
            then darken (x_right - edge_offset, y)%Z img
            else Ok img)
         img)
    img.
End Canvas.
End Passes.
End BootPrint.

(** ** The world of a run: the [random] module, the files, the buffers *)

(** Python's [random] module: a generator state that [seed] resets and every
    draw advances.  Nothing is assumed of the numbers it hands out. *)
Class PyRandom {FM : PyFloat} : Type := {
  rng : Type;
  seeded : Z -> rng;                          (* the state after [seed(n)] *)
  gen_random : rng -> num * rng;              (* [random()] *)
  gen_uniform : num -> num -> rng -> num * rng;  (* [uniform(a, b)] *)
  gen_randint : Z -> Z -> rng -> Z * rng      (* [randint(a, b)], [a <= b] *)
}.

Section World.
Context {FM : PyFloat} {RM : PyRandom}.

Record World : Type := mkWorld {
  w_rng : rng;                          (* state of the global generator *)
  w_files : string -> option Image;     (* images stored under each path *)
  w_writable : string -> bool;          (* can the path be written? *)
  w_buffers : list (Z * Z)              (* sizes of the buffers allocated *)
}.

(** Computations that read and update the world and may raise; the world
    reached when an exception is raised is kept. *)
Definition M (A : Type) : Type := World -> result A * World.

Definition ret {A : Type} (a : A) : M A := fun w => (Ok a, w).

Definition raise {A : Type} (e : exn) : M A := fun w => (Raise e, w).

Definition mbind {A B : Type} (m : M A) (k : A -> M B) : M B :=
  fun w => match m w with
           | (Ok a, w') => k a w'
           | (Raise e, w') => (Raise e, w')
           end.

Definition lift {A : Type} (r : result A) : M A := fun w => (r, w).

Fixpoint for_eachM {A S : Type} (xs : list A) (body : A -> S -> M S) (s : S)
  : M S :=
  match xs with
  | [] => ret s
  | x :: rest => mbind (body x s) (for_eachM rest body)
  end.

(** [random.seed(n)] *)
Definition random_seed (n : Z) : M unit :=
  fun w => (Ok tt, mkWorld (seeded n) (w_files w) (w_writable w) (w_buffers w)).

Definition draw {A : Type} (g : rng -> A * rng) : M A :=
  fun w => let '(a, s) := g (w_rng w) in
           (Ok a, mkWorld s (w_files w) (w_writable w) (w_buffers w)).

(** [random.random()] *)
Definition random_random : M num := draw gen_random.

(** [random.uniform(a, b)] *)
Definition random_uniform (a b : num) : M num := draw (gen_uniform a b).

(** [random.randint(a, b)]: [ValueError] on an empty range. *)
Definition random_randint (a b : Z) : M Z :=
  if (b <? a)%Z then raise ValueError else draw (gen_randint a b).

(** [Image.new('RGBA', (width, height), fill)]: PIL refuses a negative
    size; otherwise a buffer is allocated. *)
Definition Image_new (width height : Z) (fill : Pixel) : M Image :=
  fun w =>
    if ((width <? 0) || (height <? 0))%Z then (Raise ValueError, w)
    else (Ok (blank width height fill),
          mkWorld (w_rng w) (w_files w) (w_writable w)
                  ((width, height) :: w_buffers w)).

(** [img.transpose(Image.FLIP_LEFT_RIGHT)] *)
Definition Image_transpose_flip (img : Image) : M Image :=
  fun w =>
    (Ok (flip_left_right img),
     mkWorld (w_rng w) (w_files w) (w_writable w)
             ((im_width img, im_height img) :: w_buffers w)).

(** [img.save(path)]: [OSError] when the destination cannot be written;
    [ValueError] for an image with no texel, which PIL refuses to encode,
    and nothing is stored then. *)
Definition Image_save (img : Image) (path : string) : M unit :=
  fun w =>
    if w_writable w path then
      if is_empty img then (Raise ValueError, w)
      else
        (Ok tt,
         mkWorld (w_rng w)
                 (fun p => if String.eqb p path then Some img else w_files w p)
                 (w_writable w) (w_buffers w))
    else (Raise OSError, w).
End World.

Declare Scope world_scope.
Delimit Scope world_scope with M.
Notation "x <- m ;; k" := (mbind m (fun x => k))
  (at level 61, m at next level, right associativity) : world_scope.
Notation "m ;;; k" := (mbind m (fun _ => k))
  (at level 61, right associativity) : world_scope.

Module Generate.
Import BootPrint.
Section Generator.
Context {FM : PyFloat} {RM : PyRandom}.

(** Fourth pass: splatter around the edges (lines 113-141), after
    [random.seed(42)]. *)
Definition pass4 (width height : Z) (img : Image) : M Image :=
  for_eachM (range 0 15)
    (fun _ img =>
       (angle <- random_uniform (of_int 0) (of_int 2 * math_pi)%pyf ;;
        dist <- random_uniform (of_int 0) (of_int 4) ;;
        base_y <- random_randint sole_top (sole_bottom height - 1) ;;
        actual_half <- lift (actual_half width height base_y) ;;
        r <- random_random ;;
        let edge_x := if (lit 0.5 <? r)%pyf
                      then (center_x width - actual_half)%Z
                      else (center_x width + actual_half)%Z in
        splat_x <- lift (py_int (of_int edge_x + dist * math_cos angle)%pyf) ;;
        splat_y <- lift (py_int (of_int base_y + dist * math_sin angle)%pyf) ;;
        if ((0 <=? splat_x) && (splat_x <? width)
            && (0 <=? splat_y) && (splat_y <? height))%Z
        then
          current <- lift (getpixel img (splat_x, splat_y)) ;;
          if (alpha current =? 0)%Z
          then lift (putpixel (splat_x, splat_y) droplet img)
          else ret img
        else ret img)%M)
    img.

(** [create_boot_print(width, height, output_path)], lines 11-148.  The two
    [print] calls report to the console and are left out. *)
Definition create_boot_print (width height : Z) (output_path : string)
  : M Image :=
  (img <- Image_new width height (0, 0, 0, 0)%Z ;;
   img <- lift (pass1 width height img) ;;
   img <- lift (pass2 width height img) ;;
   img <- lift (pass3 width height img) ;;
   random_seed 42 ;;;
   img <- pass4 width height img ;;
   Image_save img output_path ;;;
   ret img)%M.

Definition right_path : string :=
  "/tmp/gh-issue-solver-1769316734794/assets/sprites/effects/boot_print_right.png".
Definition left_path : string :=
  "/tmp/gh-issue-solver-1769316734794/assets/sprites/effects/boot_print_left.png".

(** [create_left_right_boot_prints()], lines 151-163. *)
Definition create_left_right_boot_prints : M unit :=
  (right_print <- create_boot_print 32 48 right_path ;;
   left_print <- Image_transpose_flip right_print ;;
   Image_save left_print left_path)%M.
End Generator.
End Generate.

(** * create_rounded_boot_prints.py *)

(** [ImageDraw.ellipse]: PIL's rasteriser is taken as it comes; all that is
    used of it is that it colours no texel outside the bounding box it is
    given. *)
Class PilDraw : Type := {
  ellipse_covers : Z * Z * Z * Z -> Z -> Z -> bool;
  ellipse_in_box :
    forall x0 y0 x1 y1 x y,
      ellipse_covers (x0, y0, x1, y1) x y = true ->
      (x0 <= x <= x1 /\ y0 <= y <= y1)%Z
}.

Module Rounded.
Section Script.
Context {PD : PilDraw}.

Definition CANVAS_WIDTH : Z := 22.
Definition CANVAS_HEIGHT : Z := 40.

Definition BOOT_COLOR : Pixel := (139, 0, 0, 255)%Z.
Definition TRANSPARENT : Pixel := (0, 0, 0, 0)%Z.

(** [draw.ellipse([x0, y0, x1, y1], fill=fill)]: drawing is clipped to the
    buffer. *)
Definition draw_ellipse (box : Z * Z * Z * Z) (fill : Pixel) (img : Image)
  : Image :=
  mkImage (im_width img) (im_height img)
    (fun x y => if in_bounds img x y && ellipse_covers box x y then fill
                else im_px img x y).

(** [create_boot_print(is_left)], lines 21-102. *)
Definition create_boot_print (is_left : bool) : result Image :=
  let img := blank CANVAS_WIDTH CANVAS_HEIGHT TRANSPARENT in
  let cx := (CANVAS_WIDTH / 2)%Z in
  let cy := (CANVAS_HEIGHT / 2)%Z in
  let boot_height := 18%Z in
  let start_y := (cy - boot_height / 2)%Z in
  let offset := (if is_left then 1 else -1)%Z in
  (* Heel section *)
  let heel_width := 7%Z in
  let heel_height := 6%Z in
  let heel_x := (cx - heel_width / 2 + offset)%Z in
  let heel_y := (start_y + boot_height - heel_height)%Z in
  let img := draw_ellipse
               (heel_x, heel_y, heel_x + heel_width, heel_y + heel_height)%Z
               BOOT_COLOR img in
  (* Arch/instep section *)
  let arch_width := 4%Z in
  let arch_height := 4%Z in
  let arch_x := (cx - arch_width / 2 + offset)%Z in
  let arch_y := (start_y + boot_height - heel_height - arch_height + 2)%Z in
  let img := draw_ellipse
               (arch_x, arch_y, arch_x + arch_width, arch_y + arch_height + 2)%Z
               BOOT_COLOR img in
  (* Ball of foot section *)
  let ball_width := 8%Z in
  let ball_height := 6%Z in
  let ball_x := (cx - ball_width / 2 - offset)%Z in
  let ball_y := (start_y + 4)%Z in
  let img := draw_ellipse
               (ball_x, ball_y, ball_x + ball_width, ball_y + ball_height)%Z
               BOOT_COLOR img in
  (* Toe section *)
  let toe_width := 7%Z in
  let toe_height := 5%Z in
  let toe_x := (cx - toe_width / 2 - offset)%Z in
  let toe_y := start_y in
  let img := draw_ellipse
               (toe_x, toe_y, toe_x + toe_width, toe_y + toe_height)%Z
               BOOT_COLOR img in
  (* Small connecting pixels *)
  for_each (range (start_y + 3) (start_y + boot_height - 2))
    (fun y img =>
       let width :=
         (if y >? start_y + boot_height - heel_height then 5
          else if y >? start_y + boot_height - heel_height - arch_height + 1
               then 3
               else if y >? start_y + 6 then 4 else 6)%Z in
       let x_start := (cx - width / 2)%Z in
       let x_end := (cx + width / 2)%Z in
       for_each (range x_start (x_end + 1))
         (fun x img =>
            if ((0 <=? x) && (x <? CANVAS_WIDTH)
                && (0 <=? y) && (y <? CANVAS_HEIGHT))%Z
            then putpixel (x, y) BOOT_COLOR img
            else Ok img)
         img)
    img.

Definition output_dir : string :=
  "/tmp/gh-issue-solver-1769321361944/assets/sprites/effects".
Definition left_path : string := output_dir ++ "/boot_print_left.png".
Definition right_path : string := output_dir ++ "/boot_print_right.png".

(** [main()], lines 105-121 (console output left out). *)
Definition main {FM : PyFloat} {RM : PyRandom} : M unit :=
  (left_boot <- lift (create_boot_print true) ;;
   right_boot <- lift (create_boot_print false) ;;
   Image_save left_boot left_path ;;;
   Image_save right_boot right_path)%M.
End Script.
End Rounded.

(** * Reasoning about the passes *)

(** ** Ranges and loops *)

Lemma in_range_step (start stop step x : Z) :
  (0 < step)%Z ->
  In x (range_step start stop step) <->
  (start <= x < stop /\ (x - start) mod step = 0)%Z.
Proof.
  intros Hs. unfold range_step. rewrite in_map_iff. split.
  - intros [i [Hx Hi]]. apply in_seq in Hi. subst x.
    destruct (Z_lt_le_dec start stop) as [Hlt|Hge].
    + assert (Hq : (Z.of_nat i < (stop - start + step - 1) / step)%Z).
      { assert (0 <= (stop - start + step - 1) / step)%Z
          by (apply Z.div_pos; lia). lia. }
      assert (Hm : (step * Z.of_nat i <= stop - start - 1)%Z).
      { assert (step * ((stop - start + step - 1) / step)
                <= stop - start + step - 1)%Z
          by (apply Z.mul_div_le; lia). nia. }
      split; [lia|].
      replace (start + step * Z.of_nat i - start)%Z with (Z.of_nat i * step)%Z
        by ring.
      apply Z.mod_mul. lia.
    + assert ((stop - start + step - 1) / step <= 0)%Z.
      { assert ((stop - start + step - 1) / step < 1)%Z
          by (apply Z.div_lt_upper_bound; lia). lia. }
      lia.
  - intros [[Hlo Hhi] Hmod].
    apply Z.mod_divide in Hmod; [|lia]. destruct Hmod as [q Hq].
    assert (Hq0 : (0 <= q)%Z) by nia.
    exists (Z.to_nat q). split; [rewrite Z2Nat.id by lia; lia|].
    apply in_seq. split; [lia|]. simpl.
    assert (Hd : (q + 1 <= (stop - start + step - 1) / step)%Z)
      by (apply Z.div_le_lower_bound; [lia|nia]).
    apply Z2Nat.inj_lt; lia.
Qed.

Lemma in_range (start stop x : Z) :
  In x (range start stop) <-> (start <= x < stop)%Z.
Proof.
  unfold range. rewrite in_range_step by lia.
  rewrite Z.mod_1_r. intuition lia.
Qed.

(** A loop whose every iteration returns and keeps [P] returns with [P]. *)
Lemma for_each_inv {A S : Type} (P : S -> Prop) (xs : list A)
      (body : A -> S -> result S) :
  (forall x s, In x xs -> P s -> exists s', body x s = Ok s' /\ P s') ->
  forall s, P s -> exists s', for_each xs body s = Ok s' /\ P s'.
Proof.
  induction xs as [|x xs IH]; intros Hbody s Hs; simpl.
  - eauto.
  - destruct (Hbody x s (or_introl eq_refl) Hs) as [s1 [E1 P1]].
    rewrite E1. simpl. apply IH; [|exact P1].
    intros y t Hy. apply Hbody. right. exact Hy.
Qed.

(** ** Painting: loops that store one colour *)

Definition same_size (img img' : Image) : Prop :=
  im_width img' = im_width img /\ im_height img' = im_height img.

Definition has_size (width height : Z) (img : Image) : Prop :=
  im_width img = width /\ im_height img = height.

(** [img'] is [img] with the texels of [W] set to [v]. *)
Definition paints (v : Pixel) (W : Z -> Z -> Prop) (img img' : Image) : Prop :=
  same_size img img' /\
  forall x y, (W x y /\ im_px img' x y = v) \/
              (~ W x y /\ im_px img' x y = im_px img x y).

Lemma paints_ext v (W W' : Z -> Z -> Prop) img img' :
  (forall x y, W x y <-> W' x y) -> paints v W img img' -> paints v W' img img'.
Proof.
  intros E [Hs Hp]. split; [exact Hs|]. intros x y.
  destruct (Hp x y) as [[Hw Hv]|[Hw Hv]]; [left|right]; split; auto;
    rewrite <- E; auto.
Qed.

Lemma paints_nothing v img : paints v (fun _ _ => False) img img.
Proof. split; [split; reflexivity|]. intros x y. right. tauto. Qed.

Lemma paints_then v (W1 W2 : Z -> Z -> Prop) img0 img1 img2 :
  paints v W1 img0 img1 -> paints v W2 img1 img2 ->
  paints v (fun x y => W1 x y \/ W2 x y) img0 img2.
Proof.
  intros [[Sw1 Sh1] P1] [[Sw2 Sh2] P2]. split.
  - split; congruence.
  - intros x y.
    destruct (P2 x y) as [[H2 E2]|[H2 E2]]; [left; tauto|].
    destruct (P1 x y) as [[H1 E1]|[H1 E1]]; [left|right];
      (split; [tauto|congruence]).
Qed.

Lemma putpixel_paints (x y : Z) (v : Pixel) (img : Image) :
  in_bounds img x y = true ->
  exists img', putpixel (x, y) v img = Ok img' /\
               paints v (fun x' y' => x' = x /\ y' = y) img img'.
Proof.
  intros Hb. unfold putpixel. rewrite Hb. eexists. split; [reflexivity|].
  split; [split; reflexivity|]. intros x' y'. simpl.
  destruct (Z.eqb_spec x' x), (Z.eqb_spec y' y); simpl;
    first [left; split; [split; assumption|reflexivity]
          |right; split; [intros [? ?]; contradiction|reflexivity]].
Qed.

Lemma in_bounds_iff (img : Image) (x y : Z) :
  in_bounds img x y = true <->
  (0 <= x < im_width img /\ 0 <= y < im_height img)%Z.
Proof.
  unfold in_bounds. rewrite !andb_true_iff.
  rewrite !Z.leb_le, !Z.ltb_lt. tauto.
Qed.

(** A loop of painters paints the union of their write sets. *)
Lemma for_each_paints {A : Type} (width height : Z) (v : Pixel)
      (W : A -> Z -> Z -> Prop) (xs : list A) (body : A -> Image -> result Image) :
  (forall a img, In a xs -> has_size width height img ->
                 exists img', body a img = Ok img' /\ paints v (W a) img img') ->
  forall img, has_size width height img ->
  exists img', for_each xs body img = Ok img' /\
               paints v (fun x y => exists a, In a xs /\ W a x y) img img'.
Proof.
  induction xs as [|a xs IH]; intros Hbody img Hsz; simpl.
  - exists img. split; [reflexivity|].
    apply paints_ext with (W := fun _ _ => False);
      [|apply paints_nothing].
    intros x y. split; [tauto|]. intros [a [[] _]].
  - destruct (Hbody a img (or_introl eq_refl) Hsz) as [img1 [E1 P1]].
    rewrite E1. simpl.
    assert (Hsz1 : has_size width height img1).
    { destruct P1 as [[Hw Hh] _]. destruct Hsz. split; congruence. }
    destruct (IH (fun b i Hb => Hbody b i (or_intror Hb)) img1 Hsz1)
      as [img2 [E2 P2]].
    exists img2. split; [exact E2|].
    eapply paints_ext; [|exact (paints_then P1 P2)].
    intros x y. split.
    + intros [H|[b [Hb H]]]; [exists a|exists b]; simpl; auto.
    + intros [b [[Hb|Hb] H]]; [subst b; left; exact H|right; exists b; auto].
Qed.

(** One horizontal span of a row: [for x in range(x_left, x_right + 1)]. *)
Lemma span_paints (width height : Z) (v : Pixel) (x_left x_right y : Z)
      (img : Image) :
  has_size width height img ->
  (0 <= x_left)%Z -> (x_right < width)%Z -> (0 <= y < height)%Z ->
  exists img',
    for_each (range x_left (x_right + 1))
             (fun x img => putpixel (x, y) v img) img = Ok img' /\
    paints v (fun x' y' => (x_left <= x' <= x_right)%Z /\ y' = y) img img'.
Proof.
  intros Hsz Hl Hr Hy.
  destruct (@for_each_paints Z width height v
              (fun x x' y' => x' = x /\ y' = y)
              (range x_left (x_right + 1))
              (fun x img => putpixel (x, y) v img)) with (img := img)
    as [img' [E P]]; [|exact Hsz|].
  - intros x i Hx Hi. apply in_range in Hx.
    apply putpixel_paints. apply in_bounds_iff. destruct Hi as [-> ->]. lia.
  - exists img'. split; [exact E|].
    eapply paints_ext; [|exact P]. intros x' y'. split.
    + intros [x [Hx [-> ->]]]. apply in_range in Hx. split; [lia|reflexivity].
    + intros [Hx ->]. exists x'. split; [apply in_range; lia|auto].
Qed.

(** ** What the first two passes write *)

Module PassFacts.
Import BootPrint.
Section Writes.
Context {FM : PyFloat}.
Variables width height : Z.

(** Every row of the sole gets a half-width (no exception). *)
Definition rows_ok : Prop :=
  forall y, exists a, actual_half width height y = Ok a.

(** The texels the first pass stores [blood_main] into. *)
Definition pass1_writes (x y : Z) : Prop :=
  In y (range sole_top (sole_bottom height)) /\
  exists a, actual_half width height y = Ok a /\
            (Z.max 0 (center_x width - a) <= x
             <= Z.min (width - 1) (center_x width + a))%Z.

(** The texels the second pass stores [transparent] into. *)
Definition pass2_writes (x y : Z) : Prop :=
  exists tread_y gap a,
    In tread_y (range_step (sole_top + 3) (sole_bottom height - 3)
                           tread_spacing) /\
    In gap (range 0 tread_gap) /\
    (tread_y + gap < sole_bottom height - 2)%Z /\
    actual_half width height tread_y = Ok a /\
    y = (tread_y + gap)%Z /\
    (Z.max 0 (center_x width - a + 2) <= x
     <= Z.min (width - 1) (center_x width + a - 2))%Z.

Lemma pass1_paints (img : Image) :
  rows_ok -> has_size width height img ->
  exists img', pass1 width height img = Ok img' /\
               paints blood_main pass1_writes img img'.
Proof.
  intros Hrows Hsz. unfold pass1.
  destruct (@for_each_paints Z width height blood_main
    (fun y x' y' =>
       y' = y /\
       exists a, actual_half width height y = Ok a /\
                 (Z.max 0 (center_x width - a) <= x'
                  <= Z.min (width - 1) (center_x width + a))%Z)
    (range sole_top (sole_bottom height))
    (fun y img =>
       actual_half <- actual_half width height y ;;
       let x_left := Z.max 0 (center_x width - actual_half) in
       let x_right := Z.min (width - 1) (center_x width + actual_half) in
       for_each (range x_left (x_right + 1))
                (fun x img => putpixel (x, y) blood_main img) img))
    with (img := img) as [img' [E P]]; [|exact Hsz|].
  - intros y i Hy Hi. apply in_range in Hy.
    unfold sole_top, sole_bottom, margin_y in Hy.
    destruct (Hrows y) as [a Ea]. rewrite Ea. simpl.
    destruct (@span_paints width height blood_main
                (Z.max 0 (center_x width - a))
                (Z.min (width - 1) (center_x width + a)) y i)
      as [i' [Ei Pi]]; try lia; [exact Hi|].
    exists i'. split; [exact Ei|].
    eapply paints_ext; [|exact Pi]. intros x' y'. split.
    + intros [Hx ->]. split; [reflexivity|]. exists a. auto.
    + intros [-> [a' [Ea' Hx]]]. split; [|reflexivity].
      assert (a' = a) by congruence. subst a'. exact Hx.
  - exists img'. split; [exact E|].
    eapply paints_ext; [|exact P]. intros x' y'. unfold pass1_writes. split.
    + intros [y [Hy [-> H]]]. auto.
    + intros [Hy H]. exists y'. auto.
Qed.

(** The inner loop of the second pass, for one tread row. *)
Lemma gap_loop_paints (tread_y a : Z) (img : Image) :
  has_size width height img -> (0 <= tread_y)%Z ->
  exists img',
    for_each (range 0 tread_gap)
      (fun gap img =>
         if (tread_y + gap <? sole_bottom height - 2)%Z then
           for_each (range (Z.max 0 (center_x width - a + 2))
                           (Z.min (width - 1) (center_x width + a - 2) + 1))
             (fun x img => putpixel (x, tread_y + gap)%Z transparent img)
             img
         else Ok img)
      img = Ok img' /\
    paints transparent
      (fun x' y' =>
         exists gap,
           In gap (range 0 tread_gap) /\
           (tread_y + gap < sole_bottom height - 2)%Z /\
           y' = (tread_y + gap)%Z /\
           (Z.max 0 (center_x width - a + 2) <= x'
            <= Z.min (width - 1) (center_x width + a - 2))%Z)
      img img'.
Proof.
  intros Hi Hty.
  apply (@for_each_paints Z width height transparent
    (fun gap x' y' =>
       (tread_y + gap < sole_bottom height - 2)%Z /\
       y' = (tread_y + gap)%Z /\
       (Z.max 0 (center_x width - a + 2) <= x'
        <= Z.min (width - 1) (center_x width + a - 2))%Z)); [|exact Hi].
  intros gap j Hgap Hj. apply in_range in Hgap.
  destruct (Z.ltb_spec (tread_y + gap) (sole_bottom height - 2)) as [Hlt|Hge].
  - unfold sole_bottom, margin_y in Hlt.
    destruct (@span_paints width height transparent
                (Z.max 0 (center_x width - a + 2))
                (Z.min (width - 1) (center_x width + a - 2))
                (tread_y + gap) j)
      as [j' [Ej Pj]]; try lia; [exact Hj|].
    exists j'. split; [exact Ej|].
    eapply paints_ext; [|exact Pj]. intros x' y'.
    unfold sole_bottom, margin_y. tauto.
  - exists j. split; [reflexivity|].
    eapply paints_ext; [|apply paints_nothing].
    intros x' y'. split; [tauto|]. intros [H _]. lia.
Qed.

Lemma pass2_paints (img : Image) :
  rows_ok -> has_size width height img ->
  exists img', pass2 width height img = Ok img' /\
               paints transparent pass2_writes img img'.
Proof.
  intros Hrows Hsz. unfold pass2.
  destruct (@for_each_paints Z width height transparent
    (fun tread_y x' y' =>
       exists gap a,
         In gap (range 0 tread_gap) /\
         (tread_y + gap < sole_bottom height - 2)%Z /\
         actual_half width height tread_y = Ok a /\
         y' = (tread_y + gap)%Z /\
         (Z.max 0 (center_x width - a + 2) <= x'
          <= Z.min (width - 1) (center_x width + a - 2))%Z)
    (range_step (sole_top + 3) (sole_bottom height - 3) tread_spacing)
    (fun tread_y img =>
       actual_half <- actual_half width height tread_y ;;
       let x_left := Z.max 0 (center_x width - actual_half + 2) in
       let x_right := Z.min (width - 1) (center_x width + actual_half - 2) in
       for_each (range 0 tread_gap)
         (fun gap img =>
            if (tread_y + gap <? sole_bottom height - 2)%Z then
              for_each (range x_left (x_right + 1))
                (fun x img => putpixel (x, tread_y + gap)%Z transparent img)
                img
            else Ok img)
         img))
    with (img := img) as [img' [E P]]; [|exact Hsz|].
  - intros tread_y i Hty Hi.
    apply in_range_step in Hty; [|unfold tread_spacing; lia].
    unfold sole_top, sole_bottom, margin_y in Hty.
    destruct (Hrows tread_y) as [a Ea]. rewrite Ea. cbn [bind]. cbv zeta.
    destruct (@gap_loop_paints tread_y a i Hi) as [i' [Ei Pi]]; [lia|].
    exists i'. split; [exact Ei|].
    eapply paints_ext; [|exact Pi]. intros x' y'. split.
    + intros [gap [Hg [Hlt [-> Hx]]]]. exists gap, a. auto.
    + intros [gap [a' [Hg [Hlt [Ea' [-> Hx]]]]]].
      assert (a' = a) by congruence. subst a'. exists gap. auto.
  - exists img'. split; [exact E|].
    eapply paints_ext; [|exact P]. intros x' y'. unfold pass2_writes. split.
    + intros [ty [Hty [gap [a H]]]]. exists ty, gap, a. tauto.
    + intros [ty [gap [a H]]]. exists ty. split; [tauto|]. exists gap, a. tauto.
Qed.
End Writes.
End PassFacts.

(** ** The third pass only recolours filled texels *)

(** [img'] is [img] with some texels of nonzero alpha turned to [blood_edge]. *)
Definition shades (img img' : Image) : Prop :=
  same_size img img' /\
  forall x y, im_px img' x y = im_px img x y \/
              ((0 < alpha (im_px img x y))%Z /\
               im_px img' x y = BootPrint.blood_edge).

Lemma shades_refl img : shades img img.
Proof. split; [split; reflexivity|]. intros; left; reflexivity. Qed.

Lemma shades_trans a b c : shades a b -> shades b c -> shades a c.
Proof.
  intros [[Sw1 Sh1] H1] [[Sw2 Sh2] H2]. split; [split; congruence|].
  intros x y. destruct (H2 x y) as [E2|[A2 E2]].
  - rewrite E2. apply H1.
  - destruct (H1 x y) as [E1|[A1 E1]].
    + right. rewrite <- E1. auto.
    + right. auto.
Qed.

Lemma darken_shades (width height x y : Z) (img : Image) :
  in_bounds img x y = true ->
  exists img', BootPrint.darken (x, y) img = Ok img' /\ shades img img'.
Proof.
  intros Hb. unfold BootPrint.darken, getpixel. rewrite Hb. simpl.
  destruct (Z.gtb_spec (alpha (im_px img x y)) 0) as [Hpos|Hno].
  - unfold putpixel. rewrite Hb. eexists. split; [reflexivity|].
    split; [split; reflexivity|]. intros x' y'. simpl.
    destruct (Z.eqb_spec x' x), (Z.eqb_spec y' y); simpl; auto.
    subst. right. split; [lia|reflexivity].
  - exists img. split; [reflexivity|apply shades_refl].
Qed.

Module Pass3Facts.
Import BootPrint PassFacts.
Section Shade.
Context {FM : PyFloat}.
Variables width height : Z.

(** The inner loop of the third pass, for one row. *)
Lemma edge_loop_shades (y a : Z) (img : Image) :
  has_size width height img -> (0 <= y < height)%Z ->
  exists img',
    for_each (range 0 2)
      (fun edge_offset img =>
         img <- (if (Z.max 0 (center_x width - a) + edge_offset <? width)%Z
                 then darken (Z.max 0 (center_x width - a) + edge_offset, y)%Z
                             img
                 else Ok img) ;;
         if (Z.min (width - 1) (center_x width + a) - edge_offset >=? 0)%Z
         then darken (Z.min (width - 1) (center_x width + a) - edge_offset, y)%Z
                     img
         else Ok img)
      img = Ok img' /\
    has_size width height img' /\ shades img img'.
Proof.
  intros Hsz Hy.
  apply for_each_inv with (P := fun s => has_size width height s /\ shades img s);
    [|split; [exact Hsz|apply shades_refl]].
  intros off t Hoff [Ht Sht]. apply in_range in Hoff.
  assert (Step : forall (c : bool) (xx : Z) (u : Image),
             has_size width height u -> shades img u ->
             (c = true -> (0 <= xx < width)%Z) ->
             exists u', (if c then darken (xx, y) u else Ok u) = Ok u' /\
                        has_size width height u' /\ shades img u').
  { intros c xx u Hu Shu Hc. destruct c.
    - destruct (@darken_shades width height xx y u) as [u' [Eu Su]].
      + apply in_bounds_iff. destruct Hu as [-> ->]. specialize (Hc eq_refl). lia.
      + exists u'. split; [exact Eu|]. split.
        * destruct Su as [[? ?] _]. destruct Hu. split; congruence.
        * eapply shades_trans; eauto.
    - exists u. auto. }
  destruct (Step (Z.max 0 (center_x width - a) + off <? width)%Z
                 (Z.max 0 (center_x width - a) + off)%Z t Ht Sht)
    as [t1 [E1 [Ht1 St1]]].
  { intros Hc. apply Z.ltb_lt in Hc. lia. }
  rewrite E1. cbn [bind].
  apply Step; auto.
  intros Hc. apply Z.geb_le in Hc. lia.
Qed.

Lemma pass3_shades (img : Image) :
  rows_ok width height -> has_size width height img ->
  exists img', pass3 width height img = Ok img' /\ shades img img'.
Proof.
  intros Hrows Hsz. unfold pass3.
  destruct (@for_each_inv Z Image
              (fun s => has_size width height s /\ shades img s)
              (range sole_top (sole_bottom height))
              (fun y img =>
         actual_half <- actual_half width height y ;;
         let x_left := Z.max 0 (center_x width - actual_half) in
         let x_right := Z.min (width - 1) (center_x width + actual_half) in
         for_each (range 0 2)
           (fun edge_offset img =>
              img <- (if (x_left + edge_offset <? width)%Z
                      then darken (x_left + edge_offset, y)%Z img
                      else Ok img) ;;
              if (x_right - edge_offset >=? 0)%Z
              then darken (x_right - edge_offset, y)%Z img
              else Ok img)
           img)) with (s := img) as [img' [E [_ P]]].
  - intros y s Hy [Hs Sh]. apply in_range in Hy.
    unfold sole_top, sole_bottom, margin_y in Hy.
    destruct (Hrows y) as [a Ea]. rewrite Ea. cbn [bind]. cbv zeta.
    destruct (@edge_loop_shades y a s Hs) as [s' [Es [Hs' Sh']]]; [lia|].
    exists s'. split; [exact Es|]. split; [exact Hs'|].
    eapply shades_trans; eauto.
  - split; [exact Hsz|apply shades_refl].
  - exists img'. auto.
Qed.
End Shade.
End Pass3Facts.

(** ** Computations that touch only the generator *)

Section RngOnly.
Context {FM : PyFloat} {RM : PyRandom}.

(** The outcome and the next generator state depend on the generator state
    alone; files, permissions and the allocation record are left as found. *)
Definition rng_only {A : Type} (m : M A) : Prop :=
  forall g, exists r g', forall f wr b,
    m (mkWorld g f wr b) = (r, mkWorld g' f wr b).

Lemma rng_only_ret {A : Type} (a : A) : rng_only (ret a).
Proof. intros g. exists (Ok a), g. reflexivity. Qed.

Lemma rng_only_raise {A : Type} (e : exn) : rng_only (@raise _ _ A e).
Proof. intros g. exists (Raise e), g. reflexivity. Qed.

Lemma rng_only_lift {A : Type} (r : result A) : rng_only (lift r).
Proof. intros g. exists r, g. reflexivity. Qed.

Lemma rng_only_draw {A : Type} (d : rng -> A * rng) : rng_only (draw d).
Proof.
  intros g. exists (Ok (fst (d g))), (snd (d g)). intros f wr b.
  unfold draw. simpl. destruct (d g). reflexivity.
Qed.

Lemma rng_only_randint (a b : Z) : rng_only (random_randint a b).
Proof.
  unfold random_randint. destruct (b <? a)%Z;
    [apply rng_only_raise|apply rng_only_draw].
Qed.

Lemma rng_only_bind {A B : Type} (m : M A) (k : A -> M B) :
  rng_only m -> (forall a, rng_only (k a)) -> rng_only (mbind m k).
Proof.
  intros Hm Hk g. destruct (Hm g) as [r [g1 E1]]. destruct r as [a|e].
  - destruct (Hk a g1) as [r2 [g2 E2]]. exists r2, g2. intros f wr b.
    unfold mbind. rewrite E1. apply E2.
  - exists (Raise e), g1. intros f wr b. unfold mbind. rewrite E1. reflexivity.
Qed.

Lemma rng_only_for_eachM {A S : Type} (xs : list A) (body : A -> S -> M S) :
  (forall x s, rng_only (body x s)) -> forall s, rng_only (for_eachM xs body s).
Proof.
  intros Hb. induction xs as [|x xs IH]; intros s; simpl.
  - apply rng_only_ret.
  - apply rng_only_bind; auto.
Qed.

(** A loop in [M] whose every iteration returns and keeps [P]. *)
Lemma for_eachM_inv {A S : Type} (P : S -> Prop) (xs : list A)
      (body : A -> S -> M S) :
  (forall x s w, In x xs -> P s ->
                 exists s' w', body x s w = (Ok s', w') /\ P s') ->
  forall s w, P s ->
              exists s' w', for_eachM xs body s w = (Ok s', w') /\ P s'.
Proof.
  induction xs as [|x xs IH]; intros Hbody s w Hs; simpl.
  - exists s, w. auto.
  - destruct (Hbody x s w (or_introl eq_refl) Hs) as [s1 [w1 [E1 P1]]].
    unfold mbind. rewrite E1. apply IH; [|exact P1].
    intros y t u Hy. apply Hbody. right. exact Hy.
Qed.
End RngOnly.

(** ** The fourth pass only fills empty texels *)

(** [img'] is [img] with some texels of alpha 0, inside the buffer, turned to
    the droplet colour. *)
Definition splatters (img img' : Image) : Prop :=
  same_size img img' /\
  forall x y, im_px img' x y = im_px img x y \/
              (alpha (im_px img x y) = 0%Z /\ in_bounds img x y = true /\
               im_px img' x y = BootPrint.droplet).

Lemma splatters_refl img : splatters img img.
Proof. split; [split; reflexivity|]. intros; left; reflexivity. Qed.

Lemma splatters_trans a b c : splatters a b -> splatters b c -> splatters a c.
Proof.
  intros [[Sw1 Sh1] H1] [[Sw2 Sh2] H2]. split; [split; congruence|].
  intros x y. destruct (H2 x y) as [E2|[A2 [B2 E2]]].
  - rewrite E2. apply H1.
  - destruct (H1 x y) as [E1|[A1 [B1 E1]]].
    + right. rewrite <- E1. repeat split; auto.
      unfold in_bounds in *. rewrite <- Sw1, <- Sh1. exact B2.
    + rewrite E1 in A2. discriminate A2.
Qed.

Module Pass4Facts.
Import BootPrint PassFacts Generate.
Section Splatter.
Context {FM : PyFloat} {RM : PyRandom}.
Variables width height : Z.

Lemma pass4_rng_only (img : Image) : rng_only (pass4 width height img).
Proof.
  unfold pass4. apply rng_only_for_eachM. intros _ s.
  apply rng_only_bind; [apply rng_only_draw|intros angle].
  apply rng_only_bind; [apply rng_only_draw|intros dist].
  apply rng_only_bind; [apply rng_only_randint|intros base_y].
  apply rng_only_bind; [apply rng_only_lift|intros a].
  apply rng_only_bind; [apply rng_only_draw|intros r].
  apply rng_only_bind; [apply rng_only_lift|intros splat_x].
  apply rng_only_bind; [apply rng_only_lift|intros splat_y].
  match goal with |- rng_only (if ?c then _ else _) => destruct c end;
    [|apply rng_only_ret].
  apply rng_only_bind; [apply rng_only_lift|intros current].
  match goal with |- rng_only (if ?c then _ else _) => destruct c end;
    [apply rng_only_lift|apply rng_only_ret].
Qed.

End Splatter.

(** Over the reals, where [int()] always has a value, the pass returns on
    every canvas with a row between its margins. *)
Section RealSplatter.
Context {RM : @PyRandom real}.
Variables width height : Z.

Lemma pass4_splatters (img : Image) (w : World) :
  @rows_ok real width height -> (7 <= height)%Z ->
  has_size width height img ->
  exists img' w', pass4 width height img w = (Ok img', w') /\
                  splatters img img'.
Proof.
  intros Hrows Hh Hsz. pose proof real_int as Hints. unfold pass4.
  destruct (@for_eachM_inv _ _ Z Image
              (fun s => has_size width height s /\ splatters img s)
              (range 0 15)) with
    (body := fun (_ : Z) (img : Image) =>
       (angle <- random_uniform (of_int 0) (of_int 2 * math_pi)%pyf ;;
        dist <- random_uniform (of_int 0) (of_int 4) ;;
        base_y <- random_randint sole_top (sole_bottom height - 1) ;;
        actual_half <- lift (actual_half width height base_y) ;;
        r <- random_random ;;
        let edge_x := if (lit 0.5 <? r)%pyf
                      then (center_x width - actual_half)%Z
                      else (center_x width + actual_half)%Z in
        splat_x <- lift (py_int (of_int edge_x + dist * math_cos angle)%pyf) ;;
        splat_y <- lift (py_int (of_int base_y + dist * math_sin angle)%pyf) ;;
        if ((0 <=? splat_x) && (splat_x <? width)
            && (0 <=? splat_y) && (splat_y <? height))%Z
        then
          current <- lift (getpixel img (splat_x, splat_y)) ;;
          if (alpha current =? 0)%Z
          then lift (putpixel (splat_x, splat_y) droplet img)
          else ret img
        else ret img)%M) (s := img) (w := w) as [img' [w' [E [_ P]]]].
  - intros _ s u _ [Hs Sp].
    unfold mbind at 1, random_uniform at 1, draw at 1.
    destruct (gen_uniform (of_int 0) (of_int 2 * math_pi)%pyf (w_rng u))
      as [angle g1].
    unfold mbind at 1, random_uniform at 1, draw at 1. cbn [w_rng].
    destruct (gen_uniform (of_int 0) (of_int 4) g1) as [dist g2].
    unfold mbind at 1, random_randint.
    assert (Hr : (sole_bottom height - 1 <? sole_top)%Z = false).
    { apply Z.ltb_ge. unfold sole_bottom, sole_top, margin_y. lia. }
    rewrite Hr. unfold draw at 1. cbn [w_rng].
    destruct (gen_randint sole_top (sole_bottom height - 1) g2) as [base_y g3].
    unfold mbind at 1, lift at 1.
    destruct (Hrows base_y) as [a Ea]. rewrite Ea.
    unfold mbind at 1, random_random, draw. cbn [w_rng].
    destruct (gen_random g3) as [r g4].
    cbv zeta. unfold py_int.
    match goal with |- context [to_int ?e] => destruct (Hints e) as [sx Esx] end.
    unfold mbind at 1, lift at 1. rewrite Esx.
    match goal with |- context [to_int ?e] => destruct (Hints e) as [sy Esy] end.
    unfold mbind at 1, lift at 1. rewrite Esy.
    destruct ((0 <=? sx) && (sx <? width) && (0 <=? sy) && (sy <? height))%Z
      eqn:Hin.
    + assert (Hb : in_bounds s sx sy = true).
      { unfold in_bounds. destruct Hs as [-> ->]. exact Hin. }
      unfold mbind, lift, getpixel. rewrite Hb.
      destruct (Z.eqb_spec (alpha (im_px s sx sy)) 0) as [Hz|Hnz].
      * unfold putpixel. rewrite Hb. do 2 eexists. split; [reflexivity|].
        split; [exact Hs|].
        eapply splatters_trans; [exact Sp|].
        split; [split; reflexivity|]. intros x y. simpl.
        destruct (Z.eqb_spec x sx), (Z.eqb_spec y sy); simpl; auto.
        subst. right. auto.
      * unfold ret. do 2 eexists. split; [reflexivity|]. split; assumption.
    + unfold ret. do 2 eexists. split; [reflexivity|]. split; assumption.
  - split; [exact Hsz|apply splatters_refl].
  - exists img', w'. auto.
Qed.
End RealSplatter.
End Pass4Facts.

(** ** A whole run of [create_boot_print] *)

Module RunFacts.
Import BootPrint PassFacts Pass3Facts Pass4Facts Generate.
Section Run.
Context {RM : @PyRandom real}.
Variables width height : Z.
Hypothesis rows : @rows_ok real width height.
Hypothesis width_ok : (1 <= width)%Z.
Hypothesis height_ok : (7 <= height)%Z.

(** The world a call leaves: one more buffer, the generator advanced from
    its seeded state, and the image stored when the path is writable. *)
Definition world_after (g' : rng) (path : string) (img : Image) (w : World)
  : result Image * World :=
  if w_writable w path then
    (Ok img,
     mkWorld g' (fun p => if String.eqb p path then Some img else w_files w p)
             (w_writable w) ((width, height) :: w_buffers w))
  else
    (Raise OSError,
     mkWorld g' (w_files w) (w_writable w) ((width, height) :: w_buffers w)).

Lemma create_boot_print_runs :
  exists img1 img2 img3 img4 g',
    pass1 width height (blank width height (0, 0, 0, 0)%Z) = Ok img1 /\
    paints blood_main (pass1_writes width height)
           (blank width height (0, 0, 0, 0)%Z) img1 /\
    pass2 width height img1 = Ok img2 /\
    paints transparent (pass2_writes width height) img1 img2 /\
    pass3 width height img2 = Ok img3 /\
    shades img2 img3 /\
    (forall f wr b,
        pass4 width height img3 (mkWorld (seeded 42) f wr b)
        = (Ok img4, mkWorld g' f wr b)) /\
    splatters img3 img4 /\
    forall path w,
      create_boot_print width height path w = world_after g' path img4 w.
Proof.
  set (img0 := blank width height (0, 0, 0, 0)%Z).
  assert (S0 : has_size width height img0) by (split; reflexivity).
  destruct (pass1_paints rows S0) as [img1 [E1 P1]].
  assert (S1 : has_size width height img1).
  { destruct P1 as [[? ?] _]. destruct S0. split; congruence. }
  destruct (pass2_paints rows S1) as [img2 [E2 P2]].
  assert (S2 : has_size width height img2).
  { destruct P2 as [[? ?] _]. destruct S1. split; congruence. }
  destruct (pass3_shades rows S2) as [img3 [E3 P3]].
  assert (S3 : has_size width height img3).
  { destruct P3 as [[? ?] _]. destruct S2. split; congruence. }
  destruct (pass4_rng_only width height img3 (seeded 42)) as [r [g' E4]].
  destruct (pass4_splatters (mkWorld (seeded 42) (fun _ => None)
                                     (fun _ => true) [])
                            rows height_ok S3)
    as [img4 [w4 [E4' P4]]].
  rewrite E4 in E4'. injection E4' as -> _.
  assert (N4 : is_empty img4 = false).
  { destruct P4 as [[Sw Sh] _]. destruct S3 as [Hw3 Hh3]. unfold is_empty.
    rewrite Sw, Sh, Hw3, Hh3. apply orb_false_iff.
    split; apply Z.leb_gt; lia. }
  exists img1, img2, img3, img4, g'.
  repeat (split; [assumption|]).
  intros path [g f wr b]. unfold create_boot_print, world_after.
  unfold mbind at 1, Image_new.
  replace ((width <? 0) || (height <? 0))%Z with false
    by (symmetry; apply orb_false_iff; split; apply Z.ltb_ge; lia).
  cbn [w_rng w_files w_writable w_buffers].
  fold img0. unfold mbind at 1, lift at 1. rewrite E1.
  unfold mbind at 1, lift at 1. rewrite E2.
  unfold mbind at 1, lift at 1. rewrite E3.
  unfold mbind at 1, random_seed at 1.
  cbn [w_rng w_files w_writable w_buffers].
  unfold mbind at 1. rewrite E4.
  unfold mbind, Image_save, ret. cbn [w_rng w_files w_writable w_buffers].
  rewrite N4. destruct (wr path); reflexivity.
Qed.
End Run.
End RunFacts.

(** * The profile over the reals *)

Module RealProfile.
Local Open Scope R_scope.

(** [get_width_factor] on the real instance, literals evaluated. *)
Lemma get_width_factor_real (r : R) :
  @get_width_factor real r =
  if Rlt_dec r 0.30 then 0.90 + 0.10 * cos (r / 0.30 * PI / 2)
  else if Rlt_dec r 0.50 then 0.90 - 0.25 * ((r - 0.30) / 0.20)
  else if Rlt_dec r 0.60 then 0.65
  else 0.65 + 0.30 * ((r - 0.60) / 0.40).
Proof.
  unfold get_width_factor. cbn [flt fadd fsub fmul fdiv lit math_cos math_pi of_int real].
  unfold Q2R. cbn [Qnum Qden].
  replace (30 * / 100) with 0.30 by lra.
  replace (50 * / 100) with 0.50 by lra.
  replace (60 * / 100) with 0.60 by lra.
  replace (90 * / 100) with 0.90 by lra.
  replace (10 * / 100) with 0.10 by lra.
  replace (20 * / 100) with 0.20 by lra.
  replace (25 * / 100) with 0.25 by lra.
  replace (65 * / 100) with 0.65 by lra.
  replace (40 * / 100) with 0.40 by lra.
  destruct (Rlt_dec r 0.30); [reflexivity|].
  destruct (Rlt_dec r 0.50); [reflexivity|].
  destruct (Rlt_dec r 0.60); reflexivity.
Qed.
Lemma toe_arg_range r :
  0 <= r -> r <= 0.30 -> 0 <= r / 0.30 * PI / 2 <= PI / 2.
Proof.
  intros H0 H1. pose proof PI_RGT_0 as Hpi.
  assert (0 <= r / 0.30 <= 1) by (split; [apply Rmult_le_pos; lra|lra]).
  nra.
Qed.

Lemma toe_cos_nonneg r :
  0 <= r -> r <= 0.30 -> 0 <= cos (r / 0.30 * PI / 2) <= 1.
Proof.
  intros H0 H1. pose proof (toe_arg_range H0 H1) as [Ha Hb].
  split.
  - apply cos_ge_0; lra.
  - apply COS_bound.
Qed.

Lemma toe_formula_continuous :
  continuity_pt (fun x => 0.90 + 0.10 * cos (x / 0.30 * PI / 2)) 0.30.
Proof. reg. Qed.
End RealProfile.

(** * Rows of the canvas over the reals *)

Module RealRows.
Import RealProfile BootPrint PassFacts Pass4Facts.
Local Open Scope R_scope.

Lemma Rtrunc_bounds (x : R) (lo hi : Z) :
  (0 <= lo)%Z -> IZR lo <= x -> x < IZR hi + 1 -> (lo <= Rtrunc x <= hi)%Z.
Proof.
  intros Hlo H1 H2. unfold Rtrunc.
  assert (0 <= IZR lo) by (apply IZR_le; exact Hlo).
  destruct (Rle_dec 0 x) as [_|N]; [|lra].
  destruct (base_Int_part x) as [B1 B2]. split.
  - assert (IZR lo < IZR (Int_part x) + 1) by lra.
    rewrite <- plus_IZR in H0. apply lt_IZR in H0. lia.
  - assert (IZR (Int_part x) < IZR hi + 1) by lra.
    rewrite <- plus_IZR in H0. apply lt_IZR in H0. lia.
Qed.

Lemma Rtrunc_eq (x : R) (n : Z) :
  (0 <= n)%Z -> IZR n <= x -> x < IZR n + 1 -> Rtrunc x = n.
Proof.
  intros Hn H1 H2. pose proof (@Rtrunc_bounds x n n Hn H1 H2). lia.
Qed.

Lemma real_actual_half (width height y : Z) :
  height <> 6%Z ->
  @actual_half real width height y =
  Ok (Rtrunc (IZR ((width - 3 - 3) / 2)
              * @get_width_factor real (IZR (y - 3) / IZR (height - 3 - 3)))).
Proof.
  intros Hh. unfold actual_half, truediv, sole_height, sole_bottom, sole_top,
               sole_right, sole_left, margin_x, margin_y.
  destruct (Z.eqb_spec (height - 3 - 3) 0) as [E|_]; [lia|].
  reflexivity.
Qed.

Lemma real_rows_ok (width height : Z) :
  height <> 6%Z -> @rows_ok real width height.
Proof.
  intros Hh y. rewrite real_actual_half by exact Hh. eexists. reflexivity.
Qed.

(** Half-widths of the rows 3..44 of the 32 x 48 canvas. *)
Definition half_table (y : Z) : Z :=
  if (y =? 3)%Z then 13 else if (y <=? 13)%Z then 12
  else if (y <=? 17)%Z then 11 else if (y <=? 19)%Z then 10
  else if (y <=? 22)%Z then 9 else if (y <=? 30)%Z then 8
  else if (y <=? 34)%Z then 9 else if (y <=? 39)%Z then 10
  else if (y <=? 43)%Z then 11 else 12.

Ltac band_value :=
  rewrite get_width_factor_real;
  repeat match goal with
         | |- context [Rlt_dec ?a ?b] => destruct (Rlt_dec a b); try lra
         end.

Lemma lower_rows (y : Z) :
  (16 <= y <= 44)%Z -> @actual_half real 32 48 y = Ok (half_table y).
Proof.
  intros Hy. rewrite real_actual_half by lia. f_equal.
  change ((32 - 3 - 3) / 2)%Z with 13%Z. change (48 - 3 - 3)%Z with 42%Z.
  assert (Hcases : (y = 16 \/ y = 17 \/ y = 18 \/ y = 19 \/ y = 20 \/
                    y = 21 \/ y = 22 \/ y = 23 \/ y = 24 \/ y = 25 \/
                    y = 26 \/ y = 27 \/ y = 28 \/ y = 29 \/ y = 30 \/
                    y = 31 \/ y = 32 \/ y = 33 \/ y = 34 \/ y = 35 \/
                    y = 36 \/ y = 37 \/ y = 38 \/ y = 39 \/ y = 40 \/
                    y = 41 \/ y = 42 \/ y = 43 \/ y = 44)%Z) by lia.
  repeat (destruct Hcases as [->|Hcases]; [|try subst y]);
    match goal with
    | |- Rtrunc (_ * _ (IZR ?d / _)) = half_table ?v =>
        let d' := eval vm_compute in d in
        let t := eval vm_compute in (half_table v) in
        change d with d'; change (half_table v) with t
    end;
    (apply Rtrunc_eq; [lia| |]; band_value).
Qed.

(** Taylor bounds of the cosine, for arguments in [-2, 2]. *)
Lemma cos_upper (a : R) :
  -2 <= a <= 2 -> cos a <= 1 - a * a / 2 + a * a * a * a / 24.
Proof.
  intros [H1 H2]. destruct (pre_cos_bound a 0 H1 H2) as [_ U].
  unfold cos_approx, cos_term in U. simpl in U. lra.
Qed.

Lemma cos_lower (a : R) :
  -2 <= a <= 2 ->
  1 - a * a / 2 + a * a * a * a / 24 - a * a * a * a * a * a / 720 <= cos a.
Proof.
  intros [H1 H2]. destruct (pre_cos_bound a 1 H1 H2) as [L _].
  unfold cos_approx, cos_term in L.
  replace (2 * 1 + 1)%nat with 3%nat in L by reflexivity.
  cbn [sum_f_R0] in L.
  rewrite !INR_IZR_INZ in L.
  replace (Z.of_nat (fact (2 * 0))) with 1%Z in L by reflexivity.
  replace (Z.of_nat (fact (2 * 1))) with 2%Z in L by reflexivity.
  replace (Z.of_nat (fact (2 * 2))) with 24%Z in L by reflexivity.
  replace (Z.of_nat (fact (2 * 3))) with 720%Z in L by reflexivity.
  simpl in L. lra.
Qed.

Lemma PI2_above : 1.55 < PI / 2.
Proof.
  apply PI2_lower_bound; [lra|].
  pose proof (@cos_lower 1.55 ltac:(lra)). lra.
Qed.

Lemma PI2_below : PI / 2 < 1.6.
Proof.
  destruct (Rlt_dec (PI / 2) 1.6) as [H|H]; [exact H|exfalso].
  assert (0 <= cos 1.6) by (apply cos_ge_0; lra).
  pose proof (@cos_upper 1.6 ltac:(lra)). lra.
Qed.

(** The toe rows: the cosine taper. *)
Lemma toe_rows (y : Z) :
  (3 <= y <= 15)%Z -> @actual_half real 32 48 y = Ok (half_table y).
Proof.
  intros Hy. rewrite real_actual_half by lia. f_equal.
  change ((32 - 3 - 3) / 2)%Z with 13%Z. change (48 - 3 - 3)%Z with 42%Z.
  assert (Hk : 0 <= IZR (y - 3) <= 12) by (split; apply IZR_le; lia).
  rewrite get_width_factor_real.
  destruct (Rlt_dec (IZR (y - 3) / 42) 0.30) as [_|N]; [|lra].
  pose proof PI2_above as Plo. pose proof PI2_below as Phi.
  set (t := IZR (y - 3) / 42 / 0.30 * PI / 2).
  assert (Ht : t = IZR (y - 3) * (PI / 2) / 12.6) by (unfold t; lra).
  unfold half_table.
  destruct (Z.eqb_spec y 3) as [->|Hne].
  - assert (t = 0) by (rewrite Ht; simpl; lra).
    replace (cos t) with 1 by (rewrite H, cos_0; reflexivity).
    apply Rtrunc_eq; [lia|lra|lra].
  - destruct (Z.leb_spec y 13) as [Hmid|Hend].
    + assert (1 <= IZR (y - 3) <= 10) by (split; apply IZR_le; lia).
      assert (0 < t <= 1.27) by (rewrite Ht; nra).
      assert (cos t < 1).
      { rewrite <- cos_0. apply cos_decreasing_1; lra. }
      assert (cos 1.27 <= cos t) by (apply cos_decr_1; lra).
      pose proof (@cos_lower 1.27 ltac:(lra)).
      apply Rtrunc_eq; [lia|lra|lra].
    + destruct (Z.leb_spec y 17) as [_|Habs]; [|lia].
      assert (11 <= IZR (y - 3) <= 12) by (split; apply IZR_le; lia).
      assert (1.353 <= t <= PI / 2) by (rewrite Ht; nra).
      assert (0 <= cos t) by (apply cos_ge_0; lra).
      assert (cos t <= cos 1.353) by (apply cos_decr_1; lra).
      pose proof (@cos_upper 1.353 ltac:(lra)).
      apply Rtrunc_eq; [lia|lra|lra].
Qed.

(** Every row of the sole of the 32 x 48 canvas. *)
Lemma canvas_rows (y : Z) :
  (3 <= y <= 44)%Z -> @actual_half real 32 48 y = Ok (half_table y).
Proof.
  intros Hy. destruct (Z_le_gt_dec y 15).
  - apply toe_rows. lia.
  - apply lower_rows. lia.
Qed.
End RealRows.

(** ** Counting texels *)

(** The coordinates of a buffer, column by column. *)
Definition texels (img : Image) : list (Z * Z) :=
  list_prod (range 0 (im_width img)) (range 0 (im_height img)).

(** Filled: alpha above zero.  Solid: fully opaque. *)
Definition is_filled (img : Image) (xy : Z * Z) : bool :=
  (alpha (im_px img (fst xy) (snd xy)) >? 0)%Z.

Definition is_solid (img : Image) (xy : Z * Z) : bool :=
  (alpha (im_px img (fst xy) (snd xy)) =? 255)%Z.

Definition filled_count (img : Image) : nat :=
  List.length (filter (is_filled img) (texels img)).

Definition solid_count (img : Image) : nat :=
  List.length (filter (is_solid img) (texels img)).

Lemma in_texels (img : Image) (x y : Z) :
  In (x, y) (texels img) <-> in_bounds img x y = true.
Proof.
  unfold texels. rewrite in_prod_iff, !in_range, in_bounds_iff. tauto.
Qed.

Lemma filter_count_le {A : Type} (p q : A -> bool) (l : list A) :
  (forall a, In a l -> p a = true -> q a = true) ->
  (List.length (filter p l) <= List.length (filter q l))%nat.
Proof.
  induction l as [|a l IH]; intros H; simpl; [lia|].
  assert (IH' := IH (fun b Hb => H b (or_intror Hb))).
  destruct (p a) eqn:Pa.
  - rewrite (H a (or_introl eq_refl) Pa). simpl. lia.
  - destruct (q a); simpl; lia.
Qed.

Lemma filter_count_lt {A : Type} (p q : A -> bool) (l : list A) (a0 : A) :
  (forall a, In a l -> p a = true -> q a = true) ->
  In a0 l -> p a0 = false -> q a0 = true ->
  (List.length (filter p l) < List.length (filter q l))%nat.
Proof.
  induction l as [|a l IH]; intros H Hin P0 Q0; simpl; [destruct Hin|].
  assert (Hle := filter_count_le p q l (fun b Hb => H b (or_intror Hb))).
  destruct Hin as [->|Hin].
  - rewrite P0, Q0. simpl. lia.
  - assert (IH' := IH (fun b Hb => H b (or_intror Hb)) Hin P0 Q0).
    destruct (p a) eqn:Pa.
    + rewrite (H a (or_introl eq_refl) Pa). simpl. lia.
    + destruct (q a); simpl; lia.
Qed.

(** ** A test generator *)

(** A linear congruential generator over the reals' instance, used where a
    statement needs some concrete [random] module. *)
Module TestRandom.
Definition next (s : Z) : Z := ((s * 1103515245 + 12345) mod 2147483648)%Z.

Definition unit_draw (s : Z) : R := (IZR (next s) / 2147483648)%R.

Definition lcg : @PyRandom real := {|
  rng := Z;
  seeded := fun n => n;
  gen_random := fun s => (unit_draw s, next s);
  gen_uniform := fun a b s => ((a + (b - a) * unit_draw s)%R, next s);
  gen_randint := fun a b s => ((a + next s mod (b - a + 1))%Z, next s)
|}.
End TestRandom.

(** ** Outcomes of [create_boot_print] for any arithmetic *)

Module OutcomeFacts.
Import BootPrint PassFacts Pass3Facts Pass4Facts Generate.
Section Outcome.
Context {FM : PyFloat} {RM : PyRandom}.
Variables width height : Z.

(** What a call returns, given what the synthesis (allocation and the four
    passes) produced. *)
Definition returned (synth : result Image) (writable : bool) : result Image :=
  match synth with
  | Ok img =>
      if writable then if is_empty img then Raise ValueError else Ok img
      else Raise OSError
  | Raise e => Raise e
  end.

(** The files a call leaves. *)
Definition stored (synth : result Image) (path : string) (w : World)
  : string -> option Image :=
  match synth with
  | Ok img =>
      if w_writable w path && negb (is_empty img)
      then fun p => if String.eqb p path then Some img else w_files w p
      else w_files w
  | Raise _ => w_files w
  end.

(** The result and the world of a call whose passes produced [img] and left
    the generator in [g']. *)
Definition world_saved (g' : rng) (path : string) (img : Image) (w : World)
  : result Image * World :=
  if w_writable w path then
    if is_empty img then
      (Raise ValueError,
       mkWorld g' (w_files w) (w_writable w) ((width, height) :: w_buffers w))
    else
      (Ok img,
       mkWorld g'
               (fun p => if String.eqb p path then Some img else w_files w p)
               (w_writable w) ((width, height) :: w_buffers w))
  else
    (Raise OSError,
     mkWorld g' (w_files w) (w_writable w) ((width, height) :: w_buffers w)).

(** A call, step by step, for any arithmetic.  Either it fails before
    [random.seed] (in [Image.new] or in one of the first three passes), the
    same way in every world and leaving generator and files alone; or the
    first three passes return, the generator is reseeded, and the fourth pass
    has one outcome [r4] and leaves one generator state [g'], whatever the
    world. *)
Lemma create_boot_print_trace :
  (exists e,
      forall path w,
        fst (create_boot_print width height path w) = Raise e /\
        w_rng (snd (create_boot_print width height path w)) = w_rng w /\
        w_files (snd (create_boot_print width height path w)) = w_files w /\
        w_writable (snd (create_boot_print width height path w))
        = w_writable w) \/
  (exists (i1 i2 i3 : Image) (r4 : result Image) (g' : rng),
      (0 <= width)%Z /\ (0 <= height)%Z /\
      pass1 width height (blank width height (0, 0, 0, 0)%Z) = Ok i1 /\
      pass2 width height i1 = Ok i2 /\
      pass3 width height i2 = Ok i3 /\
      (forall f wr b,
          pass4 width height i3 (mkWorld (seeded 42) f wr b)
          = (r4, mkWorld g' f wr b)) /\
      forall path w,
        create_boot_print width height path w =
        match r4 with
        | Ok i4 => world_saved g' path i4 w
        | Raise e =>
            (Raise e,
             mkWorld g' (w_files w) (w_writable w)
                     ((width, height) :: w_buffers w))
        end).
Proof.
  destruct ((width <? 0) || (height <? 0))%Z eqn:Hneg.
  { left. exists ValueError. intros path [g f wr b].
    assert (E : create_boot_print width height path (mkWorld g f wr b)
                = (Raise ValueError, mkWorld g f wr b)).
    { unfold create_boot_print, mbind at 1, Image_new. rewrite Hneg.
      reflexivity. }
    rewrite E. repeat split. }
  assert (Hdim : (0 <= width)%Z /\ (0 <= height)%Z).
  { apply orb_false_iff in Hneg. destruct Hneg as [H1 H2].
    apply Z.ltb_ge in H1, H2. auto. }
  set (img0 := blank width height (0, 0, 0, 0)%Z).
  destruct (pass1 width height img0) as [img1|e] eqn:E1.
  2:{ left. exists e. intros path [g f wr b].
      assert (E : create_boot_print width height path (mkWorld g f wr b)
                  = (Raise e, mkWorld g f wr ((width, height) :: b))).
      { unfold create_boot_print, mbind at 1, Image_new. rewrite Hneg.
        fold img0. unfold mbind at 1, lift at 1. rewrite E1.
        reflexivity. }
      rewrite E. repeat split. }
  destruct (pass2 width height img1) as [img2|e] eqn:E2.
  2:{ left. exists e. intros path [g f wr b].
      assert (E : create_boot_print width height path (mkWorld g f wr b)
                  = (Raise e, mkWorld g f wr ((width, height) :: b))).
      { unfold create_boot_print, mbind at 1, Image_new. rewrite Hneg.
        fold img0. unfold mbind at 1, lift at 1. rewrite E1.
        unfold mbind at 1, lift at 1. rewrite E2.
        reflexivity. }
      rewrite E. repeat split. }
  destruct (pass3 width height img2) as [img3|e] eqn:E3.
  2:{ left. exists e. intros path [g f wr b].
      assert (E : create_boot_print width height path (mkWorld g f wr b)
                  = (Raise e, mkWorld g f wr ((width, height) :: b))).
      { unfold create_boot_print, mbind at 1, Image_new. rewrite Hneg.
        fold img0. unfold mbind at 1, lift at 1. rewrite E1.
        unfold mbind at 1, lift at 1. rewrite E2.
        unfold mbind at 1, lift at 1. rewrite E3.
        reflexivity. }
      rewrite E. repeat split. }
  destruct (pass4_rng_only width height img3 (seeded 42)) as [r4 [g' E4]].
  right. exists img1, img2, img3, r4, g'.
  split; [apply Hdim|]. split; [apply Hdim|].
  split; [first [exact E1|reflexivity]|].
  split; [first [exact E2|reflexivity]|].
  split; [first [exact E3|reflexivity]|].
  split; [exact E4|].
  intros path [g f wr b].
  unfold create_boot_print, mbind at 1, Image_new. rewrite Hneg.
  fold img0. unfold mbind at 1, lift at 1. rewrite E1.
  unfold mbind at 1, lift at 1. rewrite E2.
  unfold mbind at 1, lift at 1. rewrite E3.
  unfold mbind at 1, random_seed at 1.
  cbn [w_rng w_files w_writable w_buffers].
  unfold mbind at 1. rewrite E4.
  destruct r4 as [img4|e]; [|reflexivity].
  unfold mbind, Image_save, ret, world_saved.
  cbn [w_rng w_files w_writable w_buffers].
  destruct (wr path); [|reflexivity].
  destruct (is_empty img4); reflexivity.
Qed.

(** The synthesis has one outcome, fixed before the world is looked at; the
    world only decides whether the image can be saved. *)
Lemma create_boot_print_outcome :
  exists synth : result Image,
    forall path w, exists w',
      create_boot_print width height path w
      = (returned synth (w_writable w path), w') /\
      w_writable w' = w_writable w /\
      w_files w' = stored synth path w.
Proof.
  destruct create_boot_print_trace
    as [[e H]|[i1 [i2 [i3 [r4 [g' [_ [_ [_ [_ [_ [_ H]]]]]]]]]]]].
  - exists (Raise e). intros path w. destruct (H path w) as [Hr [_ [Hf Hw]]].
    exists (snd (create_boot_print width height path w)).
    split; [|split; [exact Hw|exact Hf]].
    simpl. rewrite <- Hr. apply surjective_pairing.
  - exists r4. intros path w. rewrite H. destruct r4 as [img4|e].
    + unfold world_saved, returned, stored.
      destruct (w_writable w path); [|eexists; repeat split].
      destruct (is_empty img4); eexists; repeat split.
    + eexists. repeat split.
Qed.

Lemma range_step_empty (start stop step : Z) :
  (0 < step)%Z -> (stop <= start)%Z -> range_step start stop step = [].
Proof.
  intros Hs Hle. unfold range_step.
  replace (Z.to_nat ((stop - start + step - 1) / step)) with 0%nat; [reflexivity|].
  assert ((stop - start + step - 1) / step < 1)%Z
    by (apply Z.div_lt_upper_bound; lia).
  lia.
Qed.

(** With no row between the margins the first three passes do nothing and the
    splatter pass stops at its first [randint]. *)
Lemma short_canvas_fails :
  (0 <= width)%Z -> (0 <= height <= 6)%Z ->
  exists g', forall path w,
    create_boot_print width height path w
    = (Raise ValueError,
       mkWorld g' (w_files w) (w_writable w) ((width, height) :: w_buffers w)).
Proof.
  intros Hw Hh.
  destruct (gen_uniform (of_int 0) (of_int 2 * math_pi)%pyf (seeded 42))
    as [angle g1] eqn:D1.
  destruct (gen_uniform (of_int 0) (of_int 4) g1) as [dist g2] eqn:D2.
  exists g2. intros path [g f wr b].
  unfold create_boot_print, mbind at 1, Image_new.
  replace ((width <? 0) || (height <? 0))%Z with false
    by (symmetry; apply orb_false_iff; split; apply Z.ltb_ge; lia).
  cbn [w_rng w_files w_writable w_buffers].
  assert (R1 : range sole_top (sole_bottom height) = []).
  { apply range_step_empty; unfold sole_top, sole_bottom, margin_y; lia. }
  assert (R2 : range_step (sole_top + 3) (sole_bottom height - 3) tread_spacing = []).
  { apply range_step_empty; unfold sole_top, sole_bottom, margin_y, tread_spacing; lia. }
  unfold pass1, pass2, pass3. rewrite R1, R2. cbn [for_each].
  unfold mbind at 1, lift at 1. unfold mbind at 1, lift at 1.
  unfold mbind at 1, lift at 1. unfold mbind at 1, random_seed.
  cbn [w_rng w_files w_writable w_buffers].
  unfold pass4.
  change (range 0 15) with (0 :: range 1 15)%Z.
  cbn [for_eachM].
  unfold mbind at 1. unfold mbind at 1. unfold mbind at 1.
  unfold random_uniform at 1, draw at 1. cbn [w_rng w_files w_writable w_buffers].
  rewrite D1.
  unfold mbind at 1, random_uniform at 1, draw at 1.
  cbn [w_rng w_files w_writable w_buffers]. rewrite D2.
  unfold mbind at 1, random_randint.
  replace (sole_bottom height - 1 <? sole_top)%Z with true
    by (symmetry; apply Z.ltb_lt; unfold sole_top, sole_bottom, margin_y; lia).
  reflexivity.
Qed.
End Outcome.
End OutcomeFacts.

(** ** No access outside the buffer, whatever the arithmetic *)

(** Either the computation returned and [P] holds of what it returned, or it
    raised something else than [IndexError]. *)
Definition in_buffer {A : Type} (P : A -> Prop) (r : result A) : Prop :=
  match r with
  | Ok a => P a
  | Raise e => e <> IndexError
  end.

Lemma for_each_in_buffer {A S : Type} (P : S -> Prop) (xs : list A)
      (body : A -> S -> result S) :
  (forall x s, In x xs -> P s -> in_buffer P (body x s)) ->
  forall s, P s -> in_buffer P (for_each xs body s).
Proof.
  induction xs as [|x xs IH]; intros Hbody s Hs; simpl; [exact Hs|].
  pose proof (Hbody x s (or_introl eq_refl) Hs) as Hx.
  destruct (body x s) as [s1|e]; simpl in *; [|exact Hx].
  apply IH; [|exact Hx]. intros y t Hy. apply Hbody. right. exact Hy.
Qed.

Module BoundsFacts.
Import BootPrint PassFacts Pass3Facts Pass4Facts Generate OutcomeFacts.
Section Bounds.
Context {FM : PyFloat} {RM : PyRandom}.
Variables width height : Z.

Lemma actual_half_in_buffer (y : Z) :
  in_buffer (fun _ => True) (actual_half width height y).
Proof.
  unfold actual_half, truediv.
  destruct (sole_height height =? 0)%Z; simpl; [discriminate|].
  unfold py_int. destruct (to_int _); simpl; [exact I|].
  destruct (is_nan _); discriminate.
Qed.

Lemma pass1_in_buffer (img : Image) :
  has_size width height img ->
  in_buffer (has_size width height) (pass1 width height img).
Proof.
  intros Hsz. unfold pass1. apply for_each_in_buffer; [|exact Hsz].
  intros y s Hy Hs. apply in_range in Hy.
  unfold sole_top, sole_bottom, margin_y in Hy.
  pose proof (actual_half_in_buffer y) as Ha.
  destruct (actual_half width height y) as [a|e]; cbn [bind in_buffer] in *; [|exact Ha].
  cbv zeta.
  destruct (@span_paints width height blood_main
              (Z.max 0 (center_x width - a))
              (Z.min (width - 1) (center_x width + a)) y s)
    as [s' [Es [[Sw Sh] _]]]; try lia; [exact Hs|].
  rewrite Es. cbn [in_buffer]. destruct Hs. split; congruence.
Qed.

Lemma pass2_in_buffer (img : Image) :
  has_size width height img ->
  in_buffer (has_size width height) (pass2 width height img).
Proof.
  intros Hsz. unfold pass2. apply for_each_in_buffer; [|exact Hsz].
  intros ty s Hty Hs.
  apply in_range_step in Hty; [|unfold tread_spacing; lia].
  unfold sole_top, sole_bottom, margin_y in Hty.
  pose proof (actual_half_in_buffer ty) as Ha.
  destruct (actual_half width height ty) as [a|e]; cbn [bind in_buffer] in *; [|exact Ha].
  cbv zeta.
  destruct (@gap_loop_paints width height ty a s Hs)
    as [s' [Es [[Sw Sh] _]]]; [lia|].
  rewrite Es. cbn [in_buffer]. destruct Hs. split; congruence.
Qed.

Lemma pass3_in_buffer (img : Image) :
  has_size width height img ->
  in_buffer (has_size width height) (pass3 width height img).
Proof.
  intros Hsz. unfold pass3. apply for_each_in_buffer; [|exact Hsz].
  intros y s Hy Hs. apply in_range in Hy.
  unfold sole_top, sole_bottom, margin_y in Hy.
  pose proof (actual_half_in_buffer y) as Ha.
  destruct (actual_half width height y) as [a|e]; cbn [bind in_buffer] in *; [|exact Ha].
  cbv zeta.
  destruct (@edge_loop_shades width height y a s Hs) as [s' [Es [Hs' _]]];
    [lia|].
  rewrite Es. exact Hs'.
Qed.

Lemma for_eachM_in_buffer {A S : Type} (P : S -> Prop) (xs : list A)
      (body : A -> S -> M S) :
  (forall x s w, In x xs -> P s -> in_buffer P (fst (body x s w))) ->
  forall s w, P s -> in_buffer P (fst (for_eachM xs body s w)).
Proof.
  induction xs as [|x xs IH]; intros Hbody s w Hs; simpl; [exact Hs|].
  pose proof (Hbody x s w (or_introl eq_refl) Hs) as Hx.
  unfold mbind. destruct (body x s w) as [[s1|e] w1]; simpl in *; [|exact Hx].
  apply IH; [|exact Hx]. intros y t u Hy. apply Hbody. right. exact Hy.
Qed.

Lemma pass4_in_buffer (img : Image) (w : World) :
  has_size width height img ->
  in_buffer (has_size width height) (fst (pass4 width height img w)).
Proof.
  intros Hsz. unfold pass4. apply for_eachM_in_buffer; [|exact Hsz].
  intros _ s u _ Hs.
  unfold mbind at 1, random_uniform at 1, draw at 1.
  destruct (gen_uniform (of_int 0) (of_int 2 * math_pi)%pyf (w_rng u))
    as [angle g1].
  unfold mbind at 1, random_uniform at 1, draw at 1. cbn [w_rng].
  destruct (gen_uniform (of_int 0) (of_int 4) g1) as [dist g2].
  unfold mbind at 1, random_randint.
  destruct (sole_bottom height - 1 <? sole_top)%Z; [simpl; discriminate|].
  unfold draw at 1. cbn [w_rng].
  destruct (gen_randint sole_top (sole_bottom height - 1) g2) as [base_y g3].
  unfold mbind at 1, lift at 1.
  pose proof (actual_half_in_buffer base_y) as Ha.
  destruct (actual_half width height base_y) as [a|e]; [|exact Ha].
  unfold mbind at 1, random_random, draw. cbn [w_rng].
  destruct (gen_random g3) as [r g4].
  cbv zeta. unfold py_int.
  unfold mbind at 1, lift at 1.
  destruct (to_int _) as [sx|]; [|destruct (is_nan _); simpl; discriminate].
  unfold mbind at 1, lift at 1.
  destruct (to_int _) as [sy|]; [|destruct (is_nan _); simpl; discriminate].
  destruct ((0 <=? sx) && (sx <? width) && (0 <=? sy) && (sy <? height))%Z
    eqn:Hin; [|exact Hs].
  assert (Hb : in_bounds s sx sy = true).
  { unfold in_bounds. destruct Hs as [-> ->]. exact Hin. }
  unfold mbind, lift, getpixel. rewrite Hb.
  destruct (alpha (im_px s sx sy) =? 0)%Z; [|exact Hs].
  unfold putpixel. rewrite Hb. simpl. exact Hs.
Qed.

(** No call of [create_boot_print] ends in [IndexError]: no pass asks PIL
    for a texel outside the buffer. *)
Lemma create_boot_print_in_buffer (path : string) (w : World) :
  fst (create_boot_print width height path w) <> Raise IndexError.
Proof.
  unfold create_boot_print, mbind at 1, Image_new.
  destruct ((width <? 0) || (height <? 0))%Z; [simpl; discriminate|].
  set (img0 := blank width height (0, 0, 0, 0)%Z).
  assert (S0 : has_size width height img0) by (split; reflexivity).
  unfold mbind at 1, lift at 1.
  pose proof (pass1_in_buffer S0) as H1.
  destruct (pass1 width height img0) as [img1|e]; simpl in H1;
    [|simpl; congruence].
  unfold mbind at 1, lift at 1.
  pose proof (pass2_in_buffer H1) as H2.
  destruct (pass2 width height img1) as [img2|e]; simpl in H2;
    [|simpl; congruence].
  unfold mbind at 1, lift at 1.
  pose proof (pass3_in_buffer H2) as H3.
  destruct (pass3 width height img2) as [img3|e]; simpl in H3;
    [|simpl; congruence].
  unfold mbind at 1, random_seed at 1.
  match goal with
  | |- fst (mbind (pass4 _ _ _) _ ?u) <> _ =>
      pose proof (pass4_in_buffer u H3) as H4; unfold mbind at 1;
      destruct (pass4 width height img3 u) as [[img4|e] u4]; simpl in H4;
      [|simpl; congruence]
  end.
  unfold mbind, Image_save, ret.
  destruct (w_writable u4 path); [destruct (is_empty img4)|];
    simpl; discriminate.
Qed.

(** The passes keep the size of the buffer. *)
Lemma synthesis_keeps_size (i1 i2 i3 i4 : Image) (w w' : World) :
  pass1 width height (blank width height (0, 0, 0, 0)%Z) = Ok i1 ->
  pass2 width height i1 = Ok i2 ->
  pass3 width height i2 = Ok i3 ->
  pass4 width height i3 w = (Ok i4, w') ->
  has_size width height i4.
Proof.
  intros E1 E2 E3 E4.
  assert (S0 : has_size width height (blank width height (0, 0, 0, 0)%Z))
    by (split; reflexivity).
  pose proof (pass1_in_buffer S0) as H1. rewrite E1 in H1.
  pose proof (pass2_in_buffer H1) as H2. rewrite E2 in H2.
  pose proof (pass3_in_buffer H2) as H3. rewrite E3 in H3.
  pose proof (pass4_in_buffer w H3) as H4. rewrite E4 in H4. exact H4.
Qed.

(** The outcome of the synthesis, with the size of the image it produces. *)
Lemma create_boot_print_sized_outcome :
  exists synth : result Image,
    (forall img, synth = Ok img -> has_size width height img) /\
    forall path w, exists w',
      create_boot_print width height path w
      = (returned synth (w_writable w path), w') /\
      w_writable w' = w_writable w /\
      w_files w' = stored synth path w.
Proof.
  destruct (create_boot_print_trace width height)
    as [[e H]|[i1 [i2 [i3 [r4 [g' [_ [_ [E1 [E2 [E3 [E4 H]]]]]]]]]]]].
  - exists (Raise e). split; [discriminate 1|].
    intros path w. destruct (H path w) as [Hr [_ [Hf Hw]]].
    exists (snd (create_boot_print width height path w)).
    split; [|split; [exact Hw|exact Hf]].
    simpl. rewrite <- Hr. apply surjective_pairing.
  - exists r4. split.
    + intros img ->.
      eapply synthesis_keeps_size; [exact E1|exact E2|exact E3|].
      apply (E4 (fun _ => None) (fun _ => true) []).
    + intros path w. rewrite H. destruct r4 as [img4|e].
      * unfold world_saved, returned, stored.
        destruct (w_writable w path); [|eexists; repeat split].
        destruct (is_empty img4); eexists; repeat split.
      * eexists. repeat split.
Qed.
End Bounds.
End BoundsFacts.

(** ** The third pass, texel by texel *)

(** [img'] is [img] with the texels of [W] that had a nonzero alpha set to
    [v]. *)
Definition recolours (v : Pixel) (W : Z -> Z -> Prop) (img img' : Image)
  : Prop :=
  same_size img img' /\
  forall x y,
    (W x y /\ (0 < alpha (im_px img x y))%Z /\ im_px img' x y = v) \/
    ((~ W x y \/ (alpha (im_px img x y) <= 0)%Z) /\
     im_px img' x y = im_px img x y).

Lemma recolours_ext v (W W' : Z -> Z -> Prop) img img' :
  (forall x y, W x y <-> W' x y) ->
  recolours v W img img' -> recolours v W' img img'.
Proof.
  intros E [Hs Hp]. split; [exact Hs|]. intros x y.
  destruct (Hp x y) as [[Hw Hv]|[[Hw|Ha] Hv]].
  - left. split; [apply E; exact Hw|exact Hv].
  - right. split; [left; rewrite <- E; exact Hw|exact Hv].
  - right. split; [right; exact Ha|exact Hv].
Qed.

Lemma recolours_nothing v img : recolours v (fun _ _ => False) img img.
Proof. split; [split; reflexivity|]. intros x y. right. tauto. Qed.

Lemma recolours_then v (W1 W2 : Z -> Z -> Prop) img0 img1 img2 :
  (0 < alpha v)%Z ->
  recolours v W1 img0 img1 -> recolours v W2 img1 img2 ->
  recolours v (fun x y => W1 x y \/ W2 x y) img0 img2.
Proof.
  intros Hv [[Sw1 Sh1] P1] [[Sw2 Sh2] P2]. split; [split; congruence|].
  intros x y.
  destruct (P2 x y) as [[H2 [A2 E2]]|[H2 E2]];
    destruct (P1 x y) as [[H1 [A1 E1]]|[H1 E1]].
  - left. tauto.
  - left. rewrite E1 in A2. tauto.
  - left. split; [tauto|]. split; [exact A1|congruence].
  - right. split; [|congruence]. rewrite E1 in H2. tauto.
Qed.

Lemma darken_recolours (x y : Z) (img : Image) :
  in_bounds img x y = true ->
  exists img',
    BootPrint.darken (x, y) img = Ok img' /\
    recolours BootPrint.blood_edge (fun x' y' => x' = x /\ y' = y) img img'.
Proof.
  intros Hb. unfold BootPrint.darken, getpixel. rewrite Hb. cbn [bind].
  destruct (Z.gtb_spec (alpha (im_px img x y)) 0) as [Hpos|Hno].
  - unfold putpixel. rewrite Hb. eexists. split; [reflexivity|].
    split; [split; reflexivity|]. intros x' y'. simpl.
    destruct (Z.eqb_spec x' x), (Z.eqb_spec y' y); simpl;
      first [subst; left; split; [tauto|split; [lia|reflexivity]]
            |right; split; [left; tauto|reflexivity]].
  - exists img. split; [reflexivity|].
    split; [split; reflexivity|]. intros x' y'.
    destruct (Z.eqb_spec x' x), (Z.eqb_spec y' y);
      first [subst; right; split; [right; lia|reflexivity]
            |right; split; [left; tauto|reflexivity]].
Qed.

Lemma for_each_recolours {A : Type} (width height : Z) (v : Pixel)
      (W : A -> Z -> Z -> Prop) (xs : list A)
      (body : A -> Image -> result Image) :
  (0 < alpha v)%Z ->
  (forall a img, In a xs -> has_size width height img ->
                 exists img', body a img = Ok img' /\
                              recolours v (W a) img img') ->
  forall img, has_size width height img ->
  exists img', for_each xs body img = Ok img' /\
               recolours v (fun x y => exists a, In a xs /\ W a x y) img img'.
Proof.
  intros Hv. induction xs as [|a xs IH]; intros Hbody img Hsz; simpl.
  - exists img. split; [reflexivity|].
    apply recolours_ext with (W := fun _ _ => False);
      [|apply recolours_nothing].
    intros x y. split; [tauto|]. intros [a [[] _]].
  - destruct (Hbody a img (or_introl eq_refl) Hsz) as [img1 [E1 P1]].
    rewrite E1. cbn [bind].
    assert (Hsz1 : has_size width height img1).
    { destruct P1 as [[Hw Hh] _]. destruct Hsz. split; congruence. }
    destruct (IH (fun b i Hb => Hbody b i (or_intror Hb)) img1 Hsz1)
      as [img2 [E2 P2]].
    exists img2. split; [exact E2|].
    eapply recolours_ext; [|exact (recolours_then Hv P1 P2)].
    intros x y. split.
    + intros [H|[b [Hb H]]]; [exists a|exists b]; simpl; auto.
    + intros [b [[Hb|Hb] H]]; [subst b; left; exact H|right; exists b; auto].
Qed.

Module EdgeFacts.
Import BootPrint PassFacts.
Section Edges.
Context {FM : PyFloat}.
Variables width height : Z.

(** The texels the third pass tests: the two outermost columns on each side
    of the span of a row, where they exist. *)
Definition pass3_targets (x y : Z) : Prop :=
  In y (range sole_top (sole_bottom height)) /\
  exists a,
    actual_half width height y = Ok a /\
    exists edge_offset,
      In edge_offset (range 0 2) /\
      (((Z.max 0 (center_x width - a) + edge_offset < width)%Z /\
        x = (Z.max 0 (center_x width - a) + edge_offset)%Z) \/
       ((0 <= Z.min (width - 1) (center_x width + a) - edge_offset)%Z /\
        x = (Z.min (width - 1) (center_x width + a) - edge_offset)%Z)).

Lemma guarded_darken_recolours (c : bool) (xx y : Z) (img : Image) :
  has_size width height img -> (c = true -> (0 <= xx < width)%Z) ->
  (0 <= y < height)%Z ->
  exists img',
    (if c then darken (xx, y) img else Ok img) = Ok img' /\
    recolours blood_edge (fun x' y' => c = true /\ x' = xx /\ y' = y) img img'.
Proof.
  intros Hsz Hc Hy. destruct c.
  - destruct (@darken_recolours xx y img) as [img' [E R]].
    + apply in_bounds_iff. destruct Hsz as [-> ->]. specialize (Hc eq_refl). lia.
    + exists img'. split; [exact E|].
      eapply recolours_ext; [|exact R]. intros x' y'. tauto.
  - exists img. split; [reflexivity|].
    eapply recolours_ext; [|apply recolours_nothing].
    intros x' y'. split; [tauto|]. intros [H _]. discriminate H.
Qed.

Lemma edge_loop_recolours (y a : Z) (img : Image) :
  has_size width height img -> (0 <= y < height)%Z ->
  exists img',
    for_each (range 0 2)
      (fun edge_offset img =>
         img <- (if (Z.max 0 (center_x width - a) + edge_offset <? width)%Z
                 then darken (Z.max 0 (center_x width - a) + edge_offset, y)%Z
                             img
                 else Ok img) ;;
         if (Z.min (width - 1) (center_x width + a) - edge_offset >=? 0)%Z
         then darken (Z.min (width - 1) (center_x width + a) - edge_offset, y)%Z
                     img
         else Ok img)
      img = Ok img' /\
    recolours blood_edge
      (fun x' y' =>
         y' = y /\
         exists edge_offset,
           In edge_offset (range 0 2) /\
           (((Z.max 0 (center_x width - a) + edge_offset < width)%Z /\
             x' = (Z.max 0 (center_x width - a) + edge_offset)%Z) \/
            ((0 <= Z.min (width - 1) (center_x width + a) - edge_offset)%Z /\
             x' = (Z.min (width - 1) (center_x width + a) - edge_offset)%Z)))
      img img'.
Proof.
  intros Hsz Hy.
  destruct (@for_each_recolours Z width height blood_edge
    (fun off x' y' =>
       y' = y /\
       (((Z.max 0 (center_x width - a) + off < width)%Z /\
         x' = (Z.max 0 (center_x width - a) + off)%Z) \/
        ((0 <= Z.min (width - 1) (center_x width + a) - off)%Z /\
         x' = (Z.min (width - 1) (center_x width + a) - off)%Z)))
    (range 0 2)
    (fun edge_offset img =>
         img <- (if (Z.max 0 (center_x width - a) + edge_offset <? width)%Z
                 then darken (Z.max 0 (center_x width - a) + edge_offset, y)%Z
                             img
                 else Ok img) ;;
         if (Z.min (width - 1) (center_x width + a) - edge_offset >=? 0)%Z
         then darken (Z.min (width - 1) (center_x width + a) - edge_offset, y)%Z
                     img
         else Ok img)) with (img := img) as [img' [E R]];
    [reflexivity| |exact Hsz|].
  - intros off t Hoff Ht. apply in_range in Hoff.
    destruct (@guarded_darken_recolours
                (Z.max 0 (center_x width - a) + off <? width)%Z
                (Z.max 0 (center_x width - a) + off)%Z y t Ht)
      as [t1 [E1 R1]]; [intros Hc; apply Z.ltb_lt in Hc; lia|exact Hy|].
    rewrite E1. cbn [bind].
    assert (Ht1 : has_size width height t1).
    { destruct R1 as [[? ?] _]. destruct Ht. split; congruence. }
    destruct (@guarded_darken_recolours
                (Z.min (width - 1) (center_x width + a) - off >=? 0)%Z
                (Z.min (width - 1) (center_x width + a) - off)%Z y t1 Ht1)
      as [t2 [E2 R2]]; [intros Hc; apply Z.geb_le in Hc; lia|exact Hy|].
    exists t2. split; [exact E2|].
    eapply recolours_ext;
      [|exact (@recolours_then blood_edge _ _ _ _ _ eq_refl R1 R2)].
    intros x' y'. cbv beta. rewrite Z.ltb_lt, Z.geb_le. intuition lia.
  - exists img'. split; [exact E|].
    eapply recolours_ext; [|exact R]. intros x' y'. split.
    + intros [off [Hoff [-> H]]]. split; [reflexivity|]. exists off. auto.
    + intros [-> [off [Hoff H]]]. exists off. auto.
Qed.

Lemma pass3_recolours (img : Image) :
  rows_ok width height -> has_size width height img ->
  exists img', pass3 width height img = Ok img' /\
               recolours blood_edge pass3_targets img img'.
Proof.
  intros Hrows Hsz. unfold pass3.
  destruct (@for_each_recolours Z width height blood_edge
    (fun y x' y' =>
       y' = y /\
       exists a,
         actual_half width height y = Ok a /\
         exists edge_offset,
           In edge_offset (range 0 2) /\
           (((Z.max 0 (center_x width - a) + edge_offset < width)%Z /\
             x' = (Z.max 0 (center_x width - a) + edge_offset)%Z) \/
            ((0 <= Z.min (width - 1) (center_x width + a) - edge_offset)%Z /\
             x' = (Z.min (width - 1) (center_x width + a) - edge_offset)%Z)))
    (range sole_top (sole_bottom height))
    (fun y img =>
       actual_half <- actual_half width height y ;;
       let x_left := Z.max 0 (center_x width - actual_half) in
       let x_right := Z.min (width - 1) (center_x width + actual_half) in
       for_each (range 0 2)
         (fun edge_offset img =>
            img <- (if (x_left + edge_offset <? width)%Z
                    then darken (x_left + edge_offset, y)%Z img
                    else Ok img) ;;
            if (x_right - edge_offset >=? 0)%Z
            then darken (x_right - edge_offset, y)%Z img
            else Ok img)
         img)) with (img := img) as [img' [E R]];
    [reflexivity| |exact Hsz|].
  - intros y s Hy Hs. apply in_range in Hy.
    unfold sole_top, sole_bottom, margin_y in Hy.
    destruct (Hrows y) as [a Ea]. rewrite Ea. cbn [bind]. cbv zeta.
    destruct (@edge_loop_recolours y a s Hs) as [s' [Es Rs]]; [lia|].
    exists s'. split; [exact Es|].
    eapply recolours_ext; [|exact Rs]. intros x' y'. split.
    + intros [-> H]. split; [reflexivity|]. exists a. auto.
    + intros [-> [a' [Ea' H]]]. assert (a' = a) by congruence. subst a'. auto.
  - exists img'. split; [exact E|].
    eapply recolours_ext; [|exact R]. intros x' y'. unfold pass3_targets.
    split.
    + intros [y [Hy [-> H]]]. auto.
    + intros [Hy H]. exists y'. auto.
Qed.
End Edges.
End EdgeFacts.

Lemma pixel_eq_dec (p q : Pixel) : {p = q} + {p <> q}.
Proof. repeat decide equality. Qed.

(** * The errors a pass can end in *)

(** Every exception [r] can be is in [S]. *)
Definition raises_only {A : Type} (S : exn -> Prop) (r : result A) : Prop :=
  forall e, r = Raise e -> S e.

(** The exceptions of [int()] on a float that is no number, of
    [random.randint] on an empty range, and of an access outside the
    buffer. *)
Definition conversion_or_access (e : exn) : Prop :=
  e = ValueError \/ e = OverflowError \/ e = IndexError.

Lemma raises_only_ok {A : Type} (S : exn -> Prop) (a : A) :
  raises_only S (Ok a).
Proof. intros e H. discriminate H. Qed.

Lemma raises_only_bind {A B : Type} (S : exn -> Prop) (m : result A)
      (k : A -> result B) :
  raises_only S m -> (forall a, m = Ok a -> raises_only S (k a)) ->
  raises_only S (bind m k).
Proof.
  intros Hm Hk. destruct m as [a|e']; cbn [bind].
  - apply Hk. reflexivity.
  - intros e H. apply Hm. congruence.
Qed.

Lemma for_each_raises_only {A T : Type} (S : exn -> Prop) (xs : list A)
      (body : A -> T -> result T) :
  (forall x s, In x xs -> raises_only S (body x s)) ->
  forall s, raises_only S (for_each xs body s).
Proof.
  induction xs as [|x xs IH]; intros Hbody s; simpl;
    [apply raises_only_ok|].
  apply raises_only_bind; [apply Hbody; left; reflexivity|].
  intros s1 _. apply IH. intros y t Hy. apply Hbody. right. exact Hy.
Qed.

Lemma putpixel_raises_only (xy : Z * Z) (v : Pixel) (img : Image) :
  raises_only conversion_or_access (putpixel xy v img).
Proof.
  destruct xy as [x y]. unfold putpixel. intros e H.
  destruct (in_bounds img x y); [discriminate H|].
  injection H as <-. right. right. reflexivity.
Qed.

Lemma darken_raises_only (xy : Z * Z) (img : Image) :
  raises_only conversion_or_access (BootPrint.darken xy img).
Proof.
  unfold BootPrint.darken. apply raises_only_bind.
  - destruct xy as [x y]. unfold getpixel. intros e H.
    destruct (in_bounds img x y); [discriminate H|].
    injection H as <-. right. right. reflexivity.
  - intros c _. destruct (alpha c >? 0)%Z;
      [apply putpixel_raises_only|apply raises_only_ok].
Qed.

Module ErrorFacts.
Import BootPrint Generate.
Section Errors.
Context {FM : PyFloat} {RM : PyRandom}.
Variables width height : Z.

Lemma py_int_raises_only (x : num) :
  raises_only conversion_or_access (py_int x).
Proof.
  unfold py_int. intros e H. destruct (to_int x); [discriminate H|].
  destruct (is_nan x); injection H as <-;
    [left; reflexivity|right; left; reflexivity].
Qed.

(** On a canvas with a row between its margins the divisor of
    [actual_half] is not zero. *)
Lemma actual_half_raises_only (y : Z) :
  (7 <= height)%Z ->
  raises_only conversion_or_access (actual_half width height y).
Proof.
  intros Hh. unfold actual_half, truediv.
  destruct (Z.eqb_spec (sole_height height) 0) as [E|_].
  - unfold sole_height, sole_bottom, sole_top, margin_y in E. lia.
  - cbn [bind]. cbv zeta. apply py_int_raises_only.
Qed.

Lemma pass1_raises_only (img : Image) :
  raises_only conversion_or_access (pass1 width height img).
Proof.
  unfold pass1. apply for_each_raises_only. intros y s Hy.
  apply in_range in Hy. unfold sole_top, sole_bottom, margin_y in Hy.
  apply raises_only_bind; [apply actual_half_raises_only; lia|].
  intros a _. cbv zeta. apply for_each_raises_only. intros x t _.
  apply putpixel_raises_only.
Qed.

Lemma pass2_raises_only (img : Image) :
  raises_only conversion_or_access (pass2 width height img).
Proof.
  unfold pass2. apply for_each_raises_only. intros ty s Hty.
  apply in_range_step in Hty; [|unfold tread_spacing; lia].
  unfold sole_top, sole_bottom, margin_y in Hty.
  apply raises_only_bind; [apply actual_half_raises_only; lia|].
  intros a _. cbv zeta. apply for_each_raises_only. intros gap t _.
  destruct (ty + gap <? sole_bottom height - 2)%Z;
    [|apply raises_only_ok].
  apply for_each_raises_only. intros x u _. apply putpixel_raises_only.
Qed.

Lemma pass3_raises_only (img : Image) :
  raises_only conversion_or_access (pass3 width height img).
Proof.
  unfold pass3. apply for_each_raises_only. intros y s Hy.
  apply in_range in Hy. unfold sole_top, sole_bottom, margin_y in Hy.
  apply raises_only_bind; [apply actual_half_raises_only; lia|].
  intros a _. cbv zeta. apply for_each_raises_only. intros off t _.
  apply raises_only_bind.
  - destruct (_ <? _)%Z; [apply darken_raises_only|apply raises_only_ok].
  - intros u _. destruct (_ >=? _)%Z;
      [apply darken_raises_only|apply raises_only_ok].
Qed.

Lemma for_eachM_raises_only {A T : Type} (S : exn -> Prop) (xs : list A)
      (body : A -> T -> M T) :
  (forall x s w, In x xs -> raises_only S (fst (body x s w))) ->
  forall s w, raises_only S (fst (for_eachM xs body s w)).
Proof.
  induction xs as [|x xs IH]; intros Hbody s w; simpl;
    [apply raises_only_ok|].
  pose proof (Hbody x s w (or_introl eq_refl)) as Hx.
  unfold mbind. destruct (body x s w) as [[s1|e'] w1]; simpl in *;
    [|exact Hx].
  apply IH. intros y t u Hy. apply Hbody. right. exact Hy.
Qed.

Lemma pass4_raises_only (img : Image) (w : World) :
  raises_only conversion_or_access (fst (pass4 width height img w)).
Proof.
  unfold pass4. apply for_eachM_raises_only. intros _ s u _.
  unfold mbind at 1, random_uniform at 1, draw at 1.
  destruct (gen_uniform (of_int 0) (of_int 2 * math_pi)%pyf (w_rng u))
    as [angle g1].
  unfold mbind at 1, random_uniform at 1, draw at 1. cbn [w_rng].
  destruct (gen_uniform (of_int 0) (of_int 4) g1) as [dist g2].
  unfold mbind at 1, random_randint.
  destruct (Z.ltb_spec (sole_bottom height - 1) sole_top) as [_|Hh].
  { simpl. intros e H. injection H as <-. left. reflexivity. }
  unfold sole_bottom, sole_top, margin_y in Hh.
  unfold draw at 1. cbn [w_rng].
  destruct (gen_randint sole_top (sole_bottom height - 1) g2) as [base_y g3].
  unfold mbind at 1, lift at 1.
  pose proof (@actual_half_raises_only base_y ltac:(lia)) as Ha.
  destruct (actual_half width height base_y) as [a|e0].
  2:{ simpl. intros e H. apply (Ha e). congruence. }
  unfold mbind at 1, random_random, draw. cbn [w_rng].
  destruct (gen_random g3) as [r g4].
  cbv zeta. unfold py_int.
  unfold mbind at 1, lift at 1.
  destruct (to_int _) as [sx|].
  2:{ destruct (is_nan _); simpl; intros e H; injection H as <-;
        [left; reflexivity|right; left; reflexivity]. }
  unfold mbind at 1, lift at 1.
  destruct (to_int _) as [sy|].
  2:{ destruct (is_nan _); simpl; intros e H; injection H as <-;
        [left; reflexivity|right; left; reflexivity]. }
  destruct ((0 <=? sx) && (sx <? width) && (0 <=? sy) && (sy <? height))%Z;
    [|simpl; apply raises_only_ok].
  unfold mbind, lift, getpixel.
  destruct (in_bounds s sx sy).
  2:{ simpl. intros e H. injection H as <-. right. right. reflexivity. }
  destruct (alpha (im_px s sx sy) =? 0)%Z; [|simpl; apply raises_only_ok].
  unfold putpixel. destruct (in_bounds s sx sy); simpl;
    [apply raises_only_ok|].
  intros e H. injection H as <-. right. right. reflexivity.
Qed.

(** On a canvas at most 6 high the fourth pass stops at [random.randint],
    whose range [sole_top .. sole_bottom - 1] is empty. *)
Lemma pass4_short_canvas (img : Image) (w : World) :
  (height <= 6)%Z -> fst (pass4 width height img w) = Raise ValueError.
Proof.
  intros Hh. unfold pass4.
  change (range 0 15) with (0 :: range 1 15)%Z. cbn [for_eachM].
  unfold mbind at 1. unfold mbind at 1.
  unfold random_uniform at 1, draw at 1.
  destruct (gen_uniform (of_int 0) (of_int 2 * math_pi)%pyf (w_rng w))
    as [angle g1].
  unfold mbind at 1, random_uniform at 1, draw at 1. cbn [w_rng].
  destruct (gen_uniform (of_int 0) (of_int 4) g1) as [dist g2].
  unfold mbind at 1, random_randint.
  replace (sole_bottom height - 1 <? sole_top)%Z with true
    by (symmetry; apply Z.ltb_lt; unfold sole_top, sole_bottom, margin_y;
        lia).
  reflexivity.
Qed.
End Errors.
End ErrorFacts.

(** * Passes that return, whatever the arithmetic *)

(** A pass that returns has had every [int()] defined and every access
    inside the buffer; what it wrote is then known with no assumption on the
    float arithmetic, the generator or the size of the buffer. *)

Lemma putpixel_returns_paints (x y : Z) (v : Pixel) (img img' : Image) :
  putpixel (x, y) v img = Ok img' ->
  paints v (fun x' y' => x' = x /\ y' = y) img img'.
Proof.
  intros E. destruct (in_bounds img x y) eqn:Hb.
  - destruct (putpixel_paints x y v img Hb) as [i [Ei P]].
    rewrite E in Ei. injection Ei as <-. exact P.
  - unfold putpixel in E. rewrite Hb in E. discriminate E.
Qed.

Lemma for_each_returns_paints {A : Type} (v : Pixel)
      (W : A -> Z -> Z -> Prop) (xs : list A)
      (body : A -> Image -> result Image) :
  (forall a s s', In a xs -> body a s = Ok s' -> paints v (W a) s s') ->
  forall img img', for_each xs body img = Ok img' ->
  paints v (fun x y => exists a, In a xs /\ W a x y) img img'.
Proof.
  induction xs as [|a xs IH]; intros Hbody img img' E; simpl in E.
  - injection E as <-.
    apply paints_ext with (W := fun _ _ => False); [|apply paints_nothing].
    intros x y. split; [tauto|]. intros [a [[] _]].
  - destruct (body a img) as [s1|e] eqn:E1; cbn [bind] in E;
      [|discriminate E].
    pose proof (Hbody a img s1 (or_introl eq_refl) E1) as P1.
    pose proof (IH (fun b s s' Hb => Hbody b s s' (or_intror Hb)) s1 img' E)
      as P2.
    eapply paints_ext; [|exact (paints_then P1 P2)].
    intros x y. split.
    + intros [H|[b [Hb H]]]; [exists a|exists b]; simpl; auto.
    + intros [b [[Hb|Hb] H]]; [subst b; left; exact H|right; exists b; auto].
Qed.

Lemma span_returns_paints (v : Pixel) (x_left x_right y : Z)
      (img img' : Image) :
  for_each (range x_left (x_right + 1))
           (fun x img => putpixel (x, y) v img) img = Ok img' ->
  paints v (fun x' y' => (x_left <= x' <= x_right)%Z /\ y' = y) img img'.
Proof.
  intros E.
  apply (@for_each_returns_paints Z v (fun x x' y' => x' = x /\ y' = y))
    in E.
  - eapply paints_ext; [|exact E]. intros x' y'. split.
    + intros [x [Hx [-> ->]]]. apply in_range in Hx. split; [lia|reflexivity].
    + intros [Hx ->]. exists x'. split; [apply in_range; lia|auto].
  - intros x s s' _ Ep. apply putpixel_returns_paints. exact Ep.
Qed.

Lemma darken_returns_recolours (x y : Z) (img img' : Image) :
  BootPrint.darken (x, y) img = Ok img' ->
  recolours BootPrint.blood_edge (fun x' y' => x' = x /\ y' = y) img img'.
Proof.
  intros E. destruct (in_bounds img x y) eqn:Hb.
  - destruct (@darken_recolours x y img Hb) as [i [Ei R]].
    rewrite E in Ei. injection Ei as <-. exact R.
  - unfold BootPrint.darken, getpixel in E. rewrite Hb in E. discriminate E.
Qed.

Lemma for_each_returns_recolours {A : Type} (v : Pixel)
      (W : A -> Z -> Z -> Prop) (xs : list A)
      (body : A -> Image -> result Image) :
  (0 < alpha v)%Z ->
  (forall a s s', In a xs -> body a s = Ok s' -> recolours v (W a) s s') ->
  forall img img', for_each xs body img = Ok img' ->
  recolours v (fun x y => exists a, In a xs /\ W a x y) img img'.
Proof.
  intros Hv. induction xs as [|a xs IH]; intros Hbody img img' E; simpl in E.
  - injection E as <-.
    apply recolours_ext with (W := fun _ _ => False);
      [|apply recolours_nothing].
    intros x y. split; [tauto|]. intros [a [[] _]].
  - destruct (body a img) as [s1|e] eqn:E1; cbn [bind] in E;
      [|discriminate E].
    pose proof (Hbody a img s1 (or_introl eq_refl) E1) as P1.
    pose proof (IH (fun b s s' Hb => Hbody b s s' (or_intror Hb)) s1 img' E)
      as P2.
    eapply recolours_ext; [|exact (recolours_then Hv P1 P2)].
    intros x y. split.
    + intros [H|[b [Hb H]]]; [exists a|exists b]; simpl; auto.
    + intros [b [[Hb|Hb] H]]; [subst b; left; exact H|right; exists b; auto].
Qed.

Lemma recolours_shades (W : Z -> Z -> Prop) (img img' : Image) :
  recolours BootPrint.blood_edge W img img' -> shades img img'.
Proof.
  intros [Hs R]. split; [exact Hs|]. intros x y.
  destruct (R x y) as [[_ [Ha Ev]]|[_ Ev]]; [right; auto|left; exact Ev].
Qed.

Module ReturnFacts.
Import BootPrint PassFacts EdgeFacts Pass4Facts Generate OutcomeFacts.
Section Returns.
Context {FM : PyFloat}.
Variables width height : Z.

Lemma pass1_returns_paints (img img' : Image) :
  pass1 width height img = Ok img' ->
  paints blood_main (pass1_writes width height) img img'.
Proof.
  unfold pass1. intros E.
  apply (@for_each_returns_paints Z blood_main
           (fun y x' y' =>
              y' = y /\
              exists a, actual_half width height y = Ok a /\
                        (Z.max 0 (center_x width - a) <= x'
                         <= Z.min (width - 1) (center_x width + a))%Z))
    in E.
  - eapply paints_ext; [|exact E]. intros x y. unfold pass1_writes. split.
    + intros [y0 [Hy [-> H]]]. auto.
    + intros [Hy H]. exists y. auto.
  - intros y s s' _ Eb.
    destruct (actual_half width height y) as [a|e]; cbn [bind] in Eb;
      [|discriminate Eb].
    cbv zeta in Eb. apply span_returns_paints in Eb.
    eapply paints_ext; [|exact Eb]. intros x' y'. split.
    + intros [Hx ->]. split; [reflexivity|]. exists a. auto.
    + intros [-> [a' [Ea Hx]]]. injection Ea as <-. auto.
Qed.

Lemma pass2_returns_paints (img img' : Image) :
  pass2 width height img = Ok img' ->
  paints transparent (pass2_writes width height) img img'.
Proof.
  unfold pass2. intros E.
  apply (@for_each_returns_paints Z transparent
           (fun tread_y x' y' =>
              exists gap a,
                In gap (range 0 tread_gap) /\
                (tread_y + gap < sole_bottom height - 2)%Z /\
                actual_half width height tread_y = Ok a /\
                y' = (tread_y + gap)%Z /\
                (Z.max 0 (center_x width - a + 2) <= x'
                 <= Z.min (width - 1) (center_x width + a - 2))%Z))
    in E.
  - eapply paints_ext; [|exact E]. intros x y. unfold pass2_writes. split.
    + intros [ty [Hty [gap [a H]]]]. exists ty, gap, a. tauto.
    + intros [ty [gap [a H]]]. exists ty. split; [tauto|].
      exists gap, a. tauto.
  - intros ty s s' _ Eb.
    destruct (actual_half width height ty) as [a|e]; cbn [bind] in Eb;
      [|discriminate Eb].
    cbv zeta in Eb.
    apply (@for_each_returns_paints Z transparent
             (fun gap x' y' =>
                (ty + gap < sole_bottom height - 2)%Z /\
                y' = (ty + gap)%Z /\
                (Z.max 0 (center_x width - a + 2) <= x'
                 <= Z.min (width - 1) (center_x width + a - 2))%Z))
      in Eb.
    + eapply paints_ext; [|exact Eb]. intros x' y'. split.
      * intros [gap [Hg [Hlt [-> Hx]]]]. exists gap, a. auto.
      * intros [gap [a' [Hg [Hlt [Ea [-> Hx]]]]]]. injection Ea as <-.
        exists gap. auto.
    + intros gap t t' _ Eg.
      destruct (Z.ltb_spec (ty + gap) (sole_bottom height - 2)) as [Hlt|Hge].
      * apply span_returns_paints in Eg.
        eapply paints_ext; [|exact Eg]. intros x' y'. tauto.
      * injection Eg as <-.
        eapply paints_ext; [|apply paints_nothing]. intros x' y'.
        split; [tauto|]. intros [Hlt _]. lia.
Qed.

Lemma guarded_darken_returns (c : bool) (xx y : Z) (img img' : Image) :
  (if c then darken (xx, y) img else Ok img) = Ok img' ->
  recolours blood_edge (fun x' y' => c = true /\ x' = xx /\ y' = y) img img'.
Proof.
  intros E. destruct c.
  - apply darken_returns_recolours in E.
    eapply recolours_ext; [|exact E]. intros x' y'. tauto.
  - injection E as <-.
    eapply recolours_ext; [|apply recolours_nothing].
    intros x' y'. split; [tauto|]. intros [H _]. discriminate H.
Qed.

Lemma pass3_returns_recolours (img img' : Image) :
  pass3 width height img = Ok img' ->
  recolours blood_edge (pass3_targets width height) img img'.
Proof.
  unfold pass3. intros E.
  apply (@for_each_returns_recolours Z blood_edge
           (fun y x' y' =>
              y' = y /\
              exists a,
                actual_half width height y = Ok a /\
                exists edge_offset,
                  In edge_offset (range 0 2) /\
                  (((Z.max 0 (center_x width - a) + edge_offset < width)%Z /\
                    x' = (Z.max 0 (center_x width - a) + edge_offset)%Z) \/
                   ((0 <= Z.min (width - 1) (center_x width + a)
                          - edge_offset)%Z /\
                    x' = (Z.min (width - 1) (center_x width + a)
                          - edge_offset)%Z))))
    in E; [|reflexivity|].
  - eapply recolours_ext; [|exact E]. intros x y. unfold pass3_targets.
    split.
    + intros [y0 [Hy [-> H]]]. auto.
    + intros [Hy H]. exists y. auto.
  - intros y s s' _ Eb.
    destruct (actual_half width height y) as [a|e]; cbn [bind] in Eb;
      [|discriminate Eb].
    cbv zeta in Eb.
    apply (@for_each_returns_recolours Z blood_edge
             (fun off x' y' =>
                y' = y /\
                (((Z.max 0 (center_x width - a) + off < width)%Z /\
                  x' = (Z.max 0 (center_x width - a) + off)%Z) \/
                 ((0 <= Z.min (width - 1) (center_x width + a) - off)%Z /\
                  x' = (Z.min (width - 1) (center_x width + a) - off)%Z))))
      in Eb; [|reflexivity|].
    + eapply recolours_ext; [|exact Eb]. intros x' y'. split.
      * intros [off [Hoff [-> H]]]. split; [reflexivity|].
        exists a. split; [reflexivity|]. exists off. auto.
      * intros [-> [a' [Ea [off [Hoff H]]]]]. injection Ea as <-.
        exists off. auto.
    + intros off t t' _ Eo.
      match type of Eo with
      | bind ?m _ = _ => destruct m as [t1|e] eqn:E1; cbn [bind] in Eo;
                         [|discriminate Eo]
      end.
      apply guarded_darken_returns in E1, Eo.
      eapply recolours_ext;
        [|exact (@recolours_then blood_edge _ _ _ _ _ eq_refl E1 Eo)].
      intros x' y'. cbv beta. rewrite Z.ltb_lt, Z.geb_le. intuition lia.
Qed.
End Returns.
End ReturnFacts.

(** One round of the fourth pass: at most one texel changes, a texel of the
    buffer whose alpha was 0, and it becomes a droplet. *)
Definition droplet_step (s s' : Image) : Prop :=
  same_size s s' /\
  exists p : Z * Z,
    forall x y,
      im_px s' x y = im_px s x y \/
      ((x, y) = p /\ alpha (im_px s x y) = 0%Z /\
       in_bounds s x y = true /\ im_px s' x y = BootPrint.droplet).

Lemma droplet_step_refl (s : Image) : droplet_step s s.
Proof. split; [split; reflexivity|]. exists (0, 0)%Z. auto. Qed.

Lemma droplet_step_splatters (s s' : Image) :
  droplet_step s s' -> splatters s s'.
Proof.
  intros [Hs [p H]]. split; [exact Hs|]. intros x y.
  destruct (H x y) as [E|[_ [A [B E]]]]; auto.
Qed.

Module SplatterReturns.
Import BootPrint PassFacts Pass4Facts Generate.
Section Rounds.
Context {FM : PyFloat} {RM : PyRandom}.

(** A loop of such rounds that returns: every change is a droplet on a texel
    that was empty, and there are at most as many changes as rounds. *)
Lemma for_eachM_returns_steps {A : Type} (xs : list A)
      (body : A -> Image -> M Image) :
  (forall a s w s' w', In a xs -> body a s w = (Ok s', w') ->
                       droplet_step s s') ->
  forall s w s' w', for_eachM xs body s w = (Ok s', w') ->
    splatters s s' /\
    exists L : list (Z * Z),
      (List.length L <= List.length xs)%nat /\
      forall x y, im_px s' x y <> im_px s x y -> In (x, y) L.
Proof.
  induction xs as [|a xs IH]; intros Hbody s w s' w' E; simpl in E.
  - injection E as <- _. split; [apply splatters_refl|].
    exists []. split; [simpl; lia|]. intros x y N. congruence.
  - unfold mbind in E.
    destruct (body a s w) as [[s1|e] w1] eqn:E1; [|discriminate E].
    pose proof (Hbody a s w s1 w1 (or_introl eq_refl) E1) as Hstep.
    destruct (IH (fun b t u t' u' Hb => Hbody b t u t' u' (or_intror Hb))
                 s1 w1 s' w' E) as [Sp [L [HL Hin]]].
    split.
    + eapply splatters_trans; [|exact Sp].
      apply droplet_step_splatters. exact Hstep.
    + destruct Hstep as [_ [p Hp]].
      exists (p :: L). split; [simpl; lia|]. intros x y N.
      destruct (pixel_eq_dec (im_px s1 x y) (im_px s x y)) as [Eq|Ne].
      * right. apply Hin. congruence.
      * left. destruct (Hp x y) as [Ev|[Ev _]]; [contradiction|].
        symmetry. exact Ev.
Qed.

Variables width height : Z.

Lemma pass4_returns (img img' : Image) (w w' : World) :
  pass4 width height img w = (Ok img', w') ->
  splatters img img' /\
  exists L : list (Z * Z),
    (List.length L <= 15)%nat /\
    forall x y, im_px img' x y <> im_px img x y -> In (x, y) L.
Proof.
  unfold pass4. intros E.
  apply for_eachM_returns_steps in E; [exact E|].
  clear. intros _ s u s' u' _ E.
  unfold mbind at 1, random_uniform at 1, draw at 1 in E.
  destruct (gen_uniform (of_int 0) (of_int 2 * math_pi)%pyf (w_rng u))
    as [angle g1].
  unfold mbind at 1, random_uniform at 1, draw at 1 in E. cbn [w_rng] in E.
  destruct (gen_uniform (of_int 0) (of_int 4) g1) as [dist g2].
  unfold mbind at 1, random_randint in E.
  destruct (sole_bottom height - 1 <? sole_top)%Z; [discriminate E|].
  unfold draw at 1 in E. cbn [w_rng] in E.
  destruct (gen_randint sole_top (sole_bottom height - 1) g2) as [base_y g3].
  unfold mbind at 1, lift at 1 in E.
  destruct (actual_half width height base_y) as [a|e]; [|discriminate E].
  unfold mbind at 1, random_random, draw in E. cbn [w_rng] in E.
  destruct (gen_random g3) as [r g4].
  cbv zeta in E. unfold py_int in E.
  unfold mbind at 1, lift at 1 in E.
  destruct (to_int _) as [sx|];
    [|destruct (is_nan _); discriminate E].
  unfold mbind at 1, lift at 1 in E.
  destruct (to_int _) as [sy|];
    [|destruct (is_nan _); discriminate E].
  destruct ((0 <=? sx) && (sx <? width) && (0 <=? sy) && (sy <? height))%Z;
    [|injection E as <- _; apply droplet_step_refl].
  unfold mbind, lift, getpixel in E.
  destruct (in_bounds s sx sy) eqn:Hb; [|discriminate E].
  destruct (Z.eqb_spec (alpha (im_px s sx sy)) 0) as [Hz|Hnz];
    [|injection E as <- _; apply droplet_step_refl].
  unfold putpixel in E. rewrite Hb in E. injection E as <- _.
  split; [split; reflexivity|]. exists (sx, sy). intros x y. simpl.
  destruct (Z.eqb_spec x sx), (Z.eqb_spec y sy); simpl; auto.
  subst. right. auto.
Qed.
End Rounds.
End SplatterReturns.

(** ** A call that returns *)

Module CallReturns.
Import BootPrint PassFacts EdgeFacts Pass4Facts Generate OutcomeFacts.
Import ReturnFacts SplatterReturns.
Section Call.
Context {FM : PyFloat} {RM : PyRandom}.
Variables width height : Z.

(** A call that returns an image has run its four passes to the end, has
    reseeded the generator before the fourth, and has saved the image. *)
Lemma create_boot_print_returns (path : string) (w w' : World)
      (img : Image) :
  create_boot_print width height path w = (Ok img, w') ->
  exists (i1 i2 i3 : Image) (g' : rng),
    pass1 width height (blank width height (0, 0, 0, 0)%Z) = Ok i1 /\
    pass2 width height i1 = Ok i2 /\
    pass3 width height i2 = Ok i3 /\
    (forall f wr b,
        pass4 width height i3 (mkWorld (seeded 42) f wr b)
        = (Ok img, mkWorld g' f wr b)) /\
    w_writable w path = true /\
    is_empty img = false /\
    w' = mkWorld g'
                 (fun p => if String.eqb p path then Some img
                           else w_files w p)
                 (w_writable w) ((width, height) :: w_buffers w).
Proof.
  intros E.
  destruct (create_boot_print_trace width height)
    as [[e H]|[i1 [i2 [i3 [r4 [g' [_ [_ [E1 [E2 [E3 [E4 H]]]]]]]]]]]].
  - destruct (H path w) as [Hr _]. rewrite E in Hr. discriminate Hr.
  - rewrite H in E. destruct r4 as [i4|e]; [|discriminate E].
    unfold world_saved in E.
    destruct (w_writable w path) eqn:Wr; [|discriminate E].
    destruct (is_empty i4) eqn:Ne; [discriminate E|].
    injection E as <- <-.
    exists i1, i2, i3, g'. auto 10.
Qed.

(** What the four passes did to the fresh buffer in such a call. *)
Lemma create_boot_print_passes (path : string) (w w' : World)
      (img : Image) :
  create_boot_print width height path w = (Ok img, w') ->
  exists i1 i2 i3 : Image,
    paints blood_main (pass1_writes width height)
           (blank width height (0, 0, 0, 0)%Z) i1 /\
    paints transparent (pass2_writes width height) i1 i2 /\
    recolours blood_edge (pass3_targets width height) i2 i3 /\
    splatters i3 img.
Proof.
  intros E.
  destruct (@create_boot_print_returns path w w' img E)
    as [i1 [i2 [i3 [g' [E1 [E2 [E3 [E4 _]]]]]]]].
  exists i1, i2, i3.
  split; [apply pass1_returns_paints; exact E1|].
  split; [apply pass2_returns_paints; exact E2|].
  split; [apply pass3_returns_recolours; exact E3|].
  eapply pass4_returns. apply (E4 (fun _ => None) (fun _ => true) []).
Qed.
End Call.
End CallReturns.

(** * Running the code on binary64 *)

Module IEEECheck.
Import BootPrint RealRows Generate.

(** Below the toe band no libm function is called: whatever [cos] and [sin]
    are, the binary64 half-widths of rows 16..44 are those of the reals. *)
Lemma ieee_lower_rows (libm_cos libm_sin : float -> float) (y : Z) :
  (16 <= y <= 44)%Z ->
  @actual_half (ieee libm_cos libm_sin) 32 48 y = Ok (half_table y).
Proof.
  intros Hy.
  assert (Hcases : (y = 16 \/ y = 17 \/ y = 18 \/ y = 19 \/ y = 20 \/
                    y = 21 \/ y = 22 \/ y = 23 \/ y = 24 \/ y = 25 \/
                    y = 26 \/ y = 27 \/ y = 28 \/ y = 29 \/ y = 30 \/
                    y = 31 \/ y = 32 \/ y = 33 \/ y = 34 \/ y = 35 \/
                    y = 36 \/ y = 37 \/ y = 38 \/ y = 39 \/ y = 40 \/
                    y = 41 \/ y = 42 \/ y = 43 \/ y = 44)%Z) by lia.
  repeat (destruct Hcases as [->|Hcases]; [|try subst y]);
    vm_compute; reflexivity.
Qed.

(** Stand-ins for the platform's [cos] and [sin]: Taylor polynomials after
    reduction to [-pi, pi]. *)
Definition reduce (x : float) : float :=
  let two_pi := (2 * IEEE.pi)%float in
  if (IEEE.pi <? x)%float then (x - two_pi)%float else x.

Definition series_cos (x : float) : float :=
  let y := reduce x in
  let y2 := (y * y)%float in
  (1 - y2 / 2 * (1 - y2 / 12 * (1 - y2 / 30 * (1 - y2 / 56 * (1 - y2 / 90
     * (1 - y2 / 132 * (1 - y2 / 182 * (1 - y2 / 240))))))))%float.

Definition series_sin (x : float) : float :=
  let y := reduce x in
  let y2 := (y * y)%float in
  (y * (1 - y2 / 6 * (1 - y2 / 20 * (1 - y2 / 42 * (1 - y2 / 72 * (1 - y2 / 110
     * (1 - y2 / 156 * (1 - y2 / 210 * (1 - y2 / 272)))))))))%float.

Definition binary64 : PyFloat := ieee series_cos series_sin.

(** With these, the toe rows come out as over the reals too. *)
Example ieee_toe_rows :
  map (@actual_half binary64 32 48) (range 3 16)
  = map (fun y => Ok (half_table y)) (range 3 16).
Proof. vm_compute. reflexivity. Qed.

(** A linear congruential generator on binary64. *)
Definition next (s : Z) : Z := ((s * 1103515245 + 12345) mod 2147483648)%Z.
Definition unit_draw (s : Z) : float :=
  (IEEE.of_Z (next s) / IEEE.of_Z 2147483648)%float.

Definition lcg64 : @PyRandom binary64 :=
  @Build_PyRandom binary64 Z
    (fun n => n)
    (fun s => (unit_draw s, next s))
    (fun a b s => ((a + (b - a) * unit_draw s)%float, next s))
    (fun a b s => ((a + next s mod (b - a + 1))%Z, next s)).

Definition start : @World binary64 lcg64 :=
  mkWorld (RM := lcg64) 0%Z (fun _ => None) (fun _ => true) [].

(** One run of [create_boot_print] on binary64: texels of the toe row, of
    the first tread gap and of the arch, by their alpha. *)
Example ieee_run_samples :
  match fst (create_boot_print 32 48 right_path start) with
  | Ok img =>
      map (fun xy => alpha (im_px img (fst xy) (snd xy)))
          [(2, 3); (3, 3); (16, 3); (29, 3); (30, 3);
           (4, 6); (6, 6); (26, 6); (28, 6); (16, 18); (16, 24)]%Z
  | Raise _ => []
  end
  = [0; 255; 255; 255; 0; 255; 0; 0; 255; 0; 255]%Z.
Proof. vm_compute. reflexivity. Qed.
End IEEECheck.

(** * The claims *)

(** ** The profile *)

Module ProfileClaims.
Import RealProfile.
Local Open Scope R_scope.

(** A linear ramp from [v_lo] at [lo] to [v_hi] at [hi]. *)
Definition ramp (lo hi v_lo v_hi r : R) : R :=
  v_lo + (v_hi - v_lo) * ((r - lo) / (hi - lo)).

(** The band table of the profile, as the specification words it: [v] is the
    profile of [r] when [r] lies in one of the four bands (lower edge
    included, upper edge excluded, the last band closed at 1) and [v] is what
    that band prescribes. *)
Definition band_table (r v : R) : Prop :=
  (0 <= r < 0.30 /\ v = 0.90 + 0.10 * cos (r / 0.30 * (PI / 2))) \/
  (0.30 <= r < 0.50 /\ v = ramp 0.30 0.50 0.90 0.65 r) \/
  (0.50 <= r < 0.60 /\ v = 0.65) \/
  (0.60 <= r <= 1.0 /\ v = ramp 0.60 1.0 0.65 0.95 r).

(** C2.  On [0, 1] the value [get_width_factor] returns is the one, and the
    only one, the band table gives. *)
Theorem profile_follows_band_table (r : R) :
  0 <= r <= 1 ->
  forall v, band_table r v <-> v = @get_width_factor real r.
Proof.
  intros Hr v. rewrite get_width_factor_real. unfold band_table, ramp.
  replace (r / 0.30 * PI / 2) with (r / 0.30 * (PI / 2)) by (unfold Rdiv; ring).
  destruct (Rlt_dec r 0.30) as [H1|H1];
    [|destruct (Rlt_dec r 0.50) as [H2|H2];
      [|destruct (Rlt_dec r 0.60) as [H3|H3]]].
  - split.
    + intros [[_ E]|[[A _]|[[A _]|[A _]]]]; [exact E|lra..].
    + intros ->. left. split; [lra|reflexivity].
  - split.
    + intros [[A _]|[[_ E]|[[A _]|[A _]]]]; [lra| |lra..]. rewrite E. lra.
    + intros ->. right; left. split; lra.
  - split.
    + intros [[A _]|[[A _]|[[_ E]|[A _]]]]; [lra|lra|exact E|lra].
    + intros ->. right; right; left. split; lra.
  - split.
    + intros [[A _]|[[A _]|[[A _]|[_ E]]]]; [lra..|]. rewrite E. lra.
    + intros ->. right; right; right. split; lra.
Qed.

Lemma profile_follows_band_table_witness :
  band_table 0.55 0.65 <-> 0.65 = @get_width_factor real 0.55.
Proof. apply (@profile_follows_band_table 0.55). lra. Defined.

Lemma profile_nonincreasing a b :
  0 <= a -> a <= b -> b <= 0.60 ->
  @get_width_factor real b <= @get_width_factor real a.
Proof.
  intros H0 Hab Hb. rewrite !get_width_factor_real.
  destruct (Rlt_dec a 0.30) as [A1|A1].
  - pose proof (@toe_cos_nonneg a H0 (Rlt_le _ _ A1)) as Ca.
    destruct (Rlt_dec b 0.30) as [B1|B1].
    + assert (cos (b / 0.30 * PI / 2) <= cos (a / 0.30 * PI / 2)).
      { pose proof (@toe_arg_range a H0 (Rlt_le _ _ A1)).
        pose proof (@toe_arg_range b (Rle_trans _ _ _ H0 Hab) (Rlt_le _ _ B1)).
        pose proof PI_RGT_0.
        apply cos_decr_1; try lra.
        assert (a / 0.30 <= b / 0.30) by lra. nra. }
      lra.
    + destruct (Rlt_dec b 0.50); [lra|]. destruct (Rlt_dec b 0.60); lra.
  - destruct (Rlt_dec b 0.30); [lra|].
    destruct (Rlt_dec a 0.50), (Rlt_dec b 0.50); try lra;
      destruct (Rlt_dec a 0.60), (Rlt_dec b 0.60); lra.
Qed.

Lemma profile_nondecreasing a b :
  0.60 <= a -> a <= b ->
  @get_width_factor real a <= @get_width_factor real b.
Proof.
  intros H0 Hab. rewrite !get_width_factor_real.
  destruct (Rlt_dec a 0.30); [lra|]. destruct (Rlt_dec b 0.30); [lra|].
  destruct (Rlt_dec a 0.50); [lra|]. destruct (Rlt_dec b 0.50); [lra|].
  destruct (Rlt_dec a 0.60); [lra|]. destruct (Rlt_dec b 0.60); lra.
Qed.

Lemma profile_continuous_at_toe_end :
  continuity_pt (@get_width_factor real) 0.30.
Proof.
  pose proof toe_formula_continuous as C1.
  assert (V1 : 0.90 + 0.10 * cos (0.30 / 0.30 * PI / 2) = 0.90).
  { replace (0.30 / 0.30 * PI / 2) with (PI / 2) by lra. rewrite cos_PI2. lra. }
  assert (V : @get_width_factor real 0.30 = 0.90).
  { rewrite get_width_factor_real.
    destruct (Rlt_dec 0.30 0.30); [lra|]. destruct (Rlt_dec 0.30 0.50); lra. }
  intros eps Heps.
  destruct (C1 eps Heps) as [d1 [Hd1 H1]].
  exists (Rmin d1 (Rmin 0.1 (eps / 2))). split.
  - apply Rmin_Rgt_r. split; [exact Hd1|]. apply Rmin_Rgt_r. lra.
  - intros x [Hx Hdist]. simpl in *. unfold Rdist in *.
    assert (Hx1 : Rabs (x - 0.30) < d1)
      by (eapply Rlt_le_trans; [exact Hdist|apply Rmin_l]).
    assert (Hx2 : Rabs (x - 0.30) < 0.1).
    { eapply Rlt_le_trans; [exact Hdist|].
      eapply Rle_trans; [apply Rmin_r|apply Rmin_l]. }
    assert (Hx3 : Rabs (x - 0.30) < eps / 2).
    { eapply Rlt_le_trans; [exact Hdist|].
      eapply Rle_trans; [apply Rmin_r|apply Rmin_r]. }
    rewrite V. rewrite get_width_factor_real.
    destruct (Rlt_dec x 0.30) as [L|L].
    + specialize (H1 x (conj Hx Hx1)). rewrite V1 in H1. exact H1.
    + apply Rabs_def2 in Hx2. apply Rabs_def2 in Hx3.
      destruct (Rlt_dec x 0.50); [|lra].
      apply Rabs_def1; lra.
Qed.

(** C6.  The profile has no jump at 0.30: the toe formula reaches 0.90
    there, which is the value of the upper-arch formula, and the profile is
    continuous at that point.  It does not increase on [0, 0.60] and does
    not decrease on [0.60, 1]. *)
Theorem profile_continuous_and_monotone :
  0.90 + 0.10 * cos (0.30 / 0.30 * PI / 2) = 0.90 /\
  @get_width_factor real 0.30 = 0.90 /\
  continuity_pt (@get_width_factor real) 0.30 /\
  (forall a b, 0 <= a -> a <= b -> b <= 0.60 ->
               @get_width_factor real b <= @get_width_factor real a) /\
  (forall a b, 0.60 <= a -> a <= b -> b <= 1 ->
               @get_width_factor real a <= @get_width_factor real b).
Proof.
  split; [|split; [|split; [|split]]].
  - replace (0.30 / 0.30 * PI / 2) with (PI / 2) by lra. rewrite cos_PI2. lra.
  - rewrite get_width_factor_real.
    destruct (Rlt_dec 0.30 0.30); [lra|]. destruct (Rlt_dec 0.30 0.50); lra.
  - apply profile_continuous_at_toe_end.
  - intros a b. apply profile_nonincreasing.
  - intros a b H0 Hab _. apply profile_nondecreasing; assumption.
Qed.

Lemma profile_continuous_and_monotone_witness :
  @get_width_factor real 0.40 <= @get_width_factor real 0.20 /\
  @get_width_factor real 0.70 <= @get_width_factor real 0.90.
Proof.
  split.
  - apply (proj1 (proj2 (proj2 (proj2 profile_continuous_and_monotone))));
      lra.
  - apply (proj2 (proj2 (proj2 (proj2 profile_continuous_and_monotone))));
      lra.
Defined.
End ProfileClaims.

Module GeneratorClaims.
Import BootPrint PassFacts Pass3Facts Pass4Facts Generate RunFacts.
Import OutcomeFacts RealRows.

(** * The pair of textures *)

(** [left] is [right] reflected about the vertical axis of the canvas. *)
Definition mirror_images (left right : Image) : Prop :=
  im_width left = im_width right /\ im_height left = im_height right /\
  forall x y, in_bounds left x y = true ->
              getpixel left (x, y) = getpixel right (im_width right - 1 - x, y)%Z.

Lemma flip_is_mirror (img : Image) : mirror_images (flip_left_right img) img.
Proof.
  split; [reflexivity|]. split; [reflexivity|].
  intros x y Hb. unfold getpixel. rewrite Hb.
  assert (Hb' : in_bounds img (im_width img - 1 - x) y = true).
  { apply in_bounds_iff. apply in_bounds_iff in Hb. simpl in Hb. lia. }
  rewrite Hb'. reflexivity.
Qed.

Lemma paths_differ : String.eqb left_path right_path = false.
Proof. reflexivity. Qed.

Section Pair.
Context {FM : PyFloat} {RM : PyRandom}.

(** What [create_left_right_boot_prints] does, given the outcome of the
    synthesis. *)
Lemma pair_outcome :
  exists synth : result Image,
    forall w, exists w',
      create_left_right_boot_prints w =
      (match synth with
       | Ok img => if w_writable w right_path
                   then if w_writable w left_path then Ok tt else Raise OSError
                   else Raise OSError
       | Raise e => Raise e
       end, w') /\
      w_files w' right_path =
      match synth with
      | Ok img => if w_writable w right_path then Some img
                  else w_files w right_path
      | Raise _ => w_files w right_path
      end /\
      w_files w' left_path =
      match synth with
      | Ok img => if w_writable w right_path && w_writable w left_path
                  then Some (flip_left_right img)
                  else w_files w left_path
      | Raise _ => w_files w left_path
      end.
Proof.
  destruct (BoundsFacts.create_boot_print_sized_outcome 32 48)
    as [synth [Hsz H]].
  exists synth. intros w. destruct (H right_path w) as [w1 [E [Hwr Hf]]].
  unfold create_left_right_boot_prints, mbind at 1. rewrite E.
  unfold returned. unfold stored in Hf.
  destruct synth as [img|e].
  - assert (N : is_empty img = false /\ is_empty (flip_left_right img) = false).
    { destruct (Hsz img eq_refl) as [Sw Sh]. unfold is_empty. simpl.
      rewrite Sw, Sh. split; reflexivity. }
    destruct N as [N Nf]. rewrite N in *.
    destruct (w_writable w right_path) eqn:Wr; cbn [andb negb] in Hf.
    + unfold mbind, Image_transpose_flip, Image_save.
      cbn [w_rng w_files w_writable w_buffers]. rewrite Hwr, Nf.
      destruct (w_writable w left_path) eqn:Wl.
      * eexists. split; [reflexivity|]. cbn [w_files]. rewrite Hf.
        assert (P2 : String.eqb right_path left_path = false) by reflexivity.
        rewrite P2, String.eqb_refl. simpl. auto.
      * eexists. split; [reflexivity|]. cbn [w_files]. rewrite Hf.
        rewrite String.eqb_refl, paths_differ. simpl. auto.
    + exists w1. split; [reflexivity|]. rewrite Hf. simpl. auto.
  - exists w1. split; [reflexivity|]. rewrite Hf. auto.
Qed.
End Pair.

(** The rounded variant: both calls return, and [main] stores what they
    returned. *)
Lemma rounded_returns {PD : PilDraw} (is_left : bool) :
  exists img, Rounded.create_boot_print is_left = Ok img /\
              is_empty img = false.
Proof.
  destruct is_left; vm_compute; eexists; (split; [reflexivity|]);
    reflexivity.
Qed.

Lemma rounded_main_stores {FM : PyFloat} {RM : PyRandom} {PD : PilDraw}
      (w w' : World) :
  Rounded.main w = (Ok tt, w') ->
  exists left right,
    Rounded.create_boot_print true = Ok left /\
    Rounded.create_boot_print false = Ok right /\
    w_files w' Rounded.left_path = Some left /\
    w_files w' Rounded.right_path = Some right.
Proof.
  destruct (rounded_returns true) as [l [El Nl]].
  destruct (rounded_returns false) as [r [Er Nr]].
  intros H. unfold Rounded.main, mbind, lift, Image_save in H.
  rewrite El, Er, Nl, Nr in H. exists l, r.
  split; [exact El|]. split; [exact Er|]. clear El Er.
  cbn [w_rng w_files w_writable w_buffers] in H.
  destruct (w_writable w Rounded.left_path); [|discriminate H].
  cbn [w_rng w_files w_writable w_buffers] in H.
  destruct (w_writable w Rounded.right_path); [|discriminate H].
  injection H as <-. cbn [w_files]. split.
  - change (String.eqb Rounded.left_path Rounded.right_path) with false.
    rewrite String.eqb_refl. reflexivity.
  - rewrite String.eqb_refl. reflexivity.
Qed.

(** C1 (amended).  In generate_boot_print.py the stored left texture is the
    stored right texture reflected: whenever the pair is emitted, the file of
    the left foot holds [flip_left_right] of the image in the file of the
    right foot, so every texel [(x, y)] of the left equals texel
    [(width - 1 - x, y)] of the right.  In create_rounded_boot_prints.py the
    two files hold what two separate calls of [create_boot_print] returned,
    one with [is_left] true and one with [is_left] false. *)
Theorem left_texture_origin :
  (forall (FM : PyFloat) (RM : PyRandom) (w w' : World),
      create_left_right_boot_prints w = (Ok tt, w') ->
      exists right left,
        w_files w' right_path = Some right /\
        w_files w' left_path = Some left /\
        left = flip_left_right right /\
        mirror_images left right) /\
  (forall (FM : PyFloat) (RM : PyRandom) (PD : PilDraw) (w w' : World),
      Rounded.main w = (Ok tt, w') ->
      exists left right,
        Rounded.create_boot_print true = Ok left /\
        Rounded.create_boot_print false = Ok right /\
        w_files w' Rounded.left_path = Some left /\
        w_files w' Rounded.right_path = Some right).
Proof.
  split.
  - intros FM RM w w' Hrun. destruct pair_outcome as [synth H].
    destruct (H w) as [w1 [E [Fr Fl]]]. rewrite Hrun in E.
    injection E as E Ew. subst w1.
    destruct synth as [img|e]; [|discriminate E].
    destruct (w_writable w right_path); [|discriminate E].
    destruct (w_writable w left_path); [|discriminate E].
    exists img, (flip_left_right img). simpl in Fl.
    repeat split; auto; apply flip_is_mirror.
  - intros FM RM PD w w'. apply rounded_main_stores.
Qed.

(** ** The pair over the reals *)

Section RealPair.
Context {RM : @PyRandom real}.

Lemma real_pair_runs :
  exists img : Image,
    forall w : World,
      w_writable w right_path = true ->
      exists w',
        create_left_right_boot_prints w
        = (if w_writable w left_path then Ok tt else Raise OSError, w') /\
        w_files w' right_path = Some img /\
        w_files w' left_path =
        (if w_writable w left_path then Some (flip_left_right img)
         else w_files w left_path).
Proof.
  destruct (@create_boot_print_runs RM 32 48) as
      [i1 [i2 [i3 [img [g' [_ [[S1 _] [_ [[S2 _] [_ [[S3 _] [_ [[S4 _]
       Hrun]]]]]]]]]]]]];
    [apply real_rows_ok; lia|lia|lia|].
  assert (N : is_empty (flip_left_right img) = false).
  { destruct S1 as [A1 B1], S2 as [A2 B2], S3 as [A3 B3], S4 as [A4 B4].
    unfold is_empty. simpl in *.
    rewrite A4, A3, A2, A1, B4, B3, B2, B1. reflexivity. }
  exists img. intros w Wr.
  unfold create_left_right_boot_prints, mbind at 1.
  rewrite Hrun. unfold world_after. rewrite Wr.
  unfold mbind, Image_transpose_flip, Image_save.
  cbn [w_rng w_files w_writable w_buffers]. rewrite N.
  destruct (w_writable w left_path); eexists;
    (split; [reflexivity|]); cbn [w_files];
    rewrite ?String.eqb_refl, ?paths_differ;
    change (String.eqb right_path left_path) with false;
    rewrite ?String.eqb_refl; auto.
Qed.
End RealPair.

(** Worlds used to run the scripts: nothing stored, everything writable. *)
Definition fresh_world (g : Z) : @World real TestRandom.lcg :=
  mkWorld (RM := TestRandom.lcg) g (fun _ => None) (fun _ => true) [].

(** The emitter run on the reals from a fresh world. *)
Lemma left_texture_origin_witness :
  exists w' right left,
    create_left_right_boot_prints (fresh_world 0) = (Ok tt, w') /\
    w_files w' right_path = Some right /\
    w_files w' left_path = Some left /\
    left = flip_left_right right /\
    mirror_images left right.
Proof.
  destruct (@real_pair_runs TestRandom.lcg) as [img H].
  destruct (H (fresh_world 0) eq_refl) as [w' [E _]].
  exists w'.
  destruct (proj1 left_texture_origin real TestRandom.lcg
                  (fresh_world 0) w' E) as [r [l P]].
  exists r, l. split; [exact E|exact P].
Defined.

(** ** The rounded variant draws each foot on its own *)

(** C1 (counterexample).  In create_rounded_boot_prints.py the two feet are
    two runs of [create_boot_print]; whatever the ellipse rasteriser, texel
    (9, 22) of the left is empty while its mirror texel (12, 22) of the right
    is filled, so the pair is not a mirror pair. *)
Lemma rounded_pair_is_not_mirrored :
  ~ exists (PD : PilDraw) (left right : Image),
      Rounded.create_boot_print true = Ok left /\
      Rounded.create_boot_print false = Ok right /\
      mirror_images left right.
Proof.
  intros [[covers Hbox] [l [r [El [Er [_ [_ M]]]]]]].
  vm_compute in El. vm_compute in Er.
  injection El as <-. injection Er as <-.
  specialize (M 9%Z 22%Z eq_refl).
  vm_compute in M.
  repeat match type of M with
         | context [covers (?a, ?b, ?c, ?d) ?x ?y] =>
             let E := fresh "E" in
             destruct (covers (a, b, c, d) x y) eqn:E;
             [apply Hbox in E; lia|]
         end.
  discriminate M.
Qed.

(** * Determinism *)

(** C3.  Two runs of the emitter, from any two worlds (any state of the
    global generator, any files already there), that both complete store the
    same two pixel buffers. *)
Theorem same_parameters_same_textures
        {FM : PyFloat} {RM : PyRandom} (w1 w2 w1' w2' : World) :
  create_left_right_boot_prints w1 = (Ok tt, w1') ->
  create_left_right_boot_prints w2 = (Ok tt, w2') ->
  exists right left,
    w_files w1' right_path = Some right /\ w_files w2' right_path = Some right /\
    w_files w1' left_path = Some left /\ w_files w2' left_path = Some left.
Proof.
  intros R1 R2. destruct pair_outcome as [synth H].
  destruct (H w1) as [u1 [E1 [Fr1 Fl1]]]. rewrite R1 in E1.
  destruct (H w2) as [u2 [E2 [Fr2 Fl2]]]. rewrite R2 in E2.
  injection E1 as E1 Eu1. injection E2 as E2 Eu2. subst u1 u2.
  destruct synth as [img|e]; [|discriminate E1].
  destruct (w_writable w1 right_path); [|discriminate E1].
  destruct (w_writable w1 left_path); [|discriminate E1].
  destruct (w_writable w2 right_path); [|discriminate E2].
  destruct (w_writable w2 left_path); [|discriminate E2].
  exists img, (flip_left_right img). simpl in Fl1, Fl2. auto.
Qed.

(** A world that differs from [fresh_world]: another generator state, files
    already present, buffers already allocated. *)
Definition used_world : @World real TestRandom.lcg :=
  mkWorld (RM := TestRandom.lcg) 20250101%Z
          (fun _ => Some (blank 1 1 (255, 255, 255, 255)%Z))
          (fun _ => true) [(22, 40)%Z].

Lemma same_parameters_same_textures_witness :
  exists w1' w2' right left,
    create_left_right_boot_prints (fresh_world 0) = (Ok tt, w1') /\
    create_left_right_boot_prints used_world = (Ok tt, w2') /\
    w_files w1' right_path = Some right /\ w_files w2' right_path = Some right /\
    w_files w1' left_path = Some left /\ w_files w2' left_path = Some left.
Proof.
  destruct (@real_pair_runs TestRandom.lcg) as [img H].
  destruct (H (fresh_world 0) eq_refl) as [w1' [E1 _]].
  destruct (H used_world eq_refl) as [w2' [E2 _]].
  exists w1', w2'.
  destruct (@same_parameters_same_textures real TestRandom.lcg
              (fresh_world 0) used_world w1' w2' E1 E2) as [r [l P]].
  exists r, l. split; [exact E1|]. split; [exact E2|exact P].
Defined.

(** * Canvas too small *)

(** C8 (amended).  There is no check of the dimensions.  When the height is
    at most twice the vertical margin, the buffer is allocated, the first
    three passes have no row to visit, and the run stops with the
    [ValueError] of [random.randint] on an empty range, before anything is
    saved. *)
Theorem short_canvas_fails_after_allocation
        {FM : PyFloat} {RM : PyRandom} (width height : Z) (path : string)
        (w : World) :
  (0 <= width)%Z -> (0 <= height <= 6)%Z ->
  exists w',
    create_boot_print width height path w = (Raise ValueError, w') /\
    w_buffers w' = (width, height) :: w_buffers w /\
    w_files w' = w_files w.
Proof.
  intros Hw Hh. destruct (short_canvas_fails Hw Hh) as [g' H].
  eexists. split; [apply H|]. split; reflexivity.
Qed.

Lemma short_canvas_fails_after_allocation_witness :
  exists w',
    create_boot_print 32 5 "boot_print.png" (fresh_world 0)
    = (Raise ValueError, w') /\
    w_buffers w' = (32, 5)%Z :: w_buffers (fresh_world 0) /\
    w_files w' = w_files (fresh_world 0).
Proof.
  apply (@short_canvas_fails_after_allocation real TestRandom.lcg 32 5);
    lia.
Defined.

(** C8 (counterexample).  With height 4, less than twice the margin, the run
    fails only after a 32 x 4 buffer has been allocated, and with a
    [ValueError] of the random module. *)
Lemma short_canvas_allocates_first :
  exists w',
    create_boot_print 32 4 "boot_print.png" (fresh_world 0)
    = (Raise ValueError, w') /\
    w_buffers (fresh_world 0) = [] /\
    w_buffers w' = [(32, 4)%Z].
Proof.
  destruct (@short_canvas_fails real TestRandom.lcg 32 4) as [g' H]; [lia|lia|].
  eexists. split; [apply H|]. split; reflexivity.
Qed.

(** * Persistence *)

(** C9 (amended).  The two saves happen one after the other, the right foot
    first.  Starting with neither file, a run ends with both files (and
    returns), with neither, or with the right one alone (and raises); the
    left file is never there without the right. *)
Theorem left_never_saved_alone
        {FM : PyFloat} {RM : PyRandom} (w : World) :
  w_files w right_path = None -> w_files w left_path = None ->
  let '(r, w') := create_left_right_boot_prints w in
  (r = Ok tt /\ w_files w' right_path <> None /\ w_files w' left_path <> None)
  \/ (exists e, r = Raise e /\
                w_files w' right_path = None /\ w_files w' left_path = None)
  \/ (r = Raise OSError /\
      w_files w' right_path <> None /\ w_files w' left_path = None).
Proof.
  intros Nr Nl. destruct pair_outcome as [synth H].
  destruct (H w) as [w' [E [Fr Fl]]]. rewrite E.
  destruct synth as [img|e].
  - destruct (w_writable w right_path).
    + destruct (w_writable w left_path); simpl in Fl.
      * left. rewrite Fr, Fl. repeat split; discriminate.
      * right; right. rewrite Fr, Fl. repeat split; [discriminate|exact Nl].
    + right; left. exists OSError. rewrite Fr, Fl. simpl. auto.
  - right; left. exists e. rewrite Fr, Fl. auto.
Qed.

Lemma left_never_saved_alone_witness :
  let '(r, w') := create_left_right_boot_prints (fresh_world 0) in
  (r = Ok tt /\ w_files w' right_path <> None /\ w_files w' left_path <> None)
  \/ (exists e, r = Raise e /\
                w_files w' right_path = None /\ w_files w' left_path = None)
  \/ (r = Raise OSError /\
      w_files w' right_path <> None /\ w_files w' left_path = None).
Proof.
  apply (@left_never_saved_alone real TestRandom.lcg (fresh_world 0));
    reflexivity.
Defined.

(** A world where the left texture cannot be written. *)
Definition left_locked_world : @World real TestRandom.lcg :=
  mkWorld (RM := TestRandom.lcg) 0%Z (fun _ => None)
          (fun p => negb (String.eqb p left_path)) [].

(** C9 (counterexample).  When the second save fails, the run ends with the
    right texture on disk and no left texture. *)
Lemma right_texture_saved_alone :
  exists w' right,
    create_left_right_boot_prints left_locked_world = (Raise OSError, w') /\
    w_files w' right_path = Some right /\
    w_files w' left_path = None.
Proof.
  destruct (@real_pair_runs TestRandom.lcg) as [img H].
  destruct (H left_locked_world eq_refl) as [w' [E [Fr Fl]]].
  exists w', img. split; [exact E|]. split; [exact Fr|exact Fl].
Qed.

(** * Alpha levels *)

(** C10.  Whatever the float arithmetic, the generator, the size of the
    canvas and the world: every texel of an image that [create_boot_print]
    returns is the transparent sentinel (alpha 0), a droplet (alpha 150), or
    the fill or edge colour (alpha 255). *)
Theorem final_alpha_levels
        {FM : PyFloat} {RM : PyRandom} (width height : Z) (path : string)
        (w w' : World) (img : Image) :
  create_boot_print width height path w = (Ok img, w') ->
  forall x y,
    (im_px img x y = transparent /\ alpha (im_px img x y) = 0%Z) \/
    (im_px img x y = droplet /\ alpha (im_px img x y) = 150%Z) \/
    ((im_px img x y = blood_main \/ im_px img x y = blood_edge) /\
     alpha (im_px img x y) = 255%Z).
Proof.
  intros E x y.
  destruct (@CallReturns.create_boot_print_passes _ _ _ _ _ _ _ _ E)
    as [i1 [i2 [i3 [[_ P1] [[_ P2] [R3 [_ P4]]]]]]].
  destruct (recolours_shades R3) as [_ P3].
  destruct (P4 x y) as [E4|[_ [_ E4]]]; [|rewrite E4; right; left; auto].
  rewrite E4.
  destruct (P3 x y) as [E3|[_ E3]];
    [|rewrite E3; right; right; split; [right|]; reflexivity].
  rewrite E3.
  destruct (P2 x y) as [[_ E2]|[_ E2]]; [rewrite E2; left; auto|].
  rewrite E2.
  destruct (P1 x y) as [[_ E1]|[_ E1]]; rewrite E1.
  - right; right. split; [left|]; reflexivity.
  - left. auto.
Qed.

Lemma final_alpha_levels_witness :
  exists img w',
    create_boot_print 32 48 right_path (fresh_world 0) = (Ok img, w') /\
    forall x y,
      (im_px img x y = transparent /\ alpha (im_px img x y) = 0%Z) \/
      (im_px img x y = droplet /\ alpha (im_px img x y) = 150%Z) \/
      ((im_px img x y = blood_main \/ im_px img x y = blood_edge) /\
       alpha (im_px img x y) = 255%Z).
Proof.
  destruct (@create_boot_print_runs TestRandom.lcg 32 48)
    as [i1 [i2 [i3 [i4 [g' [_ [_ [_ [_ [_ [_ [_ [_ Hrun]]]]]]]]]]]]];
    [apply real_rows_ok; lia|lia|lia|].
  exists i4. eexists.
  assert (E : create_boot_print 32 48 right_path (fresh_world 0)
              = (Ok i4,
                 mkWorld g'
                   (fun p => if String.eqb p right_path then Some i4
                             else None)
                   (fun _ => true) [(32, 48)%Z])).
  { rewrite Hrun. reflexivity. }
  split; [exact E|].
  exact (@final_alpha_levels real TestRandom.lcg 32 48 _ _ _ _ E).
Defined.

(** * Splatter *)

Lemma texels_same_size (img img' : Image) :
  same_size img img' -> texels img' = texels img.
Proof. intros [Hw Hh]. unfold texels. rewrite Hw, Hh. reflexivity. Qed.

(** C5.  Whatever the float arithmetic, the generator, the size of the
    canvas and the buffer: when the fourth pass returns, a texel whose alpha
    was not 0 has kept its value; a texel that changed lay inside the buffer,
    had alpha 0, and now holds the fill colour's red, green and blue at alpha
    150; and the number of fully opaque texels has not gone down. *)
Theorem splatter_respects_occupancy
        {FM : PyFloat} {RM : PyRandom} (width height : Z) (img img' : Image)
        (w w' : World) :
  pass4 width height img w = (Ok img', w') ->
  (forall x y, alpha (im_px img x y) <> 0%Z ->
               im_px img' x y = im_px img x y) /\
  (forall x y, im_px img' x y <> im_px img x y ->
               in_bounds img x y = true /\
               alpha (im_px img x y) = 0%Z /\
               im_px img' x y = (fst blood_main, 150%Z)) /\
  (solid_count img <= solid_count img')%nat.
Proof.
  intros E.
  destruct (@SplatterReturns.pass4_returns _ _ _ _ _ _ _ _ E) as [[Hs P] _].
  split; [|split].
  - intros x y Ha. destruct (P x y) as [Eq|[Z0 _]]; [exact Eq|contradiction].
  - intros x y Hne. destruct (P x y) as [Eq|[Z0 [B D]]]; [contradiction|].
    auto.
  - unfold solid_count. rewrite (texels_same_size Hs).
    apply filter_count_le. intros [x y] _. unfold is_solid. simpl.
    destruct (P x y) as [Eq|[Z0 _]]; [rewrite Eq; auto|].
    rewrite Z0. discriminate.
Qed.

(** A buffer whose left half is solid. *)
Definition half_solid : Image :=
  mkImage 32 48 (fun x _ => if (x <? 16)%Z then blood_main else transparent).

Lemma splatter_respects_occupancy_witness :
  exists img' w',
    pass4 32 48 half_solid (fresh_world 42) = (Ok img', w') /\
    (forall x y, alpha (im_px half_solid x y) <> 0%Z ->
                 im_px img' x y = im_px half_solid x y) /\
    (forall x y, im_px img' x y <> im_px half_solid x y ->
                 in_bounds half_solid x y = true /\
                 alpha (im_px half_solid x y) = 0%Z /\
                 im_px img' x y = (fst blood_main, 150%Z)) /\
    (solid_count half_solid <= solid_count img')%nat.
Proof.
  destruct (@pass4_splatters TestRandom.lcg 32 48 half_solid
              (fresh_world 42))
    as [img' [w' [E _]]];
    [apply real_rows_ok; lia|lia|split; reflexivity|].
  exists img', w'. split; [exact E|].
  exact (@splatter_respects_occupancy real TestRandom.lcg 32 48 _ _ _ _ E).
Defined.

(** * Tread carving on the 32 x 48 canvas *)

Module Carving.
Local Existing Instance real.

(** From one row to the next the half-width loses at most two texels. *)
Lemma next_row_close (y gap : Z) :
  (3 <= y <= 43)%Z -> (0 <= gap <= 1)%Z ->
  (half_table y - 2 <= half_table (y + gap))%Z.
Proof.
  intros Hy Hg. unfold half_table.
  repeat match goal with
         | |- context [(?a =? ?b)%Z] => destruct (Z.eqb_spec a b); try lia
         | |- context [(?a <=? ?b)%Z] => destruct (Z.leb_spec a b); try lia
         end.
Qed.

Lemma carved_was_filled (x y : Z) :
  pass2_writes 32 48 x y -> pass1_writes 32 48 x y.
Proof.
  intros [ty [gap [a [Hty [Hgap [Hlt [Ea [-> Hx]]]]]]]].
  apply in_range_step in Hty; [|unfold tread_spacing; lia].
  apply in_range in Hgap.
  unfold sole_top, sole_bottom, margin_y, tread_gap in *.
  rewrite canvas_rows in Ea by lia. injection Ea as <-.
  pose proof (@next_row_close ty gap) as Hc.
  split.
  - apply in_range. unfold sole_top, sole_bottom, margin_y. lia.
  - exists (half_table (ty + gap)). split; [apply canvas_rows; lia|].
    unfold center_x in *. change (32 / 2)%Z with 16%Z in *. lia.
Qed.

Lemma centre_of_row_18_carved : pass2_writes 32 48 16 18.
Proof.
  exists 18%Z, 0%Z, 10%Z.
  split; [|split; [|split; [|split; [|split]]]].
  - apply in_range_step; [unfold tread_spacing; lia|].
    unfold sole_top, sole_bottom, margin_y, tread_spacing.
    split; [lia|reflexivity].
  - apply in_range. unfold tread_gap. lia.
  - unfold sole_bottom, margin_y. lia.
  - apply (@canvas_rows 18). lia.
  - reflexivity.
  - unfold center_x. change (32 / 2)%Z with 16%Z. lia.
Qed.
End Carving.

(** ** A canvas on which the carving leaves the fill *)

Module WideCanvas.
Local Open Scope R_scope.

(** Rows 6 and 7 of the 36 x 14 canvas over the reals: half-widths 12
    and 9. *)
Lemma real_rows_36_14 :
  @actual_half real 36 14 6 = Ok 12%Z /\ @actual_half real 36 14 7 = Ok 9%Z.
Proof.
  split; rewrite real_actual_half by lia; f_equal;
    change ((36 - 3 - 3) / 2)%Z with 15%Z; change (14 - 3 - 3)%Z with 8%Z;
    [change (6 - 3)%Z with 3%Z|change (7 - 3)%Z with 4%Z];
    (apply Rtrunc_eq; [lia| |]; band_value).
Qed.

(** The same rows on binary64, whatever [cos] and [sin] are: the profile
    calls neither below the toe band. *)
Lemma ieee_rows_36_14 (libm_cos libm_sin : float -> float) :
  @actual_half (ieee libm_cos libm_sin) 36 14 6 = Ok 12%Z /\
  @actual_half (ieee libm_cos libm_sin) 36 14 7 = Ok 9%Z.
Proof. split; vm_compute; reflexivity. Qed.

(** With these half-widths the second pass writes texel (8, 7), which the
    first pass does not. *)
Lemma gap_row_wider_than_fill {FM : PyFloat} :
  actual_half 36 14 6 = Ok 12%Z -> actual_half 36 14 7 = Ok 9%Z ->
  pass2_writes 36 14 8 7 /\ ~ pass1_writes 36 14 8 7.
Proof.
  intros E6 E7. split.
  - exists 6%Z, 1%Z, 12%Z.
    split; [apply in_range_step; [unfold tread_spacing; lia|];
            unfold sole_top, sole_bottom, margin_y, tread_spacing;
            split; [lia|reflexivity]|].
    split; [apply in_range; unfold tread_gap; lia|].
    split; [unfold sole_bottom, margin_y; lia|].
    split; [exact E6|]. split; [reflexivity|].
    unfold center_x. change (36 / 2)%Z with 18%Z. lia.
  - intros [_ [a [Ea Hx]]]. rewrite E7 in Ea. injection Ea as <-.
    unfold center_x in Hx. change (36 / 2)%Z with 18%Z in Hx. lia.
Qed.
End WideCanvas.

(** C4 (amended).  (1) Whatever the float arithmetic, the size of the canvas
    and the buffer: when the second pass returns, every texel it wrote is
    transparent, every other texel is as it was, a texel that is filled
    afterwards was filled before, and the number of filled texels has not
    gone up.  (2) On the generator's 32 x 48 canvas the second pass returns,
    every texel it writes had been filled by the first pass, and the number
    of filled texels goes down.  That the carving stays inside the fill is a
    fact of that canvas, not of the pass. *)
Theorem tread_carving_stays_inside_fill :
  (forall (FM : PyFloat) (width height : Z) (img img' : Image),
      pass2 width height img = Ok img' ->
      (forall x y, pass2_writes width height x y ->
                   im_px img' x y = transparent) /\
      (forall x y, ~ pass2_writes width height x y ->
                   im_px img' x y = im_px img x y) /\
      (forall x y, is_filled img' (x, y) = true ->
                   is_filled img (x, y) = true) /\
      (filled_count img' <= filled_count img)%nat) /\
  exists img1 img2,
    @pass1 real 32 48 (blank 32 48 (0, 0, 0, 0)%Z) = Ok img1 /\
    @pass2 real 32 48 img1 = Ok img2 /\
    (forall x y, @pass2_writes real 32 48 x y ->
                 im_px img1 x y = blood_main /\ im_px img2 x y = transparent) /\
    (forall x y, ~ @pass2_writes real 32 48 x y ->
                 im_px img2 x y = im_px img1 x y) /\
    (forall x y, is_filled img2 (x, y) = true -> is_filled img1 (x, y) = true) /\
    (filled_count img2 < filled_count img1)%nat.
Proof.
  split.
  { intros FM width height img img' E.
    destruct (@ReturnFacts.pass2_returns_paints _ _ _ _ _ E) as [Hs P].
    assert (Kept : forall x y, is_filled img' (x, y) = true ->
                               is_filled img (x, y) = true).
    { intros x y. unfold is_filled. simpl.
      destruct (P x y) as [[_ Ev]|[_ Ev]]; rewrite Ev; [discriminate|auto]. }
    split; [|split; [|split]].
    - intros x y H2. destruct (P x y) as [[_ Ev]|[N _]]; tauto.
    - intros x y N2. destruct (P x y) as [[H _]|[_ Ev]]; tauto.
    - exact Kept.
    - unfold filled_count. rewrite (texels_same_size Hs).
      apply filter_count_le. intros [x y] _. apply Kept. }
  assert (Hrows : @rows_ok real 32 48) by (apply real_rows_ok; lia).
  set (img0 := blank 32 48 (0, 0, 0, 0)%Z).
  assert (S0 : has_size 32 48 img0) by (split; reflexivity).
  destruct (pass1_paints Hrows S0) as [img1 [E1 P1]].
  assert (S1 : has_size 32 48 img1).
  { destruct P1 as [[? ?] _]. destruct S0. split; congruence. }
  destruct (pass2_paints Hrows S1) as [img2 [E2 P2]].
  exists img1, img2. split; [exact E1|]. split; [exact E2|].
  assert (Filled : forall x y, @pass2_writes real 32 48 x y ->
                               im_px img1 x y = blood_main).
  { intros x y H2. apply Carving.carved_was_filled in H2.
    destruct P1 as [_ P1]. destruct (P1 x y) as [[_ E]|[N _]]; tauto. }
  assert (Kept : forall x y, is_filled img2 (x, y) = true ->
                             is_filled img1 (x, y) = true).
  { intros x y. unfold is_filled. simpl. destruct P2 as [_ P2].
    destruct (P2 x y) as [[_ E]|[_ E]]; rewrite E; [discriminate|auto]. }
  split; [|split; [|split]].
  - intros x y H2. split; [auto|].
    destruct P2 as [_ P2]. destruct (P2 x y) as [[_ E]|[N _]]; tauto.
  - intros x y N2. destruct P2 as [_ P2].
    destruct (P2 x y) as [[H _]|[_ E]]; tauto.
  - exact Kept.
  - unfold filled_count. destruct P2 as [Hs P2].
    rewrite (texels_same_size Hs).
    apply filter_count_lt with (a0 := (16, 18)%Z).
    + intros [x y] _. apply Kept.
    + apply in_texels. apply in_bounds_iff. destruct S1 as [-> ->]. lia.
    + unfold is_filled. simpl.
      destruct (P2 16%Z 18%Z) as [[_ E]|[N _]];
        [rewrite E; reflexivity|].
      exfalso. apply N. apply Carving.centre_of_row_18_carved.
    + unfold is_filled. simpl.
      rewrite (Filled 16%Z 18%Z Carving.centre_of_row_18_carved). reflexivity.
Qed.


(** C4 (counterexample).  On a 36 x 14 canvas the gap rows 6 and 7 are both
    carved with the half-width of row 6, which is 12, while the first pass
    filled row 7 with its own half-width 9: texel (8, 7) is written by the
    second pass and was never filled.  The half-widths are the same on
    binary64, whatever the platform's [cos] and [sin].  And on a 32 x 12
    canvas there is no tread row: the second pass changes nothing, so the
    filled texels after it are no strict subset of those before. *)
Lemma carving_can_leave_the_fill :
  (exists img1 img2,
      @pass1 real 36 14 (blank 36 14 (0, 0, 0, 0)%Z) = Ok img1 /\
      @pass2 real 36 14 img1 = Ok img2 /\
      @pass2_writes real 36 14 8 7 /\
      im_px img1 8%Z 7%Z = (0, 0, 0, 0)%Z /\
      is_filled img1 (8, 7)%Z = false) /\
  (forall libm_cos libm_sin : float -> float,
      @pass2_writes (ieee libm_cos libm_sin) 36 14 8 7 /\
      ~ @pass1_writes (ieee libm_cos libm_sin) 36 14 8 7) /\
  (exists img1 img2,
      @pass1 real 32 12 (blank 32 12 (0, 0, 0, 0)%Z) = Ok img1 /\
      @pass2 real 32 12 img1 = Ok img2 /\
      img2 = img1 /\ filled_count img2 = filled_count img1).
Proof.
  split; [|split].
  - assert (Hrows : @rows_ok real 36 14) by (apply real_rows_ok; lia).
    set (img0 := blank 36 14 (0, 0, 0, 0)%Z).
    assert (S0 : has_size 36 14 img0) by (split; reflexivity).
    destruct (pass1_paints Hrows S0) as [img1 [E1 P1]].
    assert (S1 : has_size 36 14 img1).
    { destruct P1 as [[? ?] _]. destruct S0. split; congruence. }
    destruct (pass2_paints Hrows S1) as [img2 [E2 _]].
    destruct WideCanvas.real_rows_36_14 as [E6 E7].
    destruct (WideCanvas.gap_row_wider_than_fill E6 E7) as [W2 N1].
    assert (V : im_px img1 8%Z 7%Z = (0, 0, 0, 0)%Z).
    { destruct P1 as [_ P1]. destruct (P1 8%Z 7%Z) as [[W1 _]|[_ Ev]];
        [contradiction|exact Ev]. }
    exists img1, img2. split; [exact E1|]. split; [exact E2|].
    split; [exact W2|]. split; [exact V|].
    unfold is_filled. simpl. rewrite V. reflexivity.
  - intros c s. destruct (WideCanvas.ieee_rows_36_14 c s) as [E6 E7].
    exact (WideCanvas.gap_row_wider_than_fill E6 E7).
  - assert (Hrows : @rows_ok real 32 12) by (apply real_rows_ok; lia).
    set (img0 := blank 32 12 (0, 0, 0, 0)%Z).
    assert (S0 : has_size 32 12 img0) by (split; reflexivity).
    destruct (pass1_paints Hrows S0) as [img1 [E1 _]].
    exists img1, img1. split; [exact E1|].
    split; [|split; reflexivity].
    unfold pass2.
    replace (range_step (sole_top + 3) (sole_bottom 12 - 3) tread_spacing)
      with (@nil Z); [reflexivity|].
    symmetry. apply range_step_empty;
      unfold sole_top, sole_bottom, margin_y, tread_spacing; lia.
Qed.

(** * Buffer bounds *)

(** C7 (amended).  (1) For every float arithmetic, every generator, every
    size and every buffer of that size, none of the four passes ends in
    [IndexError]: no texel outside [0, width) x [0, height) is read or
    written.  (2) Nor does a whole call of [create_boot_print], for any
    size.  (3) A pass can end in an error all the same, but only in
    [ValueError] or [OverflowError]: the errors of [int()] on a float that is
    no number and of [random.randint] on an empty range.  (4) The latter
    happens on every canvas at most 6 high: the fourth pass ends in
    [ValueError] while choosing [base_y].  (5) Over the reals, for every
    width and every height of at least 7, the four passes all return, and
    the texels outside the buffer are as [Image.new] left them. *)
Theorem passes_stay_inside_buffer :
  (forall (FM : PyFloat) (RM : PyRandom) (width height : Z) (img : Image)
          (w : World),
      has_size width height img ->
      pass1 width height img <> Raise IndexError /\
      pass2 width height img <> Raise IndexError /\
      pass3 width height img <> Raise IndexError /\
      fst (pass4 width height img w) <> Raise IndexError) /\
  (forall (FM : PyFloat) (RM : PyRandom) (width height : Z) (path : string)
          (w : World),
      fst (create_boot_print width height path w) <> Raise IndexError) /\
  (forall (FM : PyFloat) (RM : PyRandom) (width height : Z) (img : Image)
          (w : World) (e : exn),
      has_size width height img ->
      pass1 width height img = Raise e \/
      pass2 width height img = Raise e \/
      pass3 width height img = Raise e \/
      fst (pass4 width height img w) = Raise e ->
      e = ValueError \/ e = OverflowError) /\
  (forall (FM : PyFloat) (RM : PyRandom) (width height : Z) (img : Image)
          (w : World),
      (height <= 6)%Z ->
      fst (pass4 width height img w) = Raise ValueError) /\
  (forall (RM : @PyRandom real) (width height : Z) (w : World),
      (0 <= width)%Z -> (7 <= height)%Z ->
      exists img1 img2 img3 img4 w',
        @pass1 real width height (blank width height (0, 0, 0, 0)%Z) = Ok img1 /\
        @pass2 real width height img1 = Ok img2 /\
        @pass3 real width height img2 = Ok img3 /\
        pass4 width height img3 w = (Ok img4, w') /\
        forall x y, in_bounds img4 x y = false ->
                    im_px img4 x y = (0, 0, 0, 0)%Z).
Proof.
  assert (NoIndex :
    forall (FM : PyFloat) (RM : PyRandom) (width height : Z) (img : Image)
           (w : World),
      has_size width height img ->
      pass1 width height img <> Raise IndexError /\
      pass2 width height img <> Raise IndexError /\
      pass3 width height img <> Raise IndexError /\
      fst (pass4 width height img w) <> Raise IndexError).
  { intros FM RM width height img w Hsz.
    pose proof (BoundsFacts.pass1_in_buffer Hsz) as H1.
    pose proof (BoundsFacts.pass2_in_buffer Hsz) as H2.
    pose proof (BoundsFacts.pass3_in_buffer Hsz) as H3.
    pose proof (BoundsFacts.pass4_in_buffer w Hsz) as H4.
    repeat split; intros E.
    + rewrite E in H1. apply H1. reflexivity.
    + rewrite E in H2. apply H2. reflexivity.
    + rewrite E in H3. apply H3. reflexivity.
    + rewrite E in H4. apply H4. reflexivity. }
  split; [exact NoIndex|]. split; [|split; [|split]].
  - intros FM RM width height path w.
    apply BoundsFacts.create_boot_print_in_buffer.
  - intros FM RM width height img w e Hsz Hr.
    destruct (NoIndex FM RM width height img w Hsz) as [N1 [N2 [N3 N4]]].
    assert (Hc : conversion_or_access e /\ e <> IndexError).
    { destruct Hr as [Hr|[Hr|[Hr|Hr]]].
      - split; [exact (ErrorFacts.pass1_raises_only width height img Hr)|].
        intros ->. exact (N1 Hr).
      - split; [exact (ErrorFacts.pass2_raises_only width height img Hr)|].
        intros ->. exact (N2 Hr).
      - split; [exact (ErrorFacts.pass3_raises_only width height img Hr)|].
        intros ->. exact (N3 Hr).
      - split; [exact (ErrorFacts.pass4_raises_only width height img w Hr)|].
        intros ->. exact (N4 Hr). }
    destruct Hc as [[Hv|[Ho|Hi]] Hn]; [left; exact Hv|right; exact Ho|].
    contradiction.
  - intros FM RM width height img w Hh.
    apply ErrorFacts.pass4_short_canvas. exact Hh.
  - intros RM width height w Hw Hh.
    assert (Hrows : @rows_ok real width height) by (apply real_rows_ok; lia).
    set (img0 := blank width height (0, 0, 0, 0)%Z).
    assert (S0 : has_size width height img0) by (split; reflexivity).
    destruct (pass1_paints Hrows S0) as [img1 [E1 P1]].
    assert (S1 : has_size width height img1).
    { destruct P1 as [[? ?] _]. destruct S0. split; congruence. }
    destruct (pass2_paints Hrows S1) as [img2 [E2 P2]].
    assert (S2 : has_size width height img2).
    { destruct P2 as [[? ?] _]. destruct S1. split; congruence. }
    destruct (pass3_shades Hrows S2) as [img3 [E3 P3]].
    assert (S3 : has_size width height img3).
    { destruct P3 as [[? ?] _]. destruct S2. split; congruence. }
    destruct (pass4_splatters w Hrows Hh S3)
      as [img4 [w' [E4 P4]]].
    exists img1, img2, img3, img4, w'. repeat (split; [assumption|]).
    intros x y Hout.
    assert (S4 : has_size width height img4).
    { destruct P4 as [[? ?] _]. destruct S3. split; congruence. }
    assert (Hout3 : in_bounds img3 x y = false).
    { unfold in_bounds in *. destruct S3 as [-> ->]. destruct S4 as [<- <-].
      exact Hout. }
    destruct P4 as [_ P4].
    destruct (P4 x y) as [E|[_ [B _]]]; [rewrite E|congruence].
    destruct P3 as [_ P3], P2 as [_ P2], P1 as [_ P1].
    assert (V1 : im_px img1 x y = (0, 0, 0, 0)%Z).
    { destruct (P1 x y) as [[[Hy [a [_ Hx]]] _]|[_ E1']]; [|exact E1'].
      exfalso. apply in_range in Hy.
      unfold sole_top, sole_bottom, margin_y in Hy.
      assert (in_bounds img3 x y = true); [|congruence].
      apply in_bounds_iff. destruct S3 as [-> ->]. lia. }
    assert (V2 : im_px img2 x y = (0, 0, 0, 0)%Z).
    { destruct (P2 x y) as [[_ E2']|[_ E2']]; [exact E2'|congruence]. }
    destruct (P3 x y) as [E3'|[A3 _]]; [congruence|].
    rewrite V2 in A3. simpl in A3. lia.
Qed.

Lemma passes_stay_inside_buffer_witness :
  exists img1 img2 img3 img4 w',
    @pass1 real 32 48 (blank 32 48 (0, 0, 0, 0)%Z) = Ok img1 /\
    @pass2 real 32 48 img1 = Ok img2 /\
    @pass3 real 32 48 img2 = Ok img3 /\
    pass4 32 48 img3 (fresh_world 0) = (Ok img4, w') /\
    forall x y, in_bounds img4 x y = false ->
                im_px img4 x y = (0, 0, 0, 0)%Z.
Proof.
  apply (proj2 (proj2 (proj2 (proj2 passes_stay_inside_buffer)))
               TestRandom.lcg 32%Z 48%Z (fresh_world 0)); lia.
Defined.

(** C7 (counterexample).  A pass can raise an error: on a 32 x 5 canvas the
    fourth pass ends in [ValueError], raised by
    [random.randint(sole_top, sole_bottom - 1)] with the empty range 3..1,
    while it chooses the row of its first droplet. *)
Lemma splatter_raises_on_short_canvas :
  fst (@pass4 real TestRandom.lcg 32 5 (blank 32 5 (0, 0, 0, 0)%Z)
         (fresh_world 0))
  = Raise ValueError.
Proof. apply ErrorFacts.pass4_short_canvas. lia. Qed.
End GeneratorClaims.

(** * Further properties of generate_boot_print.py *)

(** ** The tread pattern *)

Module TreadFacts.
Import BootPrint PassFacts.

(** X1.  The test [tread_y + gap < sole_bottom - 2] of the second pass never
    fails: the range of [tread_y] already stops three rows above
    [sole_bottom] and [gap] is 0 or 1, so no gap row is ever skipped. *)
Theorem tread_gap_guard_always_holds (height tread_y gap : Z) :
  In tread_y (range_step (sole_top + 3) (sole_bottom height - 3)
                         tread_spacing) ->
  In gap (range 0 tread_gap) ->
  (tread_y + gap <? sole_bottom height - 2)%Z = true.
Proof.
  intros Hty Hgap.
  apply in_range_step in Hty; [|unfold tread_spacing; lia].
  apply in_range in Hgap. unfold tread_gap in Hgap.
  apply Z.ltb_lt. lia.
Qed.

Lemma tread_gap_guard_always_holds_witness :
  (38 + 1 <? sole_bottom 48 - 2)%Z = true.
Proof.
  apply (@tread_gap_guard_always_holds 48 38 1).
  - apply in_range_step; [unfold tread_spacing; lia|].
    unfold sole_top, sole_bottom, margin_y, tread_spacing.
    split; [lia|reflexivity].
  - apply in_range. unfold tread_gap. lia.
Defined.

Section Pattern.
Context {FM : PyFloat}.
Variables width height : Z.

Lemma pass2_writes_rows (x y : Z) :
  pass2_writes width height x y ->
  (sole_top + 3 <= y < sole_bottom height - 2)%Z /\
  ((y - (sole_top + 3)) mod tread_spacing < tread_gap)%Z /\
  (0 <= x < width)%Z.
Proof.
  intros [ty [gap [a [Hty [Hgap [Hlt [_ [-> Hx]]]]]]]].
  apply in_range_step in Hty; [|unfold tread_spacing; lia].
  apply in_range in Hgap.
  unfold tread_spacing, tread_gap in *. destruct Hty as [Hr Hm].
  split; [lia|]. split; [|lia].
  replace (ty + gap - (sole_top + 3))%Z with ((ty - (sole_top + 3)) + gap)%Z
    by ring.
  rewrite Z.add_mod by lia. rewrite Hm. simpl.
  rewrite Z.mod_mod by lia. rewrite Z.mod_small by lia. lia.
Qed.
End Pattern.

(** X2.  The second pass carves pairs of rows four rows apart: a texel
    changes only in a row [y] with [sole_top + 3 <= y < sole_bottom - 2]
    whose distance from [sole_top + 3] is 0 or 1 modulo 4, and there it
    becomes transparent; every texel of any other row is left as it was. *)
Theorem tread_rows_come_in_pairs
        {FM : PyFloat} (width height : Z) (img : Image) :
  rows_ok width height -> has_size width height img ->
  exists img',
    pass2 width height img = Ok img' /\
    forall x y,
      im_px img' x y = im_px img x y \/
      (im_px img' x y = transparent /\
       (sole_top + 3 <= y < sole_bottom height - 2)%Z /\
       ((y - (sole_top + 3)) mod tread_spacing < tread_gap)%Z /\
       (0 <= x < width)%Z).
Proof.
  intros Hrows Hsz.
  destruct (pass2_paints Hrows Hsz) as [img' [E [_ P]]].
  exists img'. split; [exact E|]. intros x y.
  destruct (P x y) as [[W V]|[_ V]]; [right|left; exact V].
  split; [exact V|]. apply (pass2_writes_rows W).
Qed.

Lemma tread_rows_come_in_pairs_witness :
  exists img',
    @pass2 real 32 48 (blank 32 48 blood_main) = Ok img' /\
    forall x y,
      im_px img' x y = im_px (blank 32 48 blood_main) x y \/
      (im_px img' x y = transparent /\
       (sole_top + 3 <= y < sole_bottom 48 - 2)%Z /\
       ((y - (sole_top + 3)) mod tread_spacing < tread_gap)%Z /\
       (0 <= x < 32)%Z).
Proof.
  apply (@tread_rows_come_in_pairs real 32 48).
  - apply RealRows.real_rows_ok. lia.
  - split; reflexivity.
Defined.
End TreadFacts.


Module EdgeProps.
Import BootPrint PassFacts EdgeFacts.

(** X3.  The third pass returns, and it is exact: in every row between the
    margins it looks at the two leftmost and the two rightmost columns of the
    row's span (those that are columns of the canvas); such a texel ends up
    [blood_edge] when its alpha was above zero, and every other texel of the
    buffer keeps its value. *)
Theorem edge_pass_recolours_filled_span_ends
        {FM : PyFloat} (width height : Z) (img : Image) :
  rows_ok width height -> has_size width height img ->
  exists img',
    pass3 width height img = Ok img' /\
    (forall x y,
        pass3_targets width height x y -> (0 < alpha (im_px img x y))%Z ->
        im_px img' x y = blood_edge) /\
    (forall x y,
        ~ pass3_targets width height x y \/ (alpha (im_px img x y) <= 0)%Z ->
        im_px img' x y = im_px img x y).
Proof.
  intros Hrows Hsz.
  destruct (pass3_recolours Hrows Hsz) as [img' [E [_ R]]].
  exists img'. split; [exact E|]. split.
  - intros x y Ht Ha. destruct (R x y) as [[_ [_ Ev]]|[[N|N] _]];
      [exact Ev|contradiction|lia].
  - intros x y H. destruct (R x y) as [[Ht [Ha _]]|[_ Ev]]; [|exact Ev].
    destruct H as [N|N]; [contradiction|lia].
Qed.

Lemma edge_pass_recolours_filled_span_ends_witness :
  exists img',
    @pass3 real 32 48 (blank 32 48 blood_main) = Ok img' /\
    (forall x y,
        @pass3_targets real 32 48 x y ->
        (0 < alpha (im_px (blank 32 48 blood_main) x y))%Z ->
        im_px img' x y = blood_edge) /\
    (forall x y,
        ~ @pass3_targets real 32 48 x y \/
        (alpha (im_px (blank 32 48 blood_main) x y) <= 0)%Z ->
        im_px img' x y = im_px (blank 32 48 blood_main) x y).
Proof.
  apply (@edge_pass_recolours_filled_span_ends real 32 48).
  - apply RealRows.real_rows_ok. lia.
  - split; reflexivity.
Defined.

Lemma recolours_keeps_filled (W : Z -> Z -> Prop) (img img' : Image) :
  recolours blood_edge W img img' ->
  forall xy, is_filled img' xy = is_filled img xy.
Proof.
  intros [_ R] [x y]. unfold is_filled. simpl.
  destruct (R x y) as [[_ [Ha ->]]|[_ ->]]; [|reflexivity].
  symmetry. apply Z.gtb_lt. exact Ha.
Qed.

(** X4.  Darkening the edges leaves the silhouette as it was: a texel is
    filled (alpha above 0) after the third pass exactly when it was filled
    before, so the number of filled texels is the same, and a texel that was
    transparent stays transparent. *)
Theorem edge_pass_keeps_silhouette
        {FM : PyFloat} (width height : Z) (img : Image) :
  rows_ok width height -> has_size width height img ->
  exists img',
    pass3 width height img = Ok img' /\
    (forall xy, is_filled img' xy = is_filled img xy) /\
    filled_count img' = filled_count img /\
    (forall x y, im_px img x y = transparent -> im_px img' x y = transparent).
Proof.
  intros Hrows Hsz.
  destruct (pass3_recolours Hrows Hsz) as [img' [E R]].
  exists img'. split; [exact E|].
  pose proof (recolours_keeps_filled R) as K.
  split; [exact K|]. split.
  - unfold filled_count. destruct R as [[Hw Hh] _]. unfold texels.
    rewrite Hw, Hh. f_equal. apply filter_ext. exact K.
  - intros x y Ht. destruct R as [_ R].
    destruct (R x y) as [[_ [Ha _]]|[_ Ev]]; [|congruence].
    rewrite Ht in Ha. simpl in Ha. lia.
Qed.

Lemma edge_pass_keeps_silhouette_witness :
  exists img',
    @pass3 real 32 48 (blank 32 48 blood_main) = Ok img' /\
    (forall xy, is_filled img' xy = is_filled (blank 32 48 blood_main) xy) /\
    filled_count img' = filled_count (blank 32 48 blood_main) /\
    (forall x y, im_px (blank 32 48 blood_main) x y = transparent ->
                 im_px img' x y = transparent).
Proof.
  apply (@edge_pass_keeps_silhouette real 32 48).
  - apply RealRows.real_rows_ok. lia.
  - split; reflexivity.
Defined.

(** X5.  The third pass is idempotent: run on its own result it returns a
    buffer with the same texels. *)
Theorem edge_pass_idempotent
        {FM : PyFloat} (width height : Z) (img : Image) :
  rows_ok width height -> has_size width height img ->
  exists img' img'',
    pass3 width height img = Ok img' /\
    pass3 width height img' = Ok img'' /\
    same_size img' img'' /\
    forall x y, im_px img'' x y = im_px img' x y.
Proof.
  intros Hrows Hsz.
  destruct (pass3_recolours Hrows Hsz) as [img' [E R]].
  assert (Hsz' : has_size width height img').
  { destruct R as [[? ?] _]. destruct Hsz. split; congruence. }
  destruct (pass3_recolours Hrows Hsz') as [img'' [E' R']].
  exists img', img''. split; [exact E|]. split; [exact E'|].
  split; [apply R'|]. intros x y.
  destruct R as [_ R]. destruct R' as [_ R'].
  destruct (R' x y) as [[Ht [Ha Ev]]|[_ Ev]]; [|exact Ev].
  destruct (R x y) as [[_ [_ Ev1]]|[[N|N] Ev1]]; [congruence|contradiction|].
  rewrite Ev1 in Ha. lia.
Qed.

Lemma edge_pass_idempotent_witness :
  exists img' img'',
    @pass3 real 32 48 (blank 32 48 blood_main) = Ok img' /\
    @pass3 real 32 48 img' = Ok img'' /\
    same_size img' img'' /\
    forall x y, im_px img'' x y = im_px img' x y.
Proof.
  apply (@edge_pass_idempotent real 32 48).
  - apply RealRows.real_rows_ok. lia.
  - split; reflexivity.
Defined.
End EdgeProps.

(** ** Left-right symmetry of the sole *)

(** A buffer that its own reflection leaves unchanged. *)
Definition symmetric (img : Image) : Prop :=
  forall x y, im_px (flip_left_right img) x y = im_px img x y.

Definition mirrored_set (width : Z) (W : Z -> Z -> Prop) : Prop :=
  forall x y, W x y -> W (width - 1 - x)%Z y.

Lemma mirrored_set_iff (width : Z) (W : Z -> Z -> Prop) (x y : Z) :
  mirrored_set width W -> (W (width - 1 - x)%Z y <-> W x y).
Proof.
  intros H. split; [|apply H]. intros Hm. apply H in Hm.
  replace (width - 1 - (width - 1 - x))%Z with x in Hm by lia. exact Hm.
Qed.

Lemma paints_symmetric (width height : Z) v (W : Z -> Z -> Prop) img img' :
  has_size width height img -> mirrored_set width W ->
  paints v W img img' -> symmetric img -> symmetric img'.
Proof.
  intros [Hw _] HW [[Sw _] P] Hs x y. unfold symmetric in Hs. simpl in *.
  rewrite Sw, Hw. specialize (Hs x y). rewrite Hw in Hs.
  pose proof (mirrored_set_iff x y HW) as Hiff.
  destruct (P (width - 1 - x)%Z y) as [[H1 E1]|[H1 E1]];
    destruct (P x y) as [[H2 E2]|[H2 E2]]; try tauto; congruence.
Qed.

Lemma recolours_symmetric (width height : Z) v (W : Z -> Z -> Prop) img img' :
  has_size width height img -> mirrored_set width W ->
  recolours v W img img' -> symmetric img -> symmetric img'.
Proof.
  intros [Hw _] HW [[Sw _] P] Hs x y. unfold symmetric in Hs. simpl in *.
  rewrite Sw, Hw. specialize (Hs x y). rewrite Hw in Hs.
  pose proof (mirrored_set_iff x y HW) as Hiff.
  destruct (P (width - 1 - x)%Z y) as [[H1 [A1 E1]]|[H1 E1]];
    destruct (P x y) as [[H2 [A2 E2]]|[H2 E2]].
  - congruence.
  - rewrite Hs in A1. destruct H2 as [H2|H2]; [tauto|lia].
  - rewrite Hs in H1. destruct H1 as [H1|H1]; [tauto|lia].
  - congruence.
Qed.

Module SymmetryFacts.
Import BootPrint PassFacts EdgeFacts.
Section Odd.
Context {FM : PyFloat}.
Variables width height : Z.
Hypothesis odd_width : Z.odd width = true.

Lemma odd_center : (width - 1 = 2 * center_x width)%Z.
Proof.
  unfold center_x. pose proof (Z.div_mod width 2 ltac:(lia)) as D.
  rewrite Zmod_odd, odd_width in D. lia.
Qed.

Lemma pass1_writes_mirrored : mirrored_set width (pass1_writes width height).
Proof.
  intros x y [Hy [a [Ea Hx]]]. split; [exact Hy|]. exists a.
  split; [exact Ea|]. pose proof odd_center. lia.
Qed.

Lemma pass2_writes_mirrored : mirrored_set width (pass2_writes width height).
Proof.
  intros x y [ty [gap [a [H1 [H2 [H3 [H4 [H5 Hx]]]]]]]].
  exists ty, gap, a. repeat (split; [assumption|]).
  pose proof odd_center. lia.
Qed.

Lemma pass3_targets_mirrored :
  mirrored_set width (pass3_targets width height).
Proof.
  intros x y [Hy [a [Ea [off [Hoff Hx]]]]]. split; [exact Hy|].
  exists a. split; [exact Ea|]. exists off. split; [exact Hoff|].
  pose proof odd_center. lia.
Qed.
End Odd.
End SymmetryFacts.

Module SymmetryProps.
Import BootPrint PassFacts EdgeFacts SymmetryFacts.

(** X6.  On a canvas of odd width the sole is symmetric before the splatter:
    the first three passes, run on the fresh transparent buffer, return a
    buffer that equals its own left-right reflection, whatever the float
    arithmetic gives for the half-widths. *)
Theorem odd_width_sole_is_symmetric
        {FM : PyFloat} (width height : Z) :
  Z.odd width = true -> rows_ok width height ->
  exists img1 img2 img3,
    pass1 width height (blank width height (0, 0, 0, 0)%Z) = Ok img1 /\
    pass2 width height img1 = Ok img2 /\
    pass3 width height img2 = Ok img3 /\
    forall x y, im_px (flip_left_right img3) x y = im_px img3 x y.
Proof.
  intros Hodd Hrows.
  set (img0 := blank width height (0, 0, 0, 0)%Z).
  assert (S0 : has_size width height img0) by (split; reflexivity).
  assert (Y0 : symmetric img0) by (intros x y; reflexivity).
  destruct (pass1_paints Hrows S0) as [img1 [E1 P1]].
  assert (S1 : has_size width height img1).
  { destruct P1 as [[? ?] _]. destruct S0. split; congruence. }
  pose proof (paints_symmetric S0 (@pass1_writes_mirrored _ width height Hodd) P1 Y0)
    as Y1.
  destruct (pass2_paints Hrows S1) as [img2 [E2 P2]].
  assert (S2 : has_size width height img2).
  { destruct P2 as [[? ?] _]. destruct S1. split; congruence. }
  pose proof (paints_symmetric S1 (@pass2_writes_mirrored _ width height Hodd) P2 Y1)
    as Y2.
  destruct (pass3_recolours Hrows S2) as [img3 [E3 P3]].
  pose proof (recolours_symmetric S2 (@pass3_targets_mirrored _ width height Hodd)
                                  P3 Y2) as Y3.
  exists img1, img2, img3. auto.
Qed.

Lemma odd_width_sole_is_symmetric_witness :
  exists img1 img2 img3,
    @pass1 real 31 48 (blank 31 48 (0, 0, 0, 0)%Z) = Ok img1 /\
    @pass2 real 31 48 img1 = Ok img2 /\
    @pass3 real 31 48 img2 = Ok img3 /\
    forall x y, im_px (flip_left_right img3) x y = im_px img3 x y.
Proof.
  apply (@odd_width_sole_is_symmetric real 31 48).
  - reflexivity.
  - apply RealRows.real_rows_ok. lia.
Defined.
End SymmetryProps.

(** * The sole over the reals, for any canvas *)

Module RealSole.
Import RealProfile RealRows BootPrint PassFacts EdgeFacts.
Local Open Scope R_scope.

Lemma profile_bounds (r : R) :
  0 <= r <= 1 -> 0.65 <= @get_width_factor real r <= 1.
Proof.
  intros [H0 H1]. rewrite get_width_factor_real.
  destruct (Rlt_dec r 0.30) as [L1|L1].
  - assert (Hc : 0 <= cos (r / 0.30 * PI / 2) <= 1)
      by (apply toe_cos_nonneg; lra).
    lra.
  - destruct (Rlt_dec r 0.50) as [L2|L2]; [lra|].
    destruct (Rlt_dec r 0.60) as [L3|L3]; lra.
Qed.

Lemma profile_at_top : @get_width_factor real 0 = 1.
Proof.
  rewrite get_width_factor_real. destruct (Rlt_dec 0 0.30) as [_|N]; [|lra].
  replace (0 / 0.30 * PI / 2) with 0 by lra. rewrite cos_0. lra.
Qed.

Lemma rel_y_range (height y : Z) :
  (3 <= y < height - 3)%Z ->
  0 <= IZR (y - 3) / IZR (height - 3 - 3) <= 1.
Proof.
  intros Hy.
  assert (Hd : 0 < IZR (height - 3 - 3)) by (apply IZR_lt; lia).
  assert (Hn : 0 <= IZR (y - 3)) by (apply IZR_le; lia).
  assert (Hle : IZR (y - 3) <= IZR (height - 3 - 3)) by (apply IZR_le; lia).
  split.
  - apply Rmult_le_pos; [exact Hn|]. left. apply Rinv_0_lt_compat. exact Hd.
  - apply (Rmult_le_reg_r (IZR (height - 3 - 3))); [exact Hd|].
    unfold Rdiv. rewrite Rmult_assoc, Rinv_l by lra. lra.
Qed.

(** Between the margins every half-width lies between 0 and
    [half_width]. *)
Lemma half_width_bounds (width height y : Z) :
  (6 <= width)%Z -> (3 <= y < height - 3)%Z ->
  exists a, @actual_half real width height y = Ok a /\
            (0 <= a <= (width - 6) / 2)%Z.
Proof.
  intros Hw Hy. rewrite real_actual_half by lia. eexists.
  split; [reflexivity|].
  replace (width - 3 - 3)%Z with (width - 6)%Z by lia.
  pose proof (profile_bounds (@rel_y_range height y Hy)) as [F0 F1].
  assert (Hh : (0 <= (width - 6) / 2)%Z) by (apply Z.div_pos; lia).
  assert (Hr : 0 <= IZR ((width - 6) / 2)) by (apply IZR_le; exact Hh).
  apply Rtrunc_bounds; [lia| |]; simpl; nra.
Qed.

(** The first row of the sole has the full half-width. *)
Lemma top_row_half (width height : Z) :
  (6 <= width)%Z -> (7 <= height)%Z ->
  @actual_half real width height 3 = Ok ((width - 6) / 2)%Z.
Proof.
  intros Hw Hh. rewrite real_actual_half by lia. f_equal.
  replace (width - 3 - 3)%Z with (width - 6)%Z by lia.
  replace (IZR (3 - 3) / IZR (height - 3 - 3)) with 0
    by (simpl; unfold Rdiv; lra).
  rewrite profile_at_top.
  assert (Hh' : (0 <= (width - 6) / 2)%Z) by (apply Z.div_pos; lia).
  apply Rtrunc_eq; [exact Hh'| |]; lra.
Qed.

Lemma half_of_inner_width (width : Z) :
  ((width - 6) / 2 = width / 2 - 3)%Z.
Proof.
  replace (width - 6)%Z with (width + (-3) * 2)%Z by lia.
  rewrite Z.div_add by lia. lia.
Qed.

Lemma pass1_writes_inside_margins (width height x y : Z) :
  (6 <= width)%Z ->
  @pass1_writes real width height x y ->
  (3 <= x <= width - 3 /\ 3 <= y < height - 3)%Z.
Proof.
  intros Hw [Hy [a [Ea Hx]]]. apply in_range in Hy.
  unfold sole_top, sole_bottom, margin_y in Hy.
  destruct (@half_width_bounds width height y Hw Hy) as [a' [Ea' Ha]].
  assert (a' = a) by congruence. subst a'.
  rewrite half_of_inner_width in Ha. unfold center_x in Hx.
  pose proof (Z.div_mod width 2 ltac:(lia)) as D.
  pose proof (Z.mod_pos_bound width 2 ltac:(lia)) as M.
  split; [lia|exact Hy].
Qed.
End RealSole.

Module RealSoleProps.
Import RealProfile RealRows RealSole BootPrint PassFacts EdgeFacts.
Import Pass4Facts Generate RunFacts.

(** X7.  Over the reals the profile stays between 0.65 and 1 on [0, 1],
    and it reaches 1 at the top of the sole: no row is wider than
    [half_width], and the first row is exactly that wide. *)
Theorem profile_range (r : R) :
  (0 <= r <= 1)%R ->
  (0.65 <= @get_width_factor real r <= 1)%R /\
  @get_width_factor real 0%R = 1%R.
Proof.
  intros Hr. split; [apply profile_bounds; exact Hr|apply profile_at_top].
Qed.

Lemma profile_range_witness :
  (0.65 <= @get_width_factor real 0.55%R <= 1)%R /\
  @get_width_factor real 0%R = 1%R.
Proof. apply (@profile_range 0.55%R). lra. Defined.

(** X8.  Over the reals, on a canvas at least 6 wide and 7 high, a run that
    can save returns an image in which every fully opaque texel lies inside
    the margins: its column is between 3 and [width - 3] and its row between
    3 and [height - 4].  Only the droplets of the fourth pass can lie
    outside. *)
Theorem opaque_texels_inside_margins
        {RM : @PyRandom real} (width height : Z) (path : string) (w : World) :
  (6 <= width)%Z -> (7 <= height)%Z -> w_writable w path = true ->
  exists img w',
    create_boot_print width height path w = (Ok img, w') /\
    forall x y, alpha (im_px img x y) = 255%Z ->
                (3 <= x <= width - 3 /\ 3 <= y <= height - 4)%Z.
Proof.
  intros Hw Hh Wr.
  assert (Hrows : @rows_ok real width height) by (apply real_rows_ok; lia).
  destruct (@create_boot_print_runs RM width height Hrows
              ltac:(lia) Hh)
    as [i1 [i2 [i3 [i4 [g' [_ [P1 [_ [P2 [_ [P3 [_ [P4 Hrun]]]]]]]]]]]]].
  exists i4. eexists. split.
  { rewrite Hrun. unfold world_after. rewrite Wr. reflexivity. }
  intros x y Ha.
  assert (H3 : (0 < alpha (im_px i3 x y))%Z).
  { destruct P4 as [_ P4]. destruct (P4 x y) as [E|[_ [_ E]]].
    - rewrite E in Ha. lia.
    - rewrite E in Ha. discriminate Ha. }
  assert (H2 : (0 < alpha (im_px i2 x y))%Z).
  { destruct P3 as [_ P3]. destruct (P3 x y) as [E|[A _]];
      [rewrite E in H3; exact H3|exact A]. }
  assert (H1 : @pass1_writes real width height x y).
  { destruct P2 as [_ P2]. destruct (P2 x y) as [[_ E]|[_ E]].
    - rewrite E in H2. simpl in H2. lia.
    - rewrite E in H2. destruct P1 as [_ P1].
      destruct (P1 x y) as [[W _]|[_ E1]]; [exact W|].
      rewrite E1 in H2. simpl in H2. lia. }
  apply pass1_writes_inside_margins in H1; lia.
Qed.

Lemma opaque_texels_inside_margins_witness :
  exists img w',
    @create_boot_print real TestRandom.lcg 32 48 "boot_print.png"
       (mkWorld (seeded 0) (fun _ => None) (fun _ => true) [])
    = (Ok img, w') /\
    forall x y, alpha (im_px img x y) = 255%Z ->
                (3 <= x <= 32 - 3 /\ 3 <= y <= 48 - 4)%Z.
Proof.
  apply (@opaque_texels_inside_margins TestRandom.lcg 32 48); [lia|lia|].
  reflexivity.
Defined.

(** The right end of the first row of the sole and its mirror texel. *)
Lemma top_row_breaks_symmetry
      {RM : @PyRandom real} (width height : Z) :
  Z.even width = true -> (6 <= width)%Z -> (7 <= height)%Z ->
  exists img g',
    (forall path w,
        create_boot_print width height path w
        = world_after width height g' path img w) /\
    has_size width height img /\
    im_px img (width - 3)%Z 3%Z = blood_edge /\
    im_px img 2%Z 3%Z <> blood_edge.
Proof.
  intros Hev Hw Hh.
  assert (Hrows : @rows_ok real width height) by (apply real_rows_ok; lia).
  destruct (@create_boot_print_runs RM width height Hrows
              ltac:(lia) Hh)
    as [i1 [i2 [i3 [i4 [g' [_ [P1 [_ [P2 [E3 [P3 [_ [P4 Hrun]]]]]]]]]]]]].
  assert (S1 : has_size width height i1).
  { destruct P1 as [[? ?] _]. split; simpl in *; congruence. }
  assert (S2 : has_size width height i2).
  { destruct P2 as [[? ?] _]. destruct S1. split; congruence. }
  destruct (pass3_recolours Hrows S2) as [i3' [E3' R3]].
  assert (i3' = i3) by congruence. subst i3'.
  assert (S4 : has_size width height i4).
  { destruct P4 as [[? ?] _]. destruct R3 as [[? ?] _]. destruct S2.
    split; congruence. }
  pose proof (@top_row_half width height Hw Hh) as Etop.
  pose proof (half_of_inner_width width) as Ehalf.
  assert (Hc : (width = 2 * center_x width)%Z).
  { unfold center_x. pose proof (Z.div_mod width 2 ltac:(lia)) as D.
    rewrite Zmod_even, Hev in D. lia. }
  assert (Hrow : In 3%Z (range sole_top (sole_bottom height))).
  { apply in_range. unfold sole_top, sole_bottom, margin_y. lia. }
  (* the right end of the first row *)
  assert (A1 : im_px i1 (width - 3)%Z 3%Z = blood_main).
  { destruct P1 as [_ P1]. destruct (P1 (width - 3)%Z 3%Z) as [[_ E]|[N _]];
      [exact E|]. exfalso. apply N. split; [exact Hrow|].
    exists ((width - 6) / 2)%Z. split; [exact Etop|].
    unfold center_x in *. lia. }
  assert (N2 : forall x, ~ @pass2_writes real width height x 3%Z).
  { intros x H. apply TreadFacts.pass2_writes_rows in H.
    unfold sole_top, margin_y in H. lia. }
  assert (A2 : im_px i2 (width - 3)%Z 3%Z = blood_main).
  { destruct P2 as [_ P2]. destruct (P2 (width - 3)%Z 3%Z) as [[W _]|[_ E]];
      [exfalso; exact (N2 _ W)|congruence]. }
  assert (A3 : im_px i3 (width - 3)%Z 3%Z = blood_edge).
  { destruct R3 as [_ R3].
    destruct (R3 (width - 3)%Z 3%Z) as [[_ [_ E]]|[[N|N] _]]; [exact E| |].
    - exfalso. apply N. split; [exact Hrow|].
      exists ((width - 6) / 2)%Z. split; [exact Etop|].
      exists 0%Z. split; [apply in_range; lia|]. right.
      unfold center_x in *. lia.
    - rewrite A2 in N. simpl in N. lia. }
  assert (A4 : im_px i4 (width - 3)%Z 3%Z = blood_edge).
  { destruct P4 as [_ P4]. destruct (P4 (width - 3)%Z 3%Z) as [E|[Z0 _]];
      [congruence|]. rewrite A3 in Z0. discriminate Z0. }
  (* its mirror texel *)
  assert (B1 : im_px i1 2%Z 3%Z = (0, 0, 0, 0)%Z).
  { destruct P1 as [_ P1]. destruct (P1 2%Z 3%Z) as [[W _]|[_ E]];
      [|exact E]. apply pass1_writes_inside_margins in W; lia. }
  assert (B2 : im_px i2 2%Z 3%Z = (0, 0, 0, 0)%Z).
  { destruct P2 as [_ P2]. destruct (P2 2%Z 3%Z) as [[W _]|[_ E]];
      [exfalso; exact (N2 _ W)|congruence]. }
  assert (B3 : im_px i3 2%Z 3%Z = (0, 0, 0, 0)%Z).
  { destruct P3 as [_ P3]. destruct (P3 2%Z 3%Z) as [E|[A _]];
      [congruence|]. rewrite B2 in A. simpl in A. lia. }
  assert (B4 : im_px i4 2%Z 3%Z <> blood_edge).
  { destruct P4 as [_ P4]. destruct (P4 2%Z 3%Z) as [E|[_ [_ E]]];
      rewrite E; [rewrite B3|]; discriminate. }
  exists i4, g'. auto.
Qed.

Lemma flipped_differs (width height : Z) (img : Image) :
  has_size width height img ->
  im_px img (width - 3)%Z 3%Z = blood_edge ->
  im_px img 2%Z 3%Z <> blood_edge ->
  im_px (flip_left_right img) (width - 3)%Z 3%Z <> blood_edge /\
  flip_left_right img <> img.
Proof.
  intros [Sw _] A B.
  assert (F : im_px (flip_left_right img) (width - 3)%Z 3%Z <> blood_edge).
  { simpl. rewrite Sw.
    replace (width - 1 - (width - 3))%Z with 2%Z by lia. exact B. }
  split; [exact F|]. intros Heq. rewrite Heq in F. contradiction.
Qed.

(** X9.  Over the reals, on a canvas of even width (at least 6 wide and 7
    high), the returned texture is never its own mirror image: the sole is
    centred on column [width // 2], half a texel right of the axis of the
    canvas, so the texel [(width - 3, 3)] is an edge texel while its mirror
    texel [(2, 3)] lies in the margin. *)
Theorem even_width_texture_is_not_its_mirror
        {RM : @PyRandom real} (width height : Z) (path : string) (w : World) :
  Z.even width = true -> (6 <= width)%Z -> (7 <= height)%Z ->
  w_writable w path = true ->
  exists img w',
    create_boot_print width height path w = (Ok img, w') /\
    im_px img (width - 3)%Z 3%Z = blood_edge /\
    im_px (flip_left_right img) (width - 3)%Z 3%Z <> blood_edge /\
    flip_left_right img <> img.
Proof.
  intros Hev Hw Hh Wr.
  destruct (@top_row_breaks_symmetry RM width height Hev Hw Hh)
    as [img [g' [Hrun [Hs [A B]]]]].
  exists img. eexists. split.
  { rewrite Hrun. unfold world_after. rewrite Wr. reflexivity. }
  split; [exact A|]. exact (flipped_differs Hs A B).
Qed.

Lemma even_width_texture_is_not_its_mirror_witness :
  exists img w',
    @create_boot_print real TestRandom.lcg 32 48 "boot_print.png"
       (mkWorld (seeded 0) (fun _ => None) (fun _ => true) [])
    = (Ok img, w') /\
    im_px img (32 - 3)%Z 3%Z = blood_edge /\
    im_px (flip_left_right img) (32 - 3)%Z 3%Z <> blood_edge /\
    flip_left_right img <> img.
Proof.
  apply (@even_width_texture_is_not_its_mirror TestRandom.lcg 32 48);
    [reflexivity|lia|lia|reflexivity].
Defined.

(** What a run of [create_left_right_boot_prints] over the reals does to the
    world. *)
Lemma real_pair_world {RM : @PyRandom real} :
  exists (img : Image) (g' : rng),
    flip_left_right img <> img /\
    forall w,
      create_left_right_boot_prints w =
      if w_writable w right_path then
        if w_writable w left_path then
          (Ok tt,
           mkWorld g'
             (fun p => if String.eqb p left_path
                       then Some (flip_left_right img)
                       else if String.eqb p right_path then Some img
                            else w_files w p)
             (w_writable w)
             ((32, 48) :: (32, 48) :: w_buffers w)%Z)
        else
          (Raise OSError,
           mkWorld g'
             (fun p => if String.eqb p right_path then Some img
                       else w_files w p)
             (w_writable w)
             ((32, 48) :: (32, 48) :: w_buffers w)%Z)
      else
        (Raise OSError,
         mkWorld g' (w_files w) (w_writable w) ((32, 48)%Z :: w_buffers w)).
Proof.
  destruct (@top_row_breaks_symmetry RM 32 48 eq_refl ltac:(lia) ltac:(lia))
    as [img [g' [Hrun [Hs [A B]]]]].
  exists img, g'. split; [exact (proj2 (flipped_differs Hs A B))|].
  intros w. unfold create_left_right_boot_prints, mbind at 1.
  rewrite Hrun. unfold world_after.
  destruct (w_writable w right_path) eqn:Wr; [|reflexivity].
  unfold mbind, Image_transpose_flip, Image_save.
  cbn [w_rng w_files w_writable w_buffers].
  assert (N : is_empty (flip_left_right img) = false).
  { unfold is_empty. simpl. destruct Hs as [-> ->]. reflexivity. }
  rewrite N. destruct Hs as [-> ->].
  destruct (w_writable w left_path); reflexivity.
Qed.

(** X10.  Over the reals, a run of [create_left_right_boot_prints] that
    returns has allocated two 32 x 48 buffers, has stored under the two paths
    two images that differ from each other (the left one being the reflection
    of the right one), and has left every other file as it was. *)
Theorem stored_pair_differs
        {RM : @PyRandom real} (w w' : World) :
  create_left_right_boot_prints w = (Ok tt, w') ->
  exists right left,
    w_files w' right_path = Some right /\
    w_files w' left_path = Some left /\
    left = flip_left_right right /\
    left <> right /\
    (forall p, p <> right_path -> p <> left_path ->
               w_files w' p = w_files w p) /\
    w_buffers w' = ((32, 48) :: (32, 48) :: w_buffers w)%Z.
Proof.
  destruct (@real_pair_world RM) as [img [g' [Hne Hrun]]].
  rewrite Hrun.
  destruct (w_writable w right_path); [|discriminate 1].
  destruct (w_writable w left_path); [|discriminate 1].
  intros H. injection H as <-. exists img, (flip_left_right img).
  cbn [w_files w_buffers].
  change (String.eqb right_path left_path) with false.
  rewrite !String.eqb_refl.
  split; [reflexivity|]. split; [reflexivity|]. split; [reflexivity|].
  split; [exact Hne|]. split; [|reflexivity].
  intros p Hr Hl. apply String.eqb_neq in Hr, Hl. rewrite Hr, Hl.
  reflexivity.
Qed.

Lemma stored_pair_differs_witness :
  exists (w' : @World real TestRandom.lcg) right left,
    w_files w' right_path = Some right /\
    w_files w' left_path = Some left /\
    left = flip_left_right right /\
    left <> right /\
    (forall p, p <> right_path -> p <> left_path ->
               w_files w' p
               = w_files (mkWorld (RM := TestRandom.lcg) (seeded 0)
                                  (fun _ => None) (fun _ => true) []) p) /\
    w_buffers w' = [(32, 48); (32, 48)]%Z.
Proof.
  destruct (@real_pair_world TestRandom.lcg) as [img [g' [_ Hrun]]].
  eexists.
  apply (@stored_pair_differs TestRandom.lcg
           (mkWorld (RM := TestRandom.lcg) (seeded 0)
                    (fun _ => None) (fun _ => true) [])).
  rewrite Hrun. reflexivity.
Defined.
End RealSoleProps.

(** * Further properties of the splatter pass and of a whole call *)

(** ** Counting the texels a loop changes *)

Lemma NoDup_map_injective {A B : Type} (f : A -> B) (l : list A) :
  (forall a b, f a = f b -> a = b) -> NoDup l -> NoDup (map f l).
Proof.
  intros Hf. induction 1 as [|a l Hn Hl IH]; simpl; constructor; [|exact IH].
  intros Hin. apply in_map_iff in Hin. destruct Hin as [b [E Hb]].
  apply Hf in E. subst b. contradiction.
Qed.

Lemma NoDup_range_step (start stop step : Z) :
  (0 < step)%Z -> NoDup (range_step start stop step).
Proof.
  intros Hs. unfold range_step. apply NoDup_map_injective; [|apply seq_NoDup].
  intros a b E. nia.
Qed.

Lemma NoDup_prod {A B : Type} (l1 : list A) (l2 : list B) :
  NoDup l1 -> NoDup l2 -> NoDup (list_prod l1 l2).
Proof.
  intros H1 H2. induction H1 as [|a l1 Hn Hl IH]; simpl; [constructor|].
  apply NoDup_app; [|exact IH|].
  - apply NoDup_map_injective; [|exact H2]. intros b c E. congruence.
  - intros [a' b'] Hin Hin'. apply in_map_iff in Hin.
    destruct Hin as [b [E _]]. injection E as <- _.
    apply in_prod_iff in Hin'. tauto.
Qed.

Lemma NoDup_texels (img : Image) : NoDup (texels img).
Proof.
  unfold texels, range. apply NoDup_prod; apply NoDup_range_step; lia.
Qed.

Lemma filter_count_grows {A : Type} (p q : A -> bool) (l L : list A) :
  NoDup l ->
  (forall a, In a l -> q a = true -> p a = true \/ In a L) ->
  (List.length (filter q l) <= List.length (filter p l) + List.length L)%nat.
Proof.
  intros Hnd H.
  assert (Hsplit : (List.length (filter q l) <=
                    List.length (filter p l) +
                    List.length (filter (fun a => q a && negb (p a)) l))%nat).
  { clear. induction l as [|a l IH]; simpl; [lia|].
    destruct (q a), (p a); simpl; lia. }
  assert (Hnew : (List.length (filter (fun a => q a && negb (p a)) l)
                  <= List.length L)%nat).
  { apply NoDup_incl_length; [apply NoDup_filter; exact Hnd|].
    intros a Ha. apply filter_In in Ha. destruct Ha as [Hin Hc].
    apply andb_true_iff in Hc. destruct Hc as [Hq Hp].
    destruct (H a Hin Hq) as [Hp'|HL]; [|exact HL].
    rewrite Hp' in Hp. discriminate Hp. }
  lia.
Qed.

Module SplatterProps.
Import BootPrint PassFacts Pass4Facts Generate.

(** X11.  The fourth pass adds at most 15 droplets, whatever the float
    arithmetic, the generator, the size of the canvas and the buffer: when it
    returns, the buffer differs from the one it was given in at most 15
    texels (one per round of its loop), so the number of filled texels has
    grown by at most 15. *)
Theorem splatter_adds_at_most_15_droplets
        {FM : PyFloat} {RM : PyRandom} (width height : Z) (img img' : Image)
        (w w' : World) :
  pass4 width height img w = (Ok img', w') ->
  (exists L : list (Z * Z),
      (List.length L <= 15)%nat /\
      forall x y, im_px img' x y <> im_px img x y -> In (x, y) L) /\
  (filled_count img' <= filled_count img + 15)%nat.
Proof.
  intros E.
  destruct (@SplatterReturns.pass4_returns _ _ _ _ _ _ _ _ E)
    as [[[Sw Sh] _] [L [HL Hin]]].
  split; [exists L; auto|].
  unfold filled_count.
  assert (Ht : texels img' = texels img).
  { unfold texels. rewrite Sw, Sh. reflexivity. }
  rewrite Ht.
  pose proof (@filter_count_grows _ (is_filled img) (is_filled img')
                (texels img) L (NoDup_texels img)) as Hc.
  assert (Hc' : (List.length (filter (is_filled img') (texels img)) <=
                 List.length (filter (is_filled img) (texels img))
                 + List.length L)%nat).
  { apply Hc. intros [x y] _ Hq.
    destruct (pixel_eq_dec (im_px img' x y) (im_px img x y)) as [Eq|Ne].
    - left. unfold is_filled in *. simpl in *. rewrite <- Eq. exact Hq.
    - right. apply Hin. exact Ne. }
  lia.
Qed.

Lemma splatter_adds_at_most_15_droplets_witness :
  exists img' w',
    @pass4 real TestRandom.lcg 32 48 (blank 32 48 transparent)
       (mkWorld (seeded 0) (fun _ => None) (fun _ => true) [])
    = (Ok img', w') /\
    (exists L : list (Z * Z),
        (List.length L <= 15)%nat /\
        forall x y, im_px img' x y <> im_px (blank 32 48 transparent) x y ->
                    In (x, y) L) /\
    (filled_count img' <= filled_count (blank 32 48 transparent) + 15)%nat.
Proof.
  destruct (@pass4_splatters TestRandom.lcg 32 48
              (blank 32 48 transparent)
              (mkWorld (seeded 0) (fun _ => None) (fun _ => true) []))
    as [img' [w' [E _]]];
    [apply RealRows.real_rows_ok; lia|lia|split; reflexivity|].
  exists img', w'. split; [exact E|].
  exact (@splatter_adds_at_most_15_droplets real TestRandom.lcg 32 48
           _ _ _ _ E).
Defined.
End SplatterProps.

(** ** No division by zero *)

(** [r] is not the exception [e]. *)
Definition never {A : Type} (e : exn) (r : result A) : Prop := r <> Raise e.

Lemma never_bind {A B : Type} (e : exn) (m : result A) (k : A -> result B) :
  never e m -> (forall a, m = Ok a -> never e (k a)) -> never e (bind m k).
Proof.
  intros Hm Hk. destruct m as [a|e']; cbn [bind].
  - apply Hk. reflexivity.
  - intros H. apply Hm. congruence.
Qed.

Lemma for_each_never {A S : Type} (e : exn) (xs : list A)
      (body : A -> S -> result S) :
  (forall x s, In x xs -> never e (body x s)) ->
  forall s, never e (for_each xs body s).
Proof.
  induction xs as [|x xs IH]; intros Hbody s; simpl; [discriminate|].
  apply never_bind; [apply Hbody; left; reflexivity|].
  intros s1 _. apply IH. intros y t Hy. apply Hbody. right. exact Hy.
Qed.

Lemma getpixel_raises_index (img : Image) (xy : Z * Z) (e : exn) :
  getpixel img xy = Raise e -> e = IndexError.
Proof.
  destruct xy as [x y]. unfold getpixel.
  destruct (in_bounds img x y); congruence.
Qed.

Lemma putpixel_raises_index (xy : Z * Z) (v : Pixel) (img : Image) (e : exn) :
  putpixel xy v img = Raise e -> e = IndexError.
Proof.
  destruct xy as [x y]. unfold putpixel.
  destruct (in_bounds img x y); congruence.
Qed.

Lemma putpixel_never_zero_div (xy : Z * Z) (v : Pixel) (img : Image) :
  never ZeroDivisionError (putpixel xy v img).
Proof.
  intros H. apply putpixel_raises_index in H. discriminate H.
Qed.

Lemma darken_never_zero_div (xy : Z * Z) (img : Image) :
  never ZeroDivisionError (BootPrint.darken xy img).
Proof.
  unfold BootPrint.darken. apply never_bind.
  - intros H. apply getpixel_raises_index in H. discriminate H.
  - intros c _. destruct (alpha c >? 0)%Z;
      [apply putpixel_never_zero_div|discriminate].
Qed.

Module DivisionFacts.
Import BootPrint Generate.
Section Division.
Context {FM : PyFloat} {RM : PyRandom}.
Variables width height : Z.

Lemma py_int_never_zero_div (x : num) : never ZeroDivisionError (py_int x).
Proof.
  unfold py_int. destruct (to_int x); [discriminate|].
  destruct (is_nan x); discriminate.
Qed.

(** The division of [actual_half] has a divisor other than zero on every
    canvas that has a row between its margins. *)
Lemma actual_half_never_zero_div (y : Z) :
  (7 <= height)%Z -> never ZeroDivisionError (actual_half width height y).
Proof.
  intros Hh. unfold actual_half, truediv.
  destruct (Z.eqb_spec (sole_height height) 0) as [E|_].
  - unfold sole_height, sole_bottom, sole_top, margin_y in E. lia.
  - cbn [bind]. cbv zeta. apply py_int_never_zero_div.
Qed.

Lemma pass1_never_zero_div (img : Image) :
  never ZeroDivisionError (pass1 width height img).
Proof.
  unfold pass1. apply for_each_never. intros y s Hy. apply in_range in Hy.
  unfold sole_top, sole_bottom, margin_y in Hy.
  apply never_bind; [apply actual_half_never_zero_div; lia|].
  intros a _. cbv zeta. apply for_each_never. intros x t _.
  apply putpixel_never_zero_div.
Qed.

Lemma pass2_never_zero_div (img : Image) :
  never ZeroDivisionError (pass2 width height img).
Proof.
  unfold pass2. apply for_each_never. intros ty s Hty.
  apply in_range_step in Hty; [|unfold tread_spacing; lia].
  unfold sole_top, sole_bottom, margin_y in Hty.
  apply never_bind; [apply actual_half_never_zero_div; lia|].
  intros a _. cbv zeta. apply for_each_never. intros gap t _.
  destruct (ty + gap <? sole_bottom height - 2)%Z; [|discriminate].
  apply for_each_never. intros x u _. apply putpixel_never_zero_div.
Qed.

Lemma pass3_never_zero_div (img : Image) :
  never ZeroDivisionError (pass3 width height img).
Proof.
  unfold pass3. apply for_each_never. intros y s Hy. apply in_range in Hy.
  unfold sole_top, sole_bottom, margin_y in Hy.
  apply never_bind; [apply actual_half_never_zero_div; lia|].
  intros a _. cbv zeta. apply for_each_never. intros off t _.
  apply never_bind.
  - destruct (_ <? _)%Z; [apply darken_never_zero_div|discriminate].
  - intros u _. destruct (_ >=? _)%Z;
      [apply darken_never_zero_div|discriminate].
Qed.

Lemma for_eachM_never {A S : Type} (e : exn) (xs : list A)
      (body : A -> S -> M S) :
  (forall x s w, In x xs -> never e (fst (body x s w))) ->
  forall s w, never e (fst (for_eachM xs body s w)).
Proof.
  induction xs as [|x xs IH]; intros Hbody s w; simpl; [discriminate|].
  pose proof (Hbody x s w (or_introl eq_refl)) as Hx.
  unfold mbind. destruct (body x s w) as [[s1|e'] w1]; simpl in *; [|exact Hx].
  apply IH. intros y t u Hy. apply Hbody. right. exact Hy.
Qed.

Lemma pass4_never_zero_div (img : Image) (w : World) :
  never ZeroDivisionError (fst (pass4 width height img w)).
Proof.
  unfold pass4. apply for_eachM_never. intros _ s u _.
  unfold mbind at 1, random_uniform at 1, draw at 1.
  destruct (gen_uniform (of_int 0) (of_int 2 * math_pi)%pyf (w_rng u))
    as [angle g1].
  unfold mbind at 1, random_uniform at 1, draw at 1. cbn [w_rng].
  destruct (gen_uniform (of_int 0) (of_int 4) g1) as [dist g2].
  unfold mbind at 1, random_randint.
  destruct (Z.ltb_spec (sole_bottom height - 1) sole_top) as [_|Hh];
    [simpl; discriminate|].
  unfold sole_bottom, sole_top, margin_y in Hh.
  unfold draw at 1. cbn [w_rng].
  destruct (gen_randint sole_top (sole_bottom height - 1) g2) as [base_y g3].
  unfold mbind at 1, lift at 1.
  pose proof (@actual_half_never_zero_div base_y ltac:(lia)) as Ha.
  destruct (actual_half width height base_y) as [a|e];
    [|simpl; intros H; apply Ha; congruence].
  unfold mbind at 1, random_random, draw. cbn [w_rng].
  destruct (gen_random g3) as [r g4].
  cbv zeta. unfold py_int.
  unfold mbind at 1, lift at 1.
  destruct (to_int _) as [sx|]; [|destruct (is_nan _); simpl; discriminate].
  unfold mbind at 1, lift at 1.
  destruct (to_int _) as [sy|]; [|destruct (is_nan _); simpl; discriminate].
  destruct ((0 <=? sx) && (sx <? width) && (0 <=? sy) && (sy <? height))%Z;
    [|simpl; discriminate].
  unfold mbind, lift, getpixel.
  destruct (in_bounds s sx sy); [|simpl; discriminate].
  destruct (alpha (im_px s sx sy) =? 0)%Z; [|simpl; discriminate].
  unfold putpixel. destruct (in_bounds s sx sy); simpl; discriminate.
Qed.

Lemma create_boot_print_never_zero_div (path : string) (w : World) :
  never ZeroDivisionError (fst (create_boot_print width height path w)).
Proof.
  unfold create_boot_print, mbind at 1, Image_new.
  destruct ((width <? 0) || (height <? 0))%Z; [simpl; discriminate|].
  set (img0 := blank width height (0, 0, 0, 0)%Z).
  unfold mbind at 1, lift at 1.
  pose proof (pass1_never_zero_div img0) as H1.
  destruct (pass1 width height img0) as [img1|e]; 
    [|simpl; intros H; apply H1; congruence].
  unfold mbind at 1, lift at 1.
  pose proof (pass2_never_zero_div img1) as H2.
  destruct (pass2 width height img1) as [img2|e]; 
    [|simpl; intros H; apply H2; congruence].
  unfold mbind at 1, lift at 1.
  pose proof (pass3_never_zero_div img2) as H3.
  destruct (pass3 width height img2) as [img3|e]; 
    [|simpl; intros H; apply H3; congruence].
  unfold mbind at 1, random_seed at 1.
  match goal with
  | |- never _ (fst (mbind (pass4 _ _ _) _ ?u)) =>
      pose proof (pass4_never_zero_div img3 u) as H4; unfold mbind at 1;
      destruct (pass4 width height img3 u) as [[img4|e] u4];
      [|simpl in *; exact H4]
  end.
  unfold mbind, Image_save, ret.
  destruct (w_writable u4 path); [destruct (is_empty img4)|];
    simpl; discriminate.
Qed.
End Division.
End DivisionFacts.

Module CallProps.
Import BootPrint PassFacts Pass4Facts Generate RunFacts OutcomeFacts.
Import DivisionFacts.

(** X12.  The division [(y - sole_top) / sole_height] never divides by
    zero, whatever the size of the canvas, the float arithmetic and the
    generator: a canvas with [sole_height = 0] has no row between its margins,
    so no pass evaluates the division, and the fourth pass stops at
    [random.randint] before it gets there.  None of the four passes, run on
    any buffer, ends in [ZeroDivisionError], nor does a call of
    [create_boot_print]. *)
Theorem no_division_by_zero
        {FM : PyFloat} {RM : PyRandom} (width height : Z) (img : Image)
        (path : string) (w : World) :
  pass1 width height img <> Raise ZeroDivisionError /\
  pass2 width height img <> Raise ZeroDivisionError /\
  pass3 width height img <> Raise ZeroDivisionError /\
  fst (pass4 width height img w) <> Raise ZeroDivisionError /\
  fst (create_boot_print width height path w) <> Raise ZeroDivisionError.
Proof.
  split; [apply pass1_never_zero_div|].
  split; [apply pass2_never_zero_div|].
  split; [apply pass3_never_zero_div|].
  split; [apply pass4_never_zero_div|apply create_boot_print_never_zero_div].
Qed.

(** X13.  A call of [create_boot_print] touches no file but [output_path]
    and changes the writability of no path.  When it returns an image, that
    image is what [output_path] holds; when it raises, every file is as it
    was. *)
Theorem create_boot_print_touches_only_its_path
        {FM : PyFloat} {RM : PyRandom} (width height : Z) (path : string)
        (w : World) :
  w_writable (snd (create_boot_print width height path w)) = w_writable w /\
  (forall p, p <> path ->
             w_files (snd (create_boot_print width height path w)) p
             = w_files w p) /\
  (forall img, fst (create_boot_print width height path w) = Ok img ->
               w_files (snd (create_boot_print width height path w)) path
               = Some img) /\
  (forall e, fst (create_boot_print width height path w) = Raise e ->
             w_files (snd (create_boot_print width height path w))
             = w_files w).
Proof.
  destruct (create_boot_print_outcome width height) as [synth H].
  destruct (H path w) as [w' [E [Hwr Hf]]]. rewrite E. cbn [fst snd].
  split; [exact Hwr|]. rewrite Hf. unfold stored, returned.
  split; [|split].
  - intros p Hp. destruct synth as [img|e]; [|reflexivity].
    destruct (w_writable w path); [|reflexivity].
    destruct (is_empty img); [reflexivity|]. cbn [andb negb].
    apply String.eqb_neq in Hp. rewrite Hp. reflexivity.
  - intros img Hr. destruct synth as [img'|e]; [|discriminate Hr].
    destruct (w_writable w path); [|discriminate Hr].
    destruct (is_empty img'); [discriminate Hr|]. cbn [andb negb].
    rewrite String.eqb_refl. congruence.
  - intros e Hr. destruct synth as [img'|e']; [|reflexivity].
    destruct (w_writable w path); [|reflexivity].
    destruct (is_empty img'); [reflexivity|discriminate Hr].
Qed.

(** X14.  For every float arithmetic, generator and size there is one
    generator state [g'] such that a call of [create_boot_print] that returns
    an image has left the global generator of the [random] module in [g'],
    whatever state it found, and has allocated exactly one buffer of the size
    asked for: [random.seed(42)] resets the generator and the fourth pass
    makes the same draws from there.  More precisely, either every call (in
    every world, also one that fails in the fourth pass or in the save) ends
    with the generator in [g'] and one more buffer, or every call raises
    before [random.seed] and leaves the generator as it found it. *)
Theorem create_boot_print_resets_generator
        {FM : PyFloat} {RM : PyRandom} (width height : Z) :
  exists g',
    (forall path w img,
        fst (create_boot_print width height path w) = Ok img ->
        w_rng (snd (create_boot_print width height path w)) = g' /\
        w_buffers (snd (create_boot_print width height path w))
        = (width, height) :: w_buffers w) /\
    ((forall path w,
         w_rng (snd (create_boot_print width height path w)) = g' /\
         w_buffers (snd (create_boot_print width height path w))
         = (width, height) :: w_buffers w) \/
     (forall path w,
         (exists e, fst (create_boot_print width height path w) = Raise e) /\
         w_rng (snd (create_boot_print width height path w)) = w_rng w)).
Proof.
  destruct (create_boot_print_trace width height)
    as [[e H]|[i1 [i2 [i3 [r4 [g' [_ [_ [_ [_ [_ [_ H]]]]]]]]]]]].
  - exists (seeded 42). split.
    + intros path w img Hr. destruct (H path w) as [He _].
      rewrite He in Hr. discriminate Hr.
    + right. intros path w. destruct (H path w) as [He [Hg _]].
      split; [exists e; exact He|exact Hg].
  - exists g'.
    assert (All : forall path w,
               w_rng (snd (create_boot_print width height path w)) = g' /\
               w_buffers (snd (create_boot_print width height path w))
               = (width, height) :: w_buffers w).
    { intros path w. rewrite H. destruct r4 as [i4|e]; [|split; reflexivity].
      unfold world_saved. destruct (w_writable w path); [|split; reflexivity].
      destruct (is_empty i4); split; reflexivity. }
    split; [|left; exact All].
    intros path w img _. apply All.
Qed.

Lemma create_boot_print_resets_generator_witness :
  exists g',
    forall g : Z,
    exists img,
      fst (@create_boot_print real TestRandom.lcg 32 48 "boot_print.png"
             (mkWorld (RM := TestRandom.lcg) (seeded g) (fun _ => None)
                      (fun _ => true) []))
      = Ok img /\
      w_rng (snd (@create_boot_print real TestRandom.lcg 32 48
                    "boot_print.png"
                    (mkWorld (RM := TestRandom.lcg) (seeded g)
                             (fun _ => None) (fun _ => true) [])))
      = g' /\
      w_buffers (snd (@create_boot_print real TestRandom.lcg 32 48
                        "boot_print.png"
                        (mkWorld (RM := TestRandom.lcg) (seeded g)
                                 (fun _ => None) (fun _ => true) [])))
      = [(32, 48)%Z].
Proof.
  destruct (@create_boot_print_resets_generator real TestRandom.lcg 32 48)
    as [g' [H _]].
  destruct (@create_boot_print_runs TestRandom.lcg 32 48)
    as [i1 [i2 [i3 [i4 [g4 [_ [_ [_ [_ [_ [_ [_ [_ Hrun]]]]]]]]]]]]];
    [apply RealRows.real_rows_ok; lia|lia|lia|].
  exists g'. intros g. exists i4.
  assert (E : fst (@create_boot_print real TestRandom.lcg 32 48
                     "boot_print.png"
                     (mkWorld (RM := TestRandom.lcg) (seeded g)
                              (fun _ => None) (fun _ => true) []))
              = Ok i4).
  { rewrite Hrun. reflexivity. }
  split; [exact E|]. exact (H _ _ _ E).
Defined.
End CallProps.

Module CarvingProps.
Import BootPrint PassFacts.

(** X15.  Carving never fills: on every canvas and for every buffer of its
    size, a texel that is filled after the second pass was filled before it
    and has kept its value, so the number of filled texels does not go up. *)
Theorem tread_carving_never_fills
        {FM : PyFloat} (width height : Z) (img : Image) :
  rows_ok width height -> has_size width height img ->
  exists img',
    pass2 width height img = Ok img' /\
    (forall x y, is_filled img' (x, y) = true ->
                 is_filled img (x, y) = true /\
                 im_px img' x y = im_px img x y) /\
    (filled_count img' <= filled_count img)%nat.
Proof.
  intros Hrows Hsz.
  destruct (pass2_paints Hrows Hsz) as [img' [E [[Sw Sh] P]]].
  exists img'. split; [exact E|].
  assert (K : forall x y, is_filled img' (x, y) = true ->
                          is_filled img (x, y) = true /\
                          im_px img' x y = im_px img x y).
  { intros x y. unfold is_filled. simpl.
    destruct (P x y) as [[_ Ev]|[_ Ev]]; rewrite Ev; [discriminate|auto]. }
  split; [exact K|].
  unfold filled_count, texels. rewrite Sw, Sh.
  apply filter_count_le. intros [x y] _ H. apply (K x y H).
Qed.

Lemma tread_carving_never_fills_witness :
  exists img',
    @pass2 real 32 48 (blank 32 48 blood_main) = Ok img' /\
    (forall x y, is_filled img' (x, y) = true ->
                 is_filled (blank 32 48 blood_main) (x, y) = true /\
                 im_px img' x y = im_px (blank 32 48 blood_main) x y) /\
    (filled_count img' <= filled_count (blank 32 48 blood_main))%nat.
Proof.
  apply (@tread_carving_never_fills real 32 48).
  - apply RealRows.real_rows_ok. lia.
  - split; reflexivity.
Defined.
End CarvingProps.

(** * The returned image *)

Module OutputProps.
Import BootPrint PassFacts EdgeFacts Pass4Facts Generate RunFacts.
Import OutcomeFacts BoundsFacts.

(** X16.  The returned image, texel by texel, for every float arithmetic,
    generator, size and world.  In an image that [create_boot_print] returns,
    a texel that the first pass filled and the second pass did not carve is
    [blood_edge] when the third pass looks at it and [blood_main] when it
    does not; every other texel is transparent or a droplet.  So the fully
    opaque texels are exactly the filled, uncarved ones. *)
Theorem output_texels_by_pass_sets
        {FM : PyFloat} {RM : PyRandom} (width height : Z) (path : string)
        (w w' : World) (img : Image) :
  create_boot_print width height path w = (Ok img, w') ->
  forall x y,
    (pass1_writes width height x y /\ ~ pass2_writes width height x y /\
     ((pass3_targets width height x y /\ im_px img x y = blood_edge) \/
      (~ pass3_targets width height x y /\ im_px img x y = blood_main))) \/
    (~ (pass1_writes width height x y /\ ~ pass2_writes width height x y) /\
     (im_px img x y = transparent \/ im_px img x y = droplet)).
Proof.
  intros E x y.
  destruct (@CallReturns.create_boot_print_passes _ _ _ _ _ _ _ _ E)
    as [i1 [i2 [i3 [[_ P1] [[_ P2] [[_ R3] [_ P4]]]]]]].
  assert (Empty : im_px i2 x y = transparent ->
                  im_px img x y = transparent \/ im_px img x y = droplet).
  { intros T2.
    assert (T3 : im_px i3 x y = transparent).
    { destruct (R3 x y) as [[_ [A _]]|[_ Ev]]; [|congruence].
      rewrite T2 in A. simpl in A. lia. }
    destruct (P4 x y) as [Ev|[_ [_ Ev]]]; [left; congruence|right; exact Ev]. }
  destruct (P2 x y) as [[W2 V2]|[N2 V2]].
  { right. split; [tauto|]. apply Empty. exact V2. }
  destruct (P1 x y) as [[W1 V1]|[N1 V1]].
  - left. split; [exact W1|]. split; [exact N2|].
    assert (F2 : im_px i2 x y = blood_main) by congruence.
    destruct (R3 x y) as [[T [_ Ev]]|[[T|T] Ev]].
    + left. split; [exact T|].
      destruct (P4 x y) as [Ev4|[Z0 _]]; [congruence|].
      rewrite Ev in Z0. discriminate Z0.
    + right. split; [exact T|].
      destruct (P4 x y) as [Ev4|[Z0 _]]; [congruence|].
      rewrite Ev, F2 in Z0. discriminate Z0.
    + rewrite F2 in T. simpl in T. lia.
  - right. split; [tauto|]. apply Empty. rewrite V2, V1. reflexivity.
Qed.

Lemma output_texels_by_pass_sets_witness :
  exists img w',
    @create_boot_print real TestRandom.lcg 32 48 "boot_print.png"
       (mkWorld (seeded 0) (fun _ => None) (fun _ => true) [])
    = (Ok img, w') /\
    forall x y,
      (@pass1_writes real 32 48 x y /\ ~ @pass2_writes real 32 48 x y /\
       ((@pass3_targets real 32 48 x y /\ im_px img x y = blood_edge) \/
        (~ @pass3_targets real 32 48 x y /\ im_px img x y = blood_main))) \/
      (~ (@pass1_writes real 32 48 x y /\ ~ @pass2_writes real 32 48 x y) /\
       (im_px img x y = transparent \/ im_px img x y = droplet)).
Proof.
  destruct (@create_boot_print_runs TestRandom.lcg 32 48)
    as [i1 [i2 [i3 [i4 [g' [_ [_ [_ [_ [_ [_ [_ [_ Hrun]]]]]]]]]]]]];
    [apply RealRows.real_rows_ok; lia|lia|lia|].
  exists i4. eexists.
  assert (E : @create_boot_print real TestRandom.lcg 32 48 "boot_print.png"
                (mkWorld (seeded 0) (fun _ => None) (fun _ => true) [])
              = (Ok i4,
                 mkWorld g'
                   (fun p => if String.eqb p "boot_print.png" then Some i4
                             else None)
                   (fun _ => true) [(32, 48)%Z])).
  { rewrite Hrun. reflexivity. }
  split; [exact E|].
  exact (@output_texels_by_pass_sets real TestRandom.lcg 32 48 _ _ _ _ E).
Defined.

Lemma returned_size {FM : PyFloat} {RM : PyRandom} (width height : Z)
      (path : string) (w : World) :
  in_buffer (has_size width height)
            (fst (create_boot_print width height path w)).
Proof.
  unfold create_boot_print, mbind at 1, Image_new.
  destruct ((width <? 0) || (height <? 0))%Z; [simpl; discriminate|].
  set (img0 := blank width height (0, 0, 0, 0)%Z).
  assert (S0 : has_size width height img0) by (split; reflexivity).
  unfold mbind at 1, lift at 1.
  pose proof (pass1_in_buffer S0) as H1.
  destruct (pass1 width height img0) as [img1|e]; simpl in H1;
    [|simpl; congruence].
  unfold mbind at 1, lift at 1.
  pose proof (pass2_in_buffer H1) as H2.
  destruct (pass2 width height img1) as [img2|e]; simpl in H2;
    [|simpl; congruence].
  unfold mbind at 1, lift at 1.
  pose proof (pass3_in_buffer H2) as H3.
  destruct (pass3 width height img2) as [img3|e]; simpl in H3;
    [|simpl; congruence].
  unfold mbind at 1, random_seed at 1.
  match goal with
  | |- in_buffer _ (fst (mbind (pass4 _ _ _) _ ?u)) =>
      pose proof (pass4_in_buffer u H3) as H4; unfold mbind at 1;
      destruct (pass4 width height img3 u) as [[img4|e] u4]; simpl in H4;
      [|simpl; congruence]
  end.
  unfold mbind, Image_save, ret.
  destruct (w_writable u4 path); [destruct (is_empty img4)|]; simpl;
    [discriminate|exact H4|discriminate].
Qed.

(** X17.  What a successful call tells its caller, whatever the arithmetic
    and the generator: the image has the size asked for, the width was not
    negative, the height was at least 7 (a shorter canvas never gets past
    [random.randint]), and the output path could be written. *)
Theorem success_means_valid_canvas
        {FM : PyFloat} {RM : PyRandom} (width height : Z) (path : string)
        (w w' : World) (img : Image) :
  create_boot_print width height path w = (Ok img, w') ->
  has_size width height img /\ (0 <= width)%Z /\ (7 <= height)%Z /\
  w_writable w path = true.
Proof.
  intros E. split; [|split; [|split]].
  - pose proof (returned_size width height path w) as H.
    rewrite E in H. exact H.
  - destruct (Z.ltb_spec width 0) as [Hneg|Hok]; [|exact Hok].
    unfold create_boot_print, mbind at 1, Image_new in E.
    replace (width <? 0)%Z with true in E by (symmetry; apply Z.ltb_lt; lia).
    discriminate E.
  - destruct (Z_lt_le_dec height 7) as [Hlt|Hok]; [|exact Hok].
    destruct (Z.ltb_spec width 0) as [Hneg|Hw].
    { unfold create_boot_print, mbind at 1, Image_new in E.
      replace (width <? 0)%Z with true in E by (symmetry; apply Z.ltb_lt; lia).
      discriminate E. }
    destruct (Z.ltb_spec height 0) as [Hneg|Hh].
    { unfold create_boot_print, mbind at 1, Image_new in E.
      replace (height <? 0)%Z with true in E
        by (symmetry; apply Z.ltb_lt; lia).
      rewrite orb_true_r in E. discriminate E. }
    destruct (@short_canvas_fails FM RM width height Hw ltac:(lia))
      as [g' Hf].
    rewrite Hf in E. discriminate E.
  - destruct (create_boot_print_outcome width height) as [synth H].
    destruct (H path w) as [w1 [E1 _]]. rewrite E in E1.
    injection E1 as E1 _. unfold returned in E1.
    destruct synth; [|discriminate E1].
    destruct (w_writable w path); [reflexivity|discriminate E1].
Qed.

Lemma success_means_valid_canvas_witness :
  exists img w',
    @create_boot_print real TestRandom.lcg 32 48 "boot_print.png"
       (mkWorld (seeded 0) (fun _ => None) (fun _ => true) [])
    = (Ok img, w') /\
    has_size 32 48 img /\ (0 <= 32)%Z /\ (7 <= 48)%Z /\
    w_writable (mkWorld (RM := TestRandom.lcg) (seeded 0) (fun _ => None)
                        (fun _ => true) [])
               "boot_print.png" = true.
Proof.
  destruct (@create_boot_print_runs TestRandom.lcg 32 48)
    as [i1 [i2 [i3 [i4 [g' [_ [_ [_ [_ [_ [_ [_ [_ Hrun]]]]]]]]]]]]];
    [apply RealRows.real_rows_ok; lia|lia|lia|].
  exists i4. eexists.
  assert (E : @create_boot_print real TestRandom.lcg 32 48 "boot_print.png"
                (mkWorld (seeded 0) (fun _ => None) (fun _ => true) [])
              = (Ok i4,
                 mkWorld g'
                   (fun p => if String.eqb p "boot_print.png" then Some i4
                             else None)
                   (fun _ => true) [(32, 48)%Z])).
  { rewrite Hrun. reflexivity. }
  split; [exact E|].
  exact (@success_means_valid_canvas real TestRandom.lcg 32 48 _ _ _ _ E).
Defined.
End OutputProps.

(** * Further properties of create_rounded_boot_prints.py *)

Module RoundedFacts.
Import Rounded.
Section Shape.
Context {PD : PilDraw}.

(** The width of the connecting strip in row [y] (lines 83-94). *)
Definition strip_width (y : Z) : Z :=
  if (y >? 23)%Z then 5 else if (y >? 20)%Z then 3
  else if (y >? 17)%Z then 4 else 6.

(** The texels of the connecting strip (lines 81-100). *)
Definition in_strip (x y : Z) : Prop :=
  (14 <= y < 27 /\ 11 - strip_width y / 2 <= x <= 11 + strip_width y / 2)%Z.

(** The bounding boxes of the four ellipses: heel, arch, ball, toe. *)
Definition boxes (is_left : bool) : list (Z * Z * Z * Z) :=
  let offset := (if is_left then 1 else -1)%Z in
  [(8 + offset, 23, 15 + offset, 29); (9 + offset, 21, 13 + offset, 27);
   (7 - offset, 15, 15 - offset, 21); (8 - offset, 11, 15 - offset, 16)]%Z.

(** Some ellipse colours the texel, which is a texel of the canvas. *)
Definition in_ellipses (is_left : bool) (x y : Z) : bool :=
  ((0 <=? x) && (x <? CANVAS_WIDTH) && (0 <=? y) && (y <? CANVAS_HEIGHT))%Z
  && existsb (fun box => ellipse_covers box x y) (boxes is_left).

Lemma strip_half_width (y : Z) : (1 <= strip_width y / 2 <= 3)%Z.
Proof.
  unfold strip_width.
  destruct (y >? 23)%Z; [vm_compute; split; discriminate|].
  destruct (y >? 20)%Z; [vm_compute; split; discriminate|].
  destruct (y >? 17)%Z; vm_compute; split; discriminate.
Qed.

Lemma strip_row_paints (y : Z) (s : Image) :
  has_size 22 40 s -> (14 <= y < 27)%Z ->
  exists img',
    for_each (range (11 - strip_width y / 2) (11 + strip_width y / 2 + 1))
      (fun (x : Z) (img : Image) =>
         if ((0 <=? x) && (x <? CANVAS_WIDTH)
             && (0 <=? y) && (y <? CANVAS_HEIGHT))%Z
         then putpixel (x, y) BOOT_COLOR img
         else Ok img)
      s = Ok img' /\
    paints BOOT_COLOR
      (fun x' y' =>
         y' = y /\
         (11 - strip_width y / 2 <= x' <= 11 + strip_width y / 2)%Z)
      s img'.
Proof.
  intros Hs Hy. pose proof (strip_half_width y) as Hw.
  match goal with
  | |- context [for_each ?xs ?body s] =>
      destruct (@for_each_paints Z 22 40 BOOT_COLOR
                  (fun x x' y' => x' = x /\ y' = y) xs body)
        with (img := s) as [img' [E P]]; [|exact Hs|]
  end.
  - intros x t Hx Ht. apply in_range in Hx.
    replace ((0 <=? x) && (x <? CANVAS_WIDTH)
             && (0 <=? y) && (y <? CANVAS_HEIGHT))%Z with true.
    + apply putpixel_paints. apply in_bounds_iff. destruct Ht as [-> ->]. lia.
    + symmetry. unfold CANVAS_WIDTH, CANVAS_HEIGHT.
      rewrite !andb_true_iff, !Z.leb_le, !Z.ltb_lt. lia.
  - exists img'. split; [exact E|].
    eapply paints_ext; [|exact P]. intros x' y'. split.
    + intros [x [Hx [-> ->]]]. apply in_range in Hx. split; [reflexivity|lia].
    + intros [-> Hx]. exists x'. split; [apply in_range; lia|auto].
Qed.

(** What [create_boot_print] returns, texel by texel. *)
Lemma rounded_texels (is_left : bool) :
  exists img,
    create_boot_print is_left = Ok img /\
    has_size 22 40 img /\
    forall x y,
      (in_strip x y /\ im_px img x y = BOOT_COLOR) \/
      (~ in_strip x y /\
       im_px img x y = if in_ellipses is_left x y then BOOT_COLOR
                       else TRANSPARENT).
Proof.
  unfold create_boot_print. cbv zeta.
  change (CANVAS_HEIGHT / 2 - 18 / 2 + 18 - 6 - 4 + 1)%Z with 20%Z.
  change (CANVAS_HEIGHT / 2 - 18 / 2 + 18 - 6)%Z with 23%Z.
  change (CANVAS_HEIGHT / 2 - 18 / 2 + 6)%Z with 17%Z.
  change (CANVAS_HEIGHT / 2 - 18 / 2 + 3)%Z with 14%Z.
  change (CANVAS_HEIGHT / 2 - 18 / 2 + 18 - 2)%Z with 27%Z.
  match goal with
  | |- context [for_each ?xs ?body ?b] =>
      set (base := b);
      destruct (@for_each_paints Z 22 40 BOOT_COLOR
                  (fun y x' y' =>
                     y' = y /\
                     (11 - strip_width y / 2 <= x'
                      <= 11 + strip_width y / 2)%Z)
                  xs body) with (img := base) as [img [E P]]
  end.
  - intros y s Hy Hs. apply in_range in Hy.
    apply (strip_row_paints Hs Hy).
  - split; reflexivity.
  - exists img. split; [exact E|].
    destruct P as [[Sw Sh] P]. split; [split; [rewrite Sw|rewrite Sh]; reflexivity|].
    intros x y. destruct (P x y) as [[[y0 [Hy0 [-> Hx]]] Ev]|[N Ev]].
    + left. apply in_range in Hy0. split; [split; assumption|exact Ev].
    + right. split.
      * intros [Hy Hx]. apply N. exists y. split; [apply in_range; exact Hy|].
        split; [reflexivity|exact Hx].
      * rewrite Ev. clear. unfold base, in_ellipses, boxes, draw_ellipse, in_bounds, blank.
        cbn [im_px im_width im_height existsb].
        change (CANVAS_WIDTH / 2)%Z with 11%Z.
        change (CANVAS_HEIGHT / 2 - 18 / 2)%Z with 11%Z.
        destruct ((0 <=? x) && (x <? CANVAS_WIDTH)
                  && (0 <=? y) && (y <? CANVAS_HEIGHT))%Z;
          cbn [andb]; [|reflexivity].
        destruct is_left; cbn -[ellipse_covers];
        repeat match goal with
               | |- context [ellipse_covers ?b x y] =>
                   destruct (ellipse_covers b x y); cbn [orb]
               end; reflexivity.
Qed.
End Shape.
End RoundedFacts.

Module RoundedProps.
Import Rounded RoundedFacts.

(** X18.  The rounded print keeps its padding and uses two colours only:
    for either foot and whatever PIL's ellipse rasteriser fills inside its
    bounding boxes, [create_boot_print] returns a 22 x 40 image whose every
    texel is [TRANSPARENT] or [BOOT_COLOR], and the [BOOT_COLOR] texels lie in
    columns 6..16 and rows 11..29, at least 5 columns and 10 rows away from
    the borders of the canvas. *)
Theorem rounded_print_keeps_padding {PD : PilDraw} (is_left : bool) :
  exists img,
    create_boot_print is_left = Ok img /\
    has_size CANVAS_WIDTH CANVAS_HEIGHT img /\
    forall x y,
      im_px img x y = TRANSPARENT \/
      (im_px img x y = BOOT_COLOR /\ (6 <= x <= 16 /\ 11 <= y <= 29)%Z).
Proof.
  destruct (rounded_texels is_left) as [img [E [Hs P]]].
  exists img. split; [exact E|]. split; [exact Hs|].
  intros x y. destruct (P x y) as [[[Hy Hx] Ev]|[_ Ev]].
  - right. split; [exact Ev|]. pose proof (strip_half_width y). lia.
  - destruct (in_ellipses is_left x y) eqn:Hin; [|left; exact Ev].
    right. split; [exact Ev|].
    unfold in_ellipses in Hin. apply andb_true_iff in Hin.
    destruct Hin as [_ Hin]. apply existsb_exists in Hin.
    destruct Hin as [[[[x0 y0] x1] y1] [Hbox Hc]].
    apply ellipse_in_box in Hc.
    unfold boxes in Hbox. cbv zeta in Hbox.
    destruct is_left; simpl in Hbox;
      repeat (destruct Hbox as [Hbox|Hbox];
              [injection Hbox as <- <- <- <-; lia|]);
      destruct Hbox.
Qed.

(** X19.  The texels of the rounded print: the connecting strip (rows 14 to
    26, three to seven texels wide around column 11) is [BOOT_COLOR] for
    either foot and every rasteriser; outside the strip a texel is
    [BOOT_COLOR] exactly when one of the four ellipses of that foot colours
    it, and [TRANSPARENT] otherwise. *)
Theorem rounded_texels_follow_strip_and_ellipses
        {PD : PilDraw} (is_left : bool) :
  exists img,
    create_boot_print is_left = Ok img /\
    (forall x y, in_strip x y -> im_px img x y = BOOT_COLOR) /\
    (forall x y, in_ellipses is_left x y = true ->
                 im_px img x y = BOOT_COLOR) /\
    (forall x y, ~ in_strip x y -> in_ellipses is_left x y = false ->
                 im_px img x y = TRANSPARENT).
Proof.
  destruct (rounded_texels is_left) as [img [E [_ P]]].
  exists img. split; [exact E|]. split; [|split].
  - intros x y Hin. destruct (P x y) as [[_ Ev]|[N _]];
      [exact Ev|contradiction].
  - intros x y Hin. destruct (P x y) as [[_ Ev]|[_ Ev]]; [exact Ev|].
    rewrite Hin in Ev. exact Ev.
  - intros x y Hs Hin. destruct (P x y) as [[Hs' _]|[_ Ev]];
      [contradiction|]. rewrite Hin in Ev. exact Ev.
Qed.

(** X20.  [main] synthesises both images before it saves anything and saves
    the left one first.  If the left path cannot be written the world is left
    as it was; if only the right path cannot be written the left file has
    been stored and the right file has not been touched; in both cases the
    call ends in [OSError].  If both can be written both files hold what
    [create_boot_print] returned.  The generator of the [random] module and
    the writability of the paths are never changed. *)
Theorem rounded_main_saves_left_first
        {FM : PyFloat} {RM : PyRandom} {PD : PilDraw} (w : World) :
  exists left right,
    create_boot_print true = Ok left /\
    create_boot_print false = Ok right /\
    w_rng (snd (main w)) = w_rng w /\
    w_writable (snd (main w)) = w_writable w /\
    (if w_writable w left_path then
       w_files (snd (main w)) left_path = Some left /\
       if w_writable w right_path then
         fst (main w) = Ok tt /\
         w_files (snd (main w)) right_path = Some right
       else
         fst (main w) = Raise OSError /\
         w_files (snd (main w)) right_path = w_files w right_path
     else
       main w = (Raise OSError, w)).
Proof.
  destruct (rounded_texels true) as [l [El [[Wl Hl] _]]].
  destruct (rounded_texels false) as [r [Er [[Wr Hr] _]]].
  assert (Nl : is_empty l = false)
    by (unfold is_empty; rewrite Wl, Hl; reflexivity).
  assert (Nr : is_empty r = false)
    by (unfold is_empty; rewrite Wr, Hr; reflexivity).
  clear Wl Hl Wr Hr.
  exists l, r. split; [exact El|]. split; [exact Er|].
  unfold main, mbind, lift, Image_save. rewrite El, Er, Nl, Nr.
  clear El Er Nl Nr.
  cbn [w_rng w_files w_writable w_buffers].
  destruct (w_writable w left_path) eqn:Wl.
  - cbn [w_rng w_files w_writable w_buffers].
    destruct (w_writable w right_path) eqn:Wr;
      cbn [fst snd w_rng w_files w_writable w_buffers].
    + split; [reflexivity|]. split; [reflexivity|].
      change (String.eqb left_path right_path) with false.
      rewrite !String.eqb_refl. auto.
    + split; [reflexivity|]. split; [reflexivity|].
      change (String.eqb right_path left_path) with false.
      rewrite !String.eqb_refl. auto.
  - cbn [fst snd]. auto.
Qed.
End RoundedProps.
